(** * AI-SEO-Blog-Generator: scorer, agent envelope and orchestrator

    A shallow embedding of three Python modules and the properties their
    specification states about them:

    - [Scorer]   : [utils/keyword_scorer.py]  (class [KeywordScorer])
    - [Agent]    : [agents/base_agent.py]     (class [BaseAgent])
    - [Pipeline] : [pipeline/orchestrator.py] (class [PipelineOrchestrator])

    Conventions.  A Python [dict] with string keys is a [gmap string _];
    a Python [int] is a [Z]; a Python [str] is a [string] of ASCII
    characters; the iteration order of a dict, which is the order of
    insertion in Python, is modelled only where a result depends on it.
    Python floats are idealised.  In the scorer a float is a real number
    or one of the special values [inf], [-inf] and [nan]; arithmetic on the
    finite ones is exact, without rounding and without overflow, and the
    special values behave as in Python.  In the agent and the orchestrator
    floats only hold durations and are rationals.  Calls to [logging] and
    [print] have no effect on any value the program computes and are left
    out. *)

From Stdlib Require Import Reals Lra ZArith QArith Sorted Permutation Ascii.
From stdpp Require Import gmap strings list pretty.

Set Warnings "-register-all".

(** ** Python values *)

(** The values the three modules handle dynamically, parametric in the
    model [F] of [float]. *)
Inductive pyval (F : Type) : Type :=
| PyNone
| PyBool (b : bool)
| PyInt (z : Z)
| PyFloat (x : F)
| PyStr (s : string)
| PyList (l : list (pyval F))
| PyDict (d : gmap string (pyval F)).

Arguments PyNone {F}.
Arguments PyBool {F} b.
Arguments PyInt {F} z.
Arguments PyFloat {F} x.
Arguments PyStr {F} s.
Arguments PyList {F} l.
Arguments PyDict {F} d.

(** [take_last n l] is the slice [l[-n:]]. *)
Definition take_last {A} (n : nat) (l : list A) : list A :=
  drop (length l - n) l.

(* ================================================================== *)
(** ** utils/keyword_scorer.py *)
(* ================================================================== *)

Module Scorer.

Local Open Scope R_scope.

#[export] Instance R_inhabited : Inhabited R := populate 0.

#[export] Instance Rlt_decision (x y : R) : Decision (x < y) := Rlt_dec x y.
#[export] Instance Rle_decision (x y : R) : Decision (x <= y) := Rle_dec x y.
#[export] Instance Rge_decision (x y : R) : Decision (x >= y) := Rge_dec x y.
#[export] Instance Req_decision : EqDecision R := Req_dec_T.

(** *** Floats *)

(** A float: a finite number, [inf] ([Inf false]), [-inf] ([Inf true]) or
    [nan]. *)
Inductive float :=
| Fin (x : R)
| Inf (negative : bool)
| NaN.

#[export] Instance float_inhabited : Inhabited float := populate (Fin 0).

#[export] Instance float_eq_dec : EqDecision float.
Proof. solve_decision. Defined.

(** The comparisons [a < b] and [a <= b]; every comparison with [nan] is
    false. *)
Definition float_lt (a b : float) : Prop :=
  match a, b with
  | Fin x, Fin y => x < y
  | Fin _, Inf negative => negative = false
  | Inf negative, Fin _ => negative = true
  | Inf n1, Inf n2 => n1 = true /\ n2 = false
  | _, _ => False
  end.

Definition float_le (a b : float) : Prop :=
  match a, b with
  | Fin x, Fin y => x <= y
  | Fin _, Inf negative => negative = false
  | Inf negative, Fin _ => negative = true
  | Inf n1, Inf n2 => n1 = true \/ n2 = false
  | _, _ => False
  end.

(** [a > b] and [a >= b]. *)
Definition float_gt (a b : float) : Prop := float_lt b a.
Definition float_ge (a b : float) : Prop := float_le b a.

#[export] Instance float_lt_dec : RelDecision float_lt.
Proof. intros [x | n1 |] [y | n2 |]; simpl; apply _. Defined.

#[export] Instance float_le_dec : RelDecision float_le.
Proof. intros [x | n1 |] [y | n2 |]; simpl; apply _. Defined.

#[export] Instance float_gt_dec : RelDecision float_gt :=
  fun a b => float_lt_dec b a.

#[export] Instance float_ge_dec : RelDecision float_ge :=
  fun a b => float_le_dec b a.

Definition float_neg (a : float) : float :=
  match a with
  | Fin x => Fin (- x)
  | Inf negative => Inf (negb negative)
  | NaN => NaN
  end.

Definition float_add (a b : float) : float :=
  match a, b with
  | Fin x, Fin y => Fin (x + y)
  | Fin _, Inf negative | Inf negative, Fin _ => Inf negative
  | Inf n1, Inf n2 => if Bool.eqb n1 n2 then Inf n1 else NaN
  | _, _ => NaN
  end.

Definition float_sub (a b : float) : float :=
  match a, b with
  | Fin x, Fin y => Fin (x - y)
  | _, _ => float_add a (float_neg b)
  end.

Definition float_mul (a b : float) : float :=
  match a, b with
  | Fin x, Fin y => Fin (x * y)
  | Fin x, Inf negative | Inf negative, Fin x =>
      if Rlt_dec 0 x then Inf negative
      else if Rlt_dec x 0 then Inf (negb negative)
      else NaN
  | Inf n1, Inf n2 => Inf (xorb n1 n2)
  | _, _ => NaN
  end.

(** [a / b] for a finite [b] that is not zero: the scorer divides by
    positive constants and by lengths of non-empty lists only. *)
Definition float_div (a : float) (b : R) : float :=
  match a with
  | Fin x => Fin (x / b)
  | Inf negative => if Rlt_dec 0 b then Inf negative else Inf (negb negative)
  | NaN => NaN
  end.

(** The builtins [min(a, b)] and [max(a, b)] return [a] unless [b] is
    smaller (greater): a [nan] in second place is never returned. *)
Definition py_min (a b : float) : float := if decide (float_lt b a) then b else a.
Definition py_max (a b : float) : float := if decide (float_gt b a) then b else a.

(** A number: an [int] (a [bool] counts as one) or a [float]. *)
Inductive number :=
| Int (z : Z)
| Float (x : float).

(** The value of a number, where its type does not matter. *)
Definition number_value (x : number) : float :=
  match x with
  | Int z => Fin (IZR z)
  | Float x => x
  end.

(** The floats end below 2^1024: the ints from [2^1024 - 2^970] on, which
    would round to 2^1024, have no float. *)
Definition float_limit : Z := (2 ^ 1024 - 2 ^ 970)%Z.

(** The exceptions the scorer's own expressions can raise. *)
Inductive exn := TypeError | ValueError | OverflowError.

Inductive result (A : Type) : Type :=
| Ok (a : A)
| Raise (e : exn).
Arguments Ok {A} a.
Arguments Raise {A} e.

#[export] Instance result_ret : MRet result := fun A a => Ok a.

#[export] Instance result_bind : MBind result := fun A B k m =>
  match m with
  | Ok a => k a
  | Raise e => Raise e
  end.

(** [try: m  except Exception: h]. *)
Definition try_except {A} (m : result A) (h : exn -> result A) : result A :=
  match m with
  | Ok a => Ok a
  | Raise e => h e
  end.

(** [float(z)] for an int [z]. *)
Definition float_of_int (z : Z) : result float :=
  if (Z.abs z <? float_limit)%Z then Ok (Fin (IZR z))
  else Raise OverflowError.

(** The float of an exact quotient, when it has one ([int / int] and
    [float(Fraction)]). *)
Definition float_of_real (x : R) : result float :=
  if Rlt_dec (Rabs x) (IZR float_limit) then Ok (Fin x)
  else Raise OverflowError.

Record KeywordMetrics := {
  keyword : string;
  search_volume : Z;
  keyword_difficulty : float;
  cpc : float;
  trend_score : pyval float;  (* handed to [calculate_trend_score] as is *)
  competition : string;
  last_updated : Z
}.

Record KeywordScore := {
  ks_keyword : string;
  total_score : float;
  component_scores : gmap string float;
  grade : string;
  recommendation : string;
  metrics : KeywordMetrics
}.

Definition WEIGHTS : gmap string R :=
  {[ "search_volume" := 0.40;
     "keyword_difficulty" := 0.30;
     "cpc" := 0.20;
     "trend" := 0.10 ]}.

(** A Python dict keeps insertion order and [_calculate_grade] walks it. *)
Definition GRADE_THRESHOLDS : list (string * R) :=
  [("A+", 90); ("A", 80); ("B+", 70); ("B", 60); ("C+", 50); ("C", 40);
   ("D", 0)].

Definition benchmarks : gmap string R :=
  {[ "high_volume" := 100000;
     "medium_volume" := 10000;
     "low_volume" := 1000;
     "high_cpc" := 10.0;
     "medium_cpc" := 2.0;
     "low_cpc" := 0.5 ]}.

Definition log10 (x : R) : R := ln x / ln 10.

(** The volume is an int, and the score a finite float. *)
Definition normalize_search_volume (volume : Z) : R :=
  if (volume <=? 0)%Z then 0.0
  else
    let log_volume := log10 (IZR (Z.max volume 1)) in
    let log_high := log10 (benchmarks !!! "high_volume") in
    let normalized := (log_volume / log_high) * 100 in
    Rmin normalized 100.0.

Definition normalize_keyword_difficulty (difficulty : float) : float :=
  let difficulty :=
    if decide (float_lt difficulty (Fin 0)) then Fin 0
    else if decide (float_gt difficulty (Fin 100)) then Fin 100
    else difficulty in
  float_sub (Fin 100) difficulty.

Definition normalize_cpc (cpc : float) : float :=
  if decide (float_le cpc (Fin 0)) then Fin 0.0
  else if decide (float_ge cpc (Fin (benchmarks !!! "high_cpc"))) then
    Fin 100.0
  else if decide (float_ge cpc (Fin (benchmarks !!! "medium_cpc"))) then
    let ratio :=
      float_div (float_sub cpc (Fin (benchmarks !!! "medium_cpc")))
        (benchmarks !!! "high_cpc" - benchmarks !!! "medium_cpc") in
    float_add (Fin 60) (float_mul ratio (Fin 40))
  else if decide (float_ge cpc (Fin (benchmarks !!! "low_cpc"))) then
    let ratio :=
      float_div (float_sub cpc (Fin (benchmarks !!! "low_cpc")))
        (benchmarks !!! "medium_cpc" - benchmarks !!! "low_cpc") in
    float_add (Fin 20) (float_mul ratio (Fin 40))
  else
    let ratio := float_div cpc (benchmarks !!! "low_cpc") in
    float_mul ratio (Fin 20).

Definition Rsum (l : list R) : R := foldr Rplus 0 l.

(** One data point of [statistics.mean]: a number, or [TypeError]. *)
Definition py_number (v : pyval float) : result number :=
  match v with
  | PyBool b => Ok (Int (if b then 1 else 0))
  | PyInt z => Ok (Int z)
  | PyFloat x => Ok (Float x)
  | _ => Raise TypeError
  end.

Fixpoint py_numbers (l : list (pyval float)) : result (list number) :=
  match l with
  | [] => Ok []
  | v :: l' =>
      x ← py_number v;
      xs ← py_numbers l';
      Ok (x :: xs)
  end.

(** A data point by kind: an int, a special float, and the exact value of
    one that is finite. *)
Definition as_int (x : number) : option Z :=
  match x with
  | Int z => Some z
  | Float _ => None
  end.

Definition special (x : number) : option float :=
  match x with
  | Int _ | Float (Fin _) => None
  | Float x => Some x
  end.

Definition exact (x : number) : option R :=
  match x with
  | Int z => Some (IZR z)
  | Float (Fin x) => Some x
  | Float _ => None
  end.

Definition Zsum (l : list Z) : Z := foldr Z.add 0%Z l.

(** [statistics.mean] of a non-empty list.  It adds the data exactly, as
    fractions, and the special floats apart: with a special float among
    the data the mean is their sum.  The exact mean of ints is an int when
    it is whole; every other mean is converted to a float, which raises
    [OverflowError] beyond the range of the floats. *)
Definition statistics_mean (l : list (pyval float)) : result number :=
  data ← py_numbers l;
  let n := length data in
  match omap special data with
  | x :: xs => Ok (Float (foldl float_add x xs))
  | [] =>
      match mapM as_int data with
      | Some ints =>
          let total := Zsum ints in
          if (total mod Z.of_nat n =? 0)%Z
          then Ok (Int (total / Z.of_nat n))
          else x ← float_of_real (IZR total / INR n); Ok (Float x)
      | None =>
          x ← float_of_real (Rsum (omap exact data) / INR n);
          Ok (Float x)
      end
  end.

(** [max(0, min(100, x))]; at the two ends Python returns the ints 0 and
    100, which are the floats in value. *)
Definition clamp_0_100 (x : float) : float :=
  py_max (Fin 0) (py_min (Fin 100) x).

Section Builtins.

(** [float(s)] for a string [s]: Python's parser of float literals, which
    raises [ValueError] on a string that is none. *)
Variable float_of_str : string -> result float.

(** What [list.sort(key=lambda x: x.total_score, reverse=True)] makes of a
    list one of whose keys is [nan]: Python documents no order for keys
    that do not compare, and the rearrangement depends on where they
    stand. *)
Variable sort_unordered : list KeywordScore -> list KeywordScore.

(** The builtin [float(v)]. *)
Definition py_float (v : pyval float) : result float :=
  match v with
  | PyBool b => Ok (Fin (if b then 1 else 0))
  | PyInt z => float_of_int z
  | PyFloat x => Ok x
  | PyStr s => float_of_str s
  | PyNone | PyList _ | PyDict _ => Raise TypeError
  end.

Definition calculate_trend_score (trend_data : pyval float) : result number :=
  match trend_data with
  | PyBool _ | PyInt _ | PyFloat _ =>
      x ← py_float trend_data;
      Ok (Float (clamp_0_100 x))
  | PyDict d =>
      match d !! "score" with
      | Some score =>
          x ← py_float score;
          Ok (Float (clamp_0_100 x))
      | None =>
          match d !! "values" with
          | Some (PyList l) =>
              let values := take_last 12 l in
              match values with
              | [] => Ok (Float (Fin 50.0))
              | _ => statistics_mean values
              end
          | Some (PyStr s) =>
              (* a slice of a string is a string: empty is falsy, and
                 [statistics.mean] rejects the characters of any other *)
              match take_last 12 (String.list_ascii_of_string s) with
              | [] => Ok (Float (Fin 50.0))
              | _ => Raise TypeError
              end
          | Some _ => Raise TypeError      (* not subscriptable by a slice *)
          | None => Ok (Float (Fin 50.0))
          end
      end
  | PyNone | PyStr _ | PyList _ => Ok (Float (Fin 50.0))
  end.

Fixpoint _calculate_grade_from (thresholds : list (string * R))
    (score : float) : string :=
  match thresholds with
  | [] => "D"
  | (grade, threshold) :: rest =>
      if decide (float_ge score (Fin threshold)) then grade
      else _calculate_grade_from rest score
  end.

Definition _calculate_grade (score : float) : string :=
  _calculate_grade_from GRADE_THRESHOLDS score.

(** [" | ".join(l)]. *)
Fixpoint join (sep : string) (l : list string) : string :=
  match l with
  | [] => ""
  | [s] => s
  | s :: rest => s +:+ sep +:+ join sep rest
  end.

(** The one caller passes a dict with the four components, so that no
    subscript fails; a missing component reads as 0 here. *)
Definition _generate_recommendation (total_score : float)
    (component_scores : gmap string float) (metrics : KeywordMetrics)
  : string :=
  let r1 :=
    if decide (float_ge total_score (Fin 80)) then
      ["Excellent keyword - high priority target"]
    else if decide (float_ge total_score (Fin 60)) then
      ["Good keyword - consider targeting"]
    else if decide (float_ge total_score (Fin 40)) then
      ["Moderate keyword - may be worth targeting"]
    else ["Low-value keyword - consider alternatives"] in
  let r2 :=
    if decide (float_lt (component_scores !!! "search_volume") (Fin 30)) then
      ["Low search volume - consider long-tail variations"] else [] in
  let r3 :=
    if decide (float_lt (component_scores !!! "keyword_difficulty") (Fin 40))
    then ["High competition - may be difficult to rank"] else [] in
  let r4 :=
    if decide (float_gt (component_scores !!! "cpc") (Fin 80)) then
      ["High commercial value - good for monetization"]
    else if decide (float_lt (component_scores !!! "cpc") (Fin 20)) then
      ["Low commercial intent - focus on traffic volume"]
    else [] in
  let r5 :=
    if decide (float_lt (component_scores !!! "trend") (Fin 30)) then
      ["Declining trend - monitor performance closely"]
    else if decide (float_gt (component_scores !!! "trend") (Fin 70)) then
      ["Rising trend - opportunity for growth"]
    else [] in
  join " | " (r1 ++ r2 ++ r3 ++ r4 ++ r5).

(** [x * w] for a number [x] and a float [w]: an int is converted to a
    float first, which raises [OverflowError] when it has none. *)
Definition number_times (x : number) (w : float) : result float :=
  match x with
  | Int z => x' ← float_of_int z; Ok (float_mul x' w)
  | Float x' => Ok (float_mul x' w)
  end.

Definition calculate_keyword_score (metrics : KeywordMetrics)
  : result KeywordScore :=
  let volume_score := Fin (normalize_search_volume (search_volume metrics)) in
  let difficulty_score :=
    normalize_keyword_difficulty (keyword_difficulty metrics) in
  let cpc_score := normalize_cpc (cpc metrics) in
  trend_score ← calculate_trend_score (trend_score metrics);
  weighted_trend ← number_times trend_score (Fin (WEIGHTS !!! "trend"));
  let total_score :=
    float_add
      (float_add
         (float_add
            (float_mul volume_score (Fin (WEIGHTS !!! "search_volume")))
            (float_mul difficulty_score
               (Fin (WEIGHTS !!! "keyword_difficulty"))))
         (float_mul cpc_score (Fin (WEIGHTS !!! "cpc"))))
      weighted_trend in
  let component_scores : gmap string float :=
    {[ "search_volume" := volume_score;
       "keyword_difficulty" := difficulty_score;
       "cpc" := cpc_score;
       "trend" := number_value trend_score ]} in
  let grade := _calculate_grade total_score in
  let recommendation :=
    _generate_recommendation total_score component_scores metrics in
  Ok {| ks_keyword := keyword metrics;
        total_score := total_score;
        component_scores := component_scores;
        grade := grade;
        recommendation := recommendation;
        metrics := metrics |}.

(** The list in descending order of [total_score] that keeps the relative
    order of equal totals: insertion from the right builds it. *)
Fixpoint insert_desc (x : KeywordScore) (l : list KeywordScore)
  : list KeywordScore :=
  match l with
  | [] => [x]
  | y :: l' =>
      if decide (float_ge (total_score x) (total_score y)) then x :: y :: l'
      else y :: insert_desc x l'
  end.

Definition sort_desc (l : list KeywordScore) : list KeywordScore :=
  foldr insert_desc [] l.

Definition is_nan (x : float) : bool :=
  match x with
  | NaN => true
  | _ => false
  end.

(** [scores.sort(key=lambda x: x.total_score, reverse=True)].  Python's
    sort is stable, also when reversed: when the keys compare, that is when
    none is [nan], the result is the one list in descending order of the
    key that keeps the relative order of equal keys. *)
Definition sort_by_total_reversed (scores : list KeywordScore)
  : list KeywordScore :=
  if forallb (fun score => negb (is_nan (total_score score))) scores
  then sort_desc scores
  else sort_unordered scores.

(** The body of the [for] loop of [score_keyword_list], with its
    [try]/[except Exception].  The handler only logs; the log line reads
    [metrics.keyword], which every [KeywordMetrics] has. *)
Fixpoint score_loop (keywords_metrics : list KeywordMetrics)
    (scores : list KeywordScore) : result (list KeywordScore) :=
  match keywords_metrics with
  | [] => Ok scores
  | metrics :: rest =>
      scores' ← try_except
                   (score ← calculate_keyword_score metrics;
                    Ok (scores ++ [score]))
                   (fun _ => Ok scores);
      score_loop rest scores'
  end.

Definition score_keyword_list (keywords_metrics : list KeywordMetrics)
  : result (list KeywordScore) :=
  scores ← score_loop keywords_metrics [];
  Ok (sort_by_total_reversed scores).

End Builtins.

(** [create_sample_metrics], with the time of the call as an argument. *)
Definition create_sample_metrics (keyword : string) (volume : Z)
    (difficulty cpc : float) (trend : pyval float) (now : Z)
  : KeywordMetrics :=
  {| keyword := keyword;
     search_volume := volume;
     keyword_difficulty := difficulty;
     cpc := cpc;
     trend_score := trend;
     competition := "medium";
     last_updated := now |}.

(** The first keyword of the module's own test run:
    [create_sample_metrics("bluetooth headphones", 50000, 75, 3.5, 80)]. *)
Definition example_metrics : KeywordMetrics :=
  create_sample_metrics "bluetooth headphones" 50000 (Fin 75) (Fin 3.5)
    (PyInt 80) 0.

(** A keyword whose difficulty is not a number:
    [create_sample_metrics("undefined", 1000, float("nan"), 1.0, 50)]. *)
Definition nan_metrics : KeywordMetrics :=
  create_sample_metrics "undefined" 1000 NaN (Fin 1.0) (PyInt 50) 0.

(** What the batch is measured against: the scores of the items that
    [calculate_keyword_score] accepts, in the order of the input. *)
Definition scored_ok (float_of_str : string -> result float)
    (keywords_metrics : list KeywordMetrics) : list KeywordScore :=
  keywords_metrics ≫= (fun m =>
    match calculate_keyword_score float_of_str m with
    | Ok s => [s]
    | Raise _ => []
    end).

(** The numbers [calculate_trend_score] takes as they are. *)
Definition is_number (v : pyval float) : Prop :=
  match v with
  | PyBool _ | PyInt _ | PyFloat _ => True
  | _ => False
  end.


(** A keyword of plain numbers: a difficulty and a cpc that are not [nan],
    and as trend a bool, a float, or an int that has a float. *)
Definition plain_numbers (m : KeywordMetrics) : Prop :=
  keyword_difficulty m <> NaN
  /\ cpc m <> NaN
  /\ match trend_score m with
     | PyBool _ => True
     | PyInt z => (Z.abs z < float_limit)%Z
     | PyFloat x => True
     | _ => False
     end.

(** Descending order of [total_score]. *)
Definition score_ge (a b : KeywordScore) : Prop :=
  float_ge (total_score a) (total_score b).

(** *** Selection of the best keywords *)

(** [GRADE_THRESHOLDS[grade]]; [None] stands for the [KeyError] of a
    grade that is no key. *)
Fixpoint threshold_in (thresholds : list (string * R)) (grade : string)
  : option R :=
  match thresholds with
  | [] => None
  | (g, threshold) :: rest =>
      if String.eqb g grade then Some threshold
      else threshold_in rest grade
  end.

Definition grade_threshold (grade : string) : option R :=
  threshold_in GRADE_THRESHOLDS grade.

(** The slice [l[:count]]: the first [count] items, and for a negative
    [count] all but the last [-count]. *)
Definition slice_to {A} (count : Z) (l : list A) : list A :=
  if (0 <=? count)%Z then take (Z.to_nat count) l
  else take (length l - Z.to_nat (- count)) l.

(** [get_top_keywords]; [None] when [min_grade] is no grade. *)
Definition get_top_keywords (keyword_scores : list KeywordScore)
    (count : Z) (min_grade : string) : option (list KeywordScore) :=
  min_score ← grade_threshold min_grade;
  let filtered :=
    filter (fun score => float_ge (total_score score) (Fin min_score))
      keyword_scores in
  Some (slice_to count filtered).

(** The default arguments [count=10, min_grade='C']. *)
Definition get_top_keywords_default (keyword_scores : list KeywordScore)
  : option (list KeywordScore) :=
  get_top_keywords keyword_scores 10 "C".

(** A score as the scorer makes it: graded by its total, which is not
    negative. *)
Definition well_graded (s : KeywordScore) : Prop :=
  grade s = _calculate_grade (total_score s)
  /\ float_le (Fin 0) (total_score s).

(** A score written by hand, for the examples. *)
Definition hand_score (k : string) (t : float) : KeywordScore :=
  {| ks_keyword := k; total_score := t; component_scores := ∅;
     grade := _calculate_grade t; recommendation := "";
     metrics := create_sample_metrics k 0 (Fin 0) (Fin 0) PyNone 0 |}.

(** *** The recommendation and the report *)

(** The first sentence of a recommendation, by grade. *)
Definition headline_of_grade (grade : string) : string :=
  if bool_decide (grade ∈ ["A+"; "A"])
  then "Excellent keyword - high priority target"
  else if bool_decide (grade ∈ ["B+"; "B"])
  then "Good keyword - consider targeting"
  else if bool_decide (grade ∈ ["C+"; "C"])
  then "Moderate keyword - may be worth targeting"
  else "Low-value keyword - consider alternatives".

(** What the report's expressions can raise: the [KeyError] of a
    subscript and the [ZeroDivisionError] of a division. *)
Inductive report_exn := KeyError (key : string) | ZeroDivisionError.

Inductive checked (A : Type) : Type :=
| Done (a : A)
| Fails (e : report_exn).
Arguments Done {A} a.
Arguments Fails {A} e.

#[export] Instance checked_ret : MRet checked := fun A a => Done a.

#[export] Instance checked_bind : MBind checked := fun A B k m =>
  match m with
  | Done a => k a
  | Fails e => Fails e
  end.

(** [d[key]] on a dict of floats. *)
Definition subscript (d : gmap string float) (key : string) : checked float :=
  match d !! key with
  | Some x => Done x
  | None => Fails (KeyError key)
  end.

(** [sum(d.values())]. *)
Definition sum_values (d : gmap string Z) : Z :=
  map_fold (fun _ v total => (v + total)%Z) 0%Z d.

Definition _generate_overall_recommendations
    (avg_components : gmap string float)
    (grade_distribution : gmap string Z) : checked (list string) :=
  search_volume ← subscript avg_components "search_volume";
  let r1 :=
    if decide (float_lt search_volume (Fin 40)) then
      ["Consider targeting higher volume keywords or focus on long-tail strategy"]
    else [] in
  keyword_difficulty ← subscript avg_components "keyword_difficulty";
  let r2 :=
    if decide (float_lt keyword_difficulty (Fin 50)) then
      ["High competition detected - consider less competitive alternatives"]
    else [] in
  cpc ← subscript avg_components "cpc";
  let r3 :=
    if decide (float_lt cpc (Fin 30)) then
      ["Low commercial intent - supplement with high-value keywords"]
    else [] in
  trend ← subscript avg_components "trend";
  let r4 :=
    if decide (float_lt trend (Fin 40)) then
      ["Declining trends detected - research emerging keywords"]
    else [] in
  let high_grade_count :=
    (default 0 (grade_distribution !! "A+")
     + default 0 (grade_distribution !! "A"))%Z in
  let total_keywords := sum_values grade_distribution in
  if (total_keywords =? 0)%Z then Fails ZeroDivisionError
  else
    let r5 :=
      if Rlt_dec (IZR high_grade_count / IZR total_keywords) 0.2 then
        ["Low percentage of high-value keywords - expand research"]
      else [] in
    Done (r1 ++ r2 ++ r3 ++ r4 ++ r5).

(** The loop that counts the grades. *)
Definition count_grade (distribution : gmap string Z) (score : KeywordScore)
  : gmap string Z :=
  <[grade score := (default 0 (distribution !! grade score) + 1)%Z]>
    distribution.

Definition grade_distribution_of (keyword_scores : list KeywordScore)
  : gmap string Z :=
  foldl count_grade ∅ keyword_scores.

(** [statistics.mean] of a non-empty list of floats: the sum of the
    special ones when there are any, and the exact mean otherwise. *)
Definition mean (xs : list float) : float :=
  match omap special (Float <$> xs) with
  | x :: specials => foldl float_add x specials
  | [] => Fin (Rsum (omap exact (Float <$> xs)) / INR (length xs))
  end.

(** [[score.component_scores[component] for score in keyword_scores]]. *)
Fixpoint components_of (component : string)
    (keyword_scores : list KeywordScore) : checked (list float) :=
  match keyword_scores with
  | [] => Done []
  | score :: rest =>
      x ← subscript (component_scores score) component;
      xs ← components_of component rest;
      Done (x :: xs)
  end.

(** The dict comprehension [{component: f(component) for component in
    components}] over the entries made so far. *)
Fixpoint per_component (f : string -> checked float)
    (components : list string) : checked (gmap string float) :=
  match components with
  | [] => Done ∅
  | component :: rest =>
      x ← f component;
      d ← per_component f rest;
      Done (<[component := x]> d)
  end.

(** An entry of "top_keywords" and one of "bottom_keywords". *)
Record TopEntry := {
  top_keyword : string;
  top_score : float;
  top_grade : string;
  top_recommendation : string
}.

Record BottomEntry := {
  bottom_keyword : string;
  bottom_score : float;
  bottom_grade : string
}.

(** The report, and the dict with the one key "error". *)
Record KeywordReport := {
  total_keywords : nat;
  average_score : float;
  grade_distribution : gmap string Z;
  top_keywords : list TopEntry;
  bottom_keywords : list BottomEntry;
  component_analysis : gmap string float;
  recommendations : list string
}.

Inductive report :=
| ErrorReport (error : string)
| FullReport (r : KeywordReport).

Section Report.

(** The builtin [round(x, ndigits)] on floats. *)
Variable round : float -> Z -> float.

Definition generate_keyword_report (keyword_scores : list KeywordScore)
  : checked report :=
  match keyword_scores with
  | [] => Done (ErrorReport "No keyword scores provided")
  | _ =>
      let total_keywords := length keyword_scores in
      let avg_score := mean (total_score <$> keyword_scores) in
      let grade_distribution := grade_distribution_of keyword_scores in
      let best_keywords := take 5 keyword_scores in
      let worst_keywords := take_last 5 keyword_scores in
      avg_components ←
        per_component
          (fun component =>
             xs ← components_of component keyword_scores;
             Done (mean xs))
          ["search_volume"; "keyword_difficulty"; "cpc"; "trend"];
      recommendations ←
        _generate_overall_recommendations avg_components grade_distribution;
      Done (FullReport
        {| total_keywords := total_keywords;
           average_score := round avg_score 2;
           grade_distribution := grade_distribution;
           top_keywords :=
             (fun score =>
                {| top_keyword := ks_keyword score;
                   top_score := round (total_score score) 2;
                   top_grade := grade score;
                   top_recommendation := recommendation score |})
             <$> best_keywords;
           bottom_keywords :=
             (fun score =>
                {| bottom_keyword := ks_keyword score;
                   bottom_score := round (total_score score) 2;
                   bottom_grade := grade score |})
             <$> worst_keywords;
           component_analysis := (fun x => round x 2) <$> avg_components;
           recommendations := recommendations |})
  end.

End Report.

(** The components the report averages, in its order. *)
Definition four_components : list string :=
  ["search_volume"; "keyword_difficulty"; "cpc"; "trend"].

(** A score with the four components, as the scorer makes them. *)
Definition has_components (s : KeywordScore) : Prop :=
  forall component,
    component ∈ four_components ->
    is_Some (component_scores s !! component).

(** A score written by hand whose components all equal its total. *)
Definition flat_score (k : string) (t : float) : KeywordScore :=
  {| ks_keyword := k; total_score := t;
     component_scores :=
       {[ "search_volume" := t; "keyword_difficulty" := t;
          "cpc" := t; "trend" := t ]};
     grade := _calculate_grade t; recommendation := "";
     metrics := create_sample_metrics k 0 (Fin 0) (Fin 0) PyNone 0 |}.

(** The number of scores graded A+ or A. *)
Definition high_grades (keyword_scores : list KeywordScore) : nat :=
  length (filter (fun s => grade s ∈ ["A+"; "A"]) keyword_scores).

End Scorer.


(* ================================================================== *)
(** ** Python strings *)
(* ================================================================== *)

Module PyString.

(** [s.startswith(p)]. *)
Fixpoint startswith (p s : string) : bool :=
  match p, s with
  | EmptyString, _ => true
  | String _ _, EmptyString => false
  | String a p', String b s' => Ascii.eqb a b && startswith p' s'
  end.

(** [sep in s]. *)
Fixpoint contains (sep s : string) : bool :=
  match s with
  | EmptyString => startswith sep EmptyString
  | String _ s' => startswith sep s || contains sep s'
  end.

Definition cons_head (c : ascii) (pieces : list string) : list string :=
  match pieces with
  | [] => [String c EmptyString]
  | p :: ps => String c p :: ps
  end.

(** [s.split(sep)] for a non-empty [sep]: the pieces between the
    occurrences of [sep], found from the left and not overlapping.  [skip]
    counts the characters of an occurrence still to be passed over. *)
Fixpoint split_from (sep s : string) (skip : nat) : list string :=
  match s with
  | EmptyString => [EmptyString]
  | String c s' =>
      match skip with
      | S k => split_from sep s' k
      | O =>
          if startswith sep s
          then EmptyString :: split_from sep s' (String.length sep - 1)
          else cons_head c (split_from sep s' 0)
      end
  end.

Definition split (sep s : string) : list string := split_from sep s 0.

(** [c.isspace()] on the ASCII range. *)
Definition isspace (c : ascii) : bool :=
  let n := nat_of_ascii c in
  ((9 <=? n) && (n <=? 13)) || ((28 <=? n) && (n <=? 32)).

(** [c.isdigit()] on the ASCII range. *)
Definition isdigit (c : ascii) : bool :=
  let n := nat_of_ascii c in (48 <=? n) && (n <=? 57).

Fixpoint lstrip (s : string) : string :=
  match s with
  | EmptyString => EmptyString
  | String c s' => if isspace c then lstrip s' else s
  end.

Fixpoint rstrip (s : string) : string :=
  match s with
  | EmptyString => EmptyString
  | String c s' =>
      match rstrip s' with
      | EmptyString => if isspace c then EmptyString else String c EmptyString
      | r => String c r
      end
  end.

(** [s.strip()]. *)
Definition strip (s : string) : string := rstrip (lstrip s).

(** [''.join(filter(str.isdigit, s))]. *)
Fixpoint digits_of (s : string) : string :=
  match s with
  | EmptyString => EmptyString
  | String c s' =>
      if isdigit c then String c (digits_of s') else digits_of s'
  end.

(** The number a string of decimal digits denotes, [acc] being the value
    of the digits already read. *)
Fixpoint decimal_value (s : string) (acc : Z) : Z :=
  match s with
  | EmptyString => acc
  | String c s' =>
      decimal_value s' (acc * 10 + (Z.of_nat (nat_of_ascii c) - 48))%Z
  end.

Definition newline : string := String (ascii_of_nat 10) EmptyString.

(** [sep] occurs in [s]. *)
Definition occurs (sep s : string) : Prop :=
  exists a b, s = a +:+ sep +:+ b.

(** [s[:-1]]. *)
Fixpoint but_last (s : string) : string :=
  match s with
  | EmptyString => EmptyString
  | String c EmptyString => EmptyString
  | String c s' => String c (but_last s')
  end.

(** In a text that goes on with [sep] after [a], no occurrence of [sep]
    starts inside [a]: the first [sep] is the one after [a]. *)
Definition first_after (sep a : string) : bool :=
  negb (contains sep (a +:+ but_last sep)).

End PyString.

(* ================================================================== *)
(** ** The asyncio runtime, as far as the code uses it *)
(* ================================================================== *)

Module Async.

(** Exceptions: [asyncio.TimeoutError], which [wait_for] raises, and any
    other [Exception], of which the code only ever reads [str(e)]. *)
Inductive exn :=
| TimeoutError
| Exception (msg : string).

Definition str (e : exn) : string :=
  match e with
  | TimeoutError => ""
  | Exception msg => msg
  end.

Inductive outcome (A : Type) : Type :=
| Returned (a : A)
| Raised (e : exn).
Arguments Returned {A} a.
Arguments Raised {A} e.

(** What a run can observe of the event loop, next to the object [self]
    the running method belongs to: the clock in microseconds (the
    resolution of [datetime]), the arguments of the [asyncio.sleep] calls
    that the methods modelled here have made themselves, oldest first, and
    the number of coroutines handed to [asyncio.wait_for].  What an
    awaited coroutine does while it runs, sleeping included, is not in
    [slept]: it is the time the coroutine takes. *)
Record World (St : Type) : Type := mkWorld {
  clock : Z;
  slept : list Z;
  awaited : nat;
  self : St
}.
Arguments mkWorld {St} clock slept awaited self.
Arguments clock {St} w.
Arguments slept {St} w.
Arguments awaited {St} w.
Arguments self {St} w.

(** A method body: it runs in a world and returns or raises. *)
Definition M (St A : Type) : Type := World St -> outcome A * World St.

#[export] Instance M_ret {St} : MRet (M St) :=
  fun A a w => (Returned a, w).

#[export] Instance M_bind {St} : MBind (M St) := fun A B k m w =>
  match m w with
  | (Returned a, w') => k a w'
  | (Raised e, w') => (Raised e, w')
  end.

Definition raise {St A} (e : exn) : M St A := fun w => (Raised e, w).

(** [try: m  except Exception as e: h e]. *)
Definition try_except {St A} (m : M St A) (h : exn -> M St A) : M St A :=
  fun w =>
    match m w with
    | (Returned a, w') => (Returned a, w')
    | (Raised e, w') => h e w'
    end.

(** [try: m  finally: fin]: [fin] runs either way; what [m] returned or
    raised stands unless [fin] raises itself. *)
Definition try_finally {St A} (m : M St A) (fin : M St unit) : M St A :=
  fun w =>
    match m w with
    | (r, w') =>
        match fin w' with
        | (Returned _, w'') => (r, w'')
        | (Raised e, w'') => (Raised e, w'')
        end
    end.

Definition get_self {St} : M St St := fun w => (Returned (self w), w).

Definition modify_self {St} (f : St -> St) : M St unit := fun w =>
  (Returned tt, mkWorld (clock w) (slept w) (awaited w) (f (self w))).

(** [datetime.now()]. *)
Definition now {St} : M St Z := fun w => (Returned (clock w), w).

Definition advance {St} (microseconds : Z) (w : World St) : World St :=
  mkWorld (clock w + Z.max 0 microseconds) (slept w) (awaited w) (self w).

Definition seconds (s : Z) : Z := s * 1000000.

(** [(t1 - t0).total_seconds()], [delta] being [t1 - t0]. *)
Definition total_seconds (delta : Z) : Q := Qmake delta 1000000.

(** [await asyncio.sleep(s)] for an integer [s]. *)
Definition sleep {St} (s : Z) : M St unit := fun w =>
  (Returned tt,
   advance (seconds s) (mkWorld (clock w) (slept w ++ [s]) (awaited w) (self w))).

(** A coroutine, seen from the code that awaits it: what it does to
    [self] when it starts, how long it then needs (in microseconds; [None]
    when it never finishes), and what it does to [self] and returns or
    raises when it finishes. *)
Record Coroutine (St A : Type) : Type := mkCoroutine {
  on_start : St -> St;
  duration : option N;
  on_finish : St -> St;
  result : outcome A
}.
Arguments mkCoroutine {St A} on_start duration on_finish result.
Arguments on_start {St A} c.
Arguments duration {St A} c.
Arguments on_finish {St A} c.
Arguments result {St A} c.

(** A call [f(args)] of an [async def]: the coroutine it makes may depend
    on the world it is made in. *)
Definition Task (St A : Type) : Type := World St -> Coroutine St A.

Definition update_self {St} (f : St -> St) (w : World St) : World St :=
  mkWorld (clock w) (slept w) (awaited w) (f (self w)).

(** [await asyncio.wait_for(task, timeout=timeout)], [timeout] in seconds.
    With a timeout that is not positive the coroutine is cancelled before
    it starts.  Otherwise it starts; it is awaited for its duration when
    that is shorter than the timeout, and for the timeout when it is not,
    in which case it is cancelled and [TimeoutError] is raised. *)
Definition wait_for {St A} (task : Task St A) (timeout : Z) : M St A :=
  fun w =>
    let c := task w in
    let w := mkWorld (clock w) (slept w) (S (awaited w)) (self w) in
    if (timeout <=? 0)%Z then (Raised TimeoutError, w)
    else
      let w := update_self (on_start c) w in
      match duration c with
      | Some d =>
          if (Z.of_N d <? seconds timeout)%Z
          then (result c, update_self (on_finish c) (advance (Z.of_N d) w))
          else (Raised TimeoutError, advance (seconds timeout) w)
      | None => (Raised TimeoutError, advance (seconds timeout) w)
      end.

(** What a run returned, [d] standing in when it raised. *)
Definition returned {A} (d : A) (r : outcome A) : A :=
  match r with
  | Returned a => a
  | Raised _ => d
  end.

Definition has_returned {A} (r : outcome A) : bool :=
  match r with
  | Returned _ => true
  | Raised _ => false
  end.

End Async.

(* ================================================================== *)
(** ** agents/base_agent.py *)
(* ================================================================== *)

Module Agent.
Import PyString Async.

Abbreviation dict := (gmap string (pyval Q)).

Record AgentResponse := {
  success : bool;
  data : dict;
  reasoning : list string;
  errors : list string;
  processing_time : Q;
  metadata : dict
}.

Record AgentConfig := {
  name : string;
  description : string;
  max_retries : Z;
  timeout_seconds : Z;
  temperature : Q;
  max_tokens : Z;
  reasoning_enabled : bool
}.

(** [AgentConfig(name=..., description=..., reasoning_enabled=...)] with
    the defaults of the dataclass. *)
Definition AgentConfig_defaults (name description : string)
    (reasoning_enabled : bool) : AgentConfig :=
  {| name := name;
     description := description;
     max_retries := 3;
     timeout_seconds := 120;
     temperature := 7 # 10;
     max_tokens := 4000;
     reasoning_enabled := reasoning_enabled |}.

(** The three events [execute] emits, with their data.  [agent_failed]
    also carries the text of the traceback, which is not modelled. *)
Inductive AgentEvent :=
| agent_started (input_data_keys : list string) (config : AgentConfig)
| agent_completed (processing_time : Q) (success : bool)
| agent_failed (error : string) (processing_time : Q).

(** One call of the event callback and one of the progress callback. *)
Record EventCall := {
  ev_agent_name : string;
  ev_event : AgentEvent;
  ev_timestamp : Z
}.

Record ProgressCall := {
  pc_agent_name : string;
  pc_progress : Z;
  pc_status : string;
  pc_current_step : string
}.

(** A callback is a callable of the pipeline.  It is known here by what a
    call of it does: return, or raise an exception; what else it does
    stays outside the agent. *)
Definition callback (Call : Type) : Type := Call -> outcome unit.

(** The mutable part of a [BaseAgent].  A callback slot holds [None] until
    a callback is set; the calls a set callback receives are logged,
    oldest first. *)
Record AgentState := {
  _progress : Z;
  _status : string;
  _current_step : string;
  _progress_callback : option (callback ProgressCall);
  _event_callback : option (callback EventCall);
  progress_calls : list ProgressCall;
  event_calls : list EventCall
}.

(** The state [__init__] leaves. *)
Definition init_state : AgentState :=
  {| _progress := 0;
     _status := "idle";
     _current_step := "";
     _progress_callback := None;
     _event_callback := None;
     progress_calls := [];
     event_calls := [] |}.

Definition set_progress_callback (callback : callback ProgressCall)
    (s : AgentState) : AgentState :=
  {| _progress := _progress s;
     _status := _status s;
     _current_step := _current_step s;
     _progress_callback := Some callback;
     _event_callback := _event_callback s;
     progress_calls := progress_calls s;
     event_calls := event_calls s |}.

Definition set_event_callback (callback : callback EventCall)
    (s : AgentState) : AgentState :=
  {| _progress := _progress s;
     _status := _status s;
     _current_step := _current_step s;
     _progress_callback := _progress_callback s;
     _event_callback := Some callback;
     progress_calls := progress_calls s;
     event_calls := event_calls s |}.

(** An agent: its configuration and its implementation of the abstract
    method [process]. *)
Record BaseAgent := {
  config : AgentConfig;
  process : dict -> Task AgentState AgentResponse
}.

(** The call [_update_progress] makes of a progress callback. *)
Definition progress_call (config : AgentConfig) (progress : Z)
    (status current_step : string) : ProgressCall :=
  {| pc_agent_name := name config;
     pc_progress := progress;
     pc_status := status;
     pc_current_step := current_step |}.

(** What [_update_progress] leaves of the state: the three fields set
    and, with a callback, its call logged. *)
Definition update_progress_state (config : AgentConfig) (progress : Z)
    (status current_step : string) (s : AgentState) : AgentState :=
  {| _progress := progress;
     _status := status;
     _current_step := current_step;
     _progress_callback := _progress_callback s;
     _event_callback := _event_callback s;
     progress_calls :=
       match _progress_callback s with
       | Some _ =>
           progress_calls s ++ [progress_call config progress status current_step]
       | None => progress_calls s
       end;
     event_calls := event_calls s |}.

(** What the call of the progress callback in [_update_progress] does:
    an exception of the callback leaves [_update_progress]. *)
Definition progress_outcome (config : AgentConfig) (progress : Z)
    (status current_step : string) (s : AgentState) : outcome unit :=
  match _progress_callback s with
  | Some callback =>
      callback (progress_call config progress status current_step)
  | None => Returned tt
  end.

Definition _update_progress (config : AgentConfig) (progress : Z)
    (status current_step : string) : M AgentState unit :=
  fun w =>
    (progress_outcome config progress status current_step (self w),
     update_self
       (update_progress_state config progress status current_step) w).

Definition log_event (call : EventCall) (s : AgentState) : AgentState :=
  {| _progress := _progress s;
     _status := _status s;
     _current_step := _current_step s;
     _progress_callback := _progress_callback s;
     _event_callback := _event_callback s;
     progress_calls := progress_calls s;
     event_calls := event_calls s ++ [call] |}.

Definition _emit_event (config : AgentConfig) (event : AgentEvent)
  : M AgentState unit :=
  fun w =>
    match _event_callback (self w) with
    | Some callback =>
        let call := {| ev_agent_name := name config;
                       ev_event := event;
                       ev_timestamp := clock w |} in
        (callback call, update_self (log_event call) w)
    | None => (Returned tt, w)
    end.

(** Two worlds that differ at most in what the agent reports: its
    progress, status and step and the two logs. *)
Definition reports_only (w w' : World AgentState) : Prop :=
  clock w' = clock w
  /\ slept w' = slept w
  /\ awaited w' = awaited w
  /\ _progress_callback (self w') = _progress_callback (self w)
  /\ _event_callback (self w') = _event_callback (self w).

(** The callbacks of a state return normally, whatever the call. *)
Definition callbacks_return (s : AgentState) : Prop :=
  (forall callback call,
     _progress_callback s = Some callback -> callback call = Returned tt)
  /\ (forall callback call,
        _event_callback s = Some callback -> callback call = Returned tt).

(** *** Chain-of-thought parsing *)

Definition fallback_response (raw_response : string) : dict :=
  {[ "response" := PyStr raw_response;
     "reasoning_steps" :=
       PyList [PyStr "Direct response without structured reasoning"];
     "confidence" := PyFloat 70%Q ]}.

Definition failed_response (raw_response : string) : dict :=
  {[ "response" := PyStr raw_response;
     "reasoning_steps" := PyList [PyStr "Parsing failed, using raw response"];
     "confidence" := PyFloat 60%Q ]}.

(** [line.startswith(tuple('123456789')) or line.startswith('-')]. *)
Definition is_step_line (line : string) : bool :=
  match line with
  | EmptyString => false
  | String c _ =>
      let n := nat_of_ascii c in
      ((49 <=? n) && (n <=? 57)) || (n =? 45)
  end.

Definition reasoning_steps_of (reasoning_part : string) : list string :=
  filter (fun line => is_step_line line = true)
         (strip <$> split newline reasoning_part).

(** The branch taken when "REASONING:" is found, [part] being [parts[1]];
    [None] when an expression in it raises ([IndexError] from a missing
    piece, [ValueError] from [float] of a string without digits). *)
Definition parse_structured (part : string) : option dict :=
  let reasoning_part := strip (default EmptyString (head (split "RESPONSE:" part))) in
  after_response ← split "RESPONSE:" part !! 1%nat;
  let response_part :=
    strip (default EmptyString (head (split "CONFIDENCE:" after_response))) in
  confidence_part ←
    (if contains "CONFIDENCE:" part
     then strip <$> (split "CONFIDENCE:" part !! 1%nat)
     else Some "80");
  let reasoning_steps := reasoning_steps_of reasoning_part in
  confidence ←
    (match confidence_part with
     | EmptyString => Some 80%Q
     | _ =>
         match digits_of confidence_part with
         | EmptyString => None
         | ds => Some (inject_Z (decimal_value ds 0))
         end
     end);
  Some ({[ "response" := PyStr response_part;
           "reasoning_steps" := PyList (PyStr <$> reasoning_steps);
           "confidence" := PyFloat (if Qle_bool confidence 100 then confidence else 100%Q) ]} : dict).

Definition _parse_reasoning_response (raw_response : string) : dict :=
  match split "REASONING:" raw_response with
  | _ :: part :: _ => default (failed_response raw_response) (parse_structured part)
  | _ => fallback_response raw_response
  end.

(** The confidence a structured response gets when it states none (the
    literal "80" of the parser), and the one [_call_gemini_with_reasoning]
    gives a response when reasoning is disabled. *)
Definition structured_default_confidence : Q := 80%Q.
Definition plain_default_confidence : Q := 85%Q.

(** *** Retry and execution *)

(** [str(last_error)] for a [last_error] that starts as [None]. *)
Definition str_option (s : option string) : string := default "None" s.

(** The [for attempt in range(max_retries)] loop of [_execute_with_retry]
    over the attempts still to make, and the [raise] after it. *)
Fixpoint retry_loop {A} (config : AgentConfig) (task : Task AgentState A)
    (attempts : list nat) (last_error : option string) : M AgentState A :=
  match attempts with
  | [] =>
      raise (Exception ("Task failed after " +:+ pretty (max_retries config)
                        +:+ " attempts. Last error: "
                        +:+ str_option last_error))
  | attempt :: rest =>
      fun w =>
        match wait_for task (timeout_seconds config) w with
        | (Returned result, w') => (Returned result, w')
        | (Raised TimeoutError, w') =>
            let last_error :=
              "Task timed out after " +:+ pretty (timeout_seconds config)
              +:+ " seconds" in
            retry_loop config task rest (Some last_error) w'
        | (Raised (Exception e), w') =>
            let last_error := "Task failed: " +:+ e in
            ((if (Z.of_nat attempt <? max_retries config - 1)%Z
              then sleep (2 ^ Z.of_nat attempt)
              else mret tt);;
             retry_loop config task rest (Some last_error)) w'
        end
  end.

(** [range(n)]. *)
Definition range (n : Z) : list nat := seq 0 (Z.to_nat n).

Definition _execute_with_retry {A} (config : AgentConfig)
    (task : Task AgentState A) : M AgentState A :=
  retry_loop config task (range (max_retries config)) None.

Definition failure_response (config : AgentConfig) (e : exn)
    (processing_time : Q) : AgentResponse :=
  {| success := false;
     data := ∅;
     reasoning := [];
     errors := ["Agent " +:+ name config +:+ " failed: " +:+ str e];
     processing_time := processing_time;
     metadata := {[ "agent_name" := PyStr (name config);
                    "failure_reason" := PyStr (str e) ]} |}.

(** What [execute] does before it calls [process]. *)
Definition execute_prelude (config : AgentConfig) (input_data : dict)
  : M AgentState unit :=
  _update_progress config 0 "starting" "Initializing agent";;
  _emit_event config (agent_started (map_to_list input_data).*1 config);;
  _update_progress config 10 "processing" "Executing main task".

(** What [execute] does after [process] has returned. *)
Definition execute_finish (config : AgentConfig) (start_time : Z)
  : M AgentState unit :=
  _update_progress config 90 "finalizing" "Preparing response";;
  end_time ← now;
  let processing_time := total_seconds (end_time - start_time) in
  _emit_event config (agent_completed processing_time true);;
  _update_progress config 100 "completed" "Task finished successfully".

(** The [except Exception as e] block of [execute].  It calls both
    callbacks before it returns, outside any [try]: an exception of
    theirs leaves [execute]. *)
Definition execute_except (config : AgentConfig) (start_time : Z) (e : exn)
  : M AgentState AgentResponse :=
  end_time ← now;
  let processing_time := total_seconds (end_time - start_time) in
  let error_msg := "Agent " +:+ name config +:+ " failed: " +:+ str e in
  _emit_event config (agent_failed error_msg processing_time);;
  _update_progress config 100 "failed" ("Error: " +:+ str e);;
  mret (failure_response config e processing_time).

Definition execute (agent : BaseAgent) (input_data : dict)
  : M AgentState AgentResponse :=
  let config := config agent in
  start_time ← now;
  try_except
    (execute_prelude config input_data;;
     result ← _execute_with_retry config (process agent input_data);
     execute_finish config start_time;;
     mret result)
    (execute_except config start_time).

(** The world in which [execute], called in [w], calls [process]. *)
Definition process_world (agent : BaseAgent) (input_data : dict)
    (w : World AgentState) : World AgentState :=
  (execute_prelude (config agent) input_data w).2.

(** The message of the exception [_execute_with_retry] ends in, and the
    [last_error] of an attempt that timed out. *)
Definition exhausted_message (config : AgentConfig) (last_error : string)
  : string :=
  "Task failed after " +:+ pretty (max_retries config)
  +:+ " attempts. Last error: " +:+ last_error.

Definition timeout_message (config : AgentConfig) : string :=
  "Task timed out after " +:+ pretty (timeout_seconds config) +:+ " seconds".

(** Every attempt at [task] under the configured timeout fails; ends in
    [TimeoutError]; ends in another exception. *)
Definition always_fails {A} (config : AgentConfig)
    (task : Task AgentState A) : Prop :=
  forall w, exists e, (wait_for task (timeout_seconds config) w).1 = Raised e.

Definition always_times_out {A} (config : AgentConfig)
    (task : Task AgentState A) : Prop :=
  forall w, (wait_for task (timeout_seconds config) w).1 = Raised TimeoutError.

Definition always_raises {A} (config : AgentConfig)
    (task : Task AgentState A) : Prop :=
  forall w, exists msg,
    (wait_for task (timeout_seconds config) w).1 = Raised (Exception msg).

(** The waits the specification asks for between [n] failed attempts:
    1, 2, 4, ... seconds, none after the last. *)
Definition backoff_waits (n : Z) : list Z :=
  (fun attempt => 2 ^ Z.of_nat attempt)%Z <$> seq 0 (Z.to_nat n - 1).

Definition get_status (config : AgentConfig) (s : AgentState)
  : string * Z * string * string * AgentConfig :=
  (name config, _progress s, _status s, _current_step s, config).

(** *** The sample agent of the module, [TestAgent] *)

(** One call of [GeminiService.generate_content], an external service:
    how long the reply takes and what it is. *)
Record GeminiCall := {
  latency : option N;
  reply : outcome string
}.

(** [ToolMixin._search_web], which [call_tool("search_web", ...)] runs. *)
Definition _search_web (query : string) (max_results : Z) : dict :=
  {[ "query" := PyStr query;
     "results" := PyList [];
     "status" := PyStr "not_implemented" ]}.

Definition TestAgent_config : AgentConfig :=
  AgentConfig_defaults "test_agent" "Test agent for development" true.

(** The response [TestAgent.process] returns for a reply of the
    service. *)
Definition TestAgent_response (response : string) (input_data : dict)
  : AgentResponse :=
  let gemini_response := _parse_reasoning_response response in
  {| success := true;
     data :=
       {[ "analysis" := default PyNone (gemini_response !! "response");
          "tool_result" := PyDict (_search_web "test query" 3);
          "input_summary" :=
            PyStr ("Processed " +:+ pretty (Z.of_nat (size input_data))
                   +:+ " input fields") ]};
     reasoning :=
       match gemini_response !! "reasoning_steps" with
       | Some (PyList steps) =>
           omap (fun v => match v with
                          | PyStr s => Some s
                          | _ => None
                          end) steps
       | _ => []
       end;
     errors := [];
     processing_time := 0%Q;
     metadata :=
       {[ "confidence" := default PyNone (gemini_response !! "confidence");
          "agent_name" := PyStr (name TestAgent_config) ]} |}.

(** [TestAgent.process]: it reports progress, awaits the service once,
    parses the reply, calls the search tool, reports progress twice and
    returns.  An exception of the service is re-raised, and so is one of
    the progress callback, which ends the coroutine where it is raised. *)
Definition TestAgent_process (gemini : GeminiCall) (input_data : dict)
  : Task AgentState AgentResponse :=
  fun w =>
    let analyzing :=
      update_progress_state TestAgent_config 20 "processing"
        "Analyzing input" in
    let calling :=
      update_progress_state TestAgent_config 60 "processing"
        "Calling tools" in
    let finalizing :=
      update_progress_state TestAgent_config 80 "processing"
        "Finalizing results" in
    match progress_outcome TestAgent_config 20 "processing"
            "Analyzing input" (self w) with
    | Raised e =>
        {| on_start := analyzing; duration := Some 0%N;
           on_finish := fun s => s; result := Raised e |}
    | Returned _ =>
        match reply gemini with
        | Raised e =>
            {| on_start := analyzing; duration := latency gemini;
               on_finish := fun s => s; result := Raised e |}
        | Returned response =>
            match progress_outcome TestAgent_config 60 "processing"
                    "Calling tools" (self w) with
            | Raised e =>
                {| on_start := analyzing; duration := latency gemini;
                   on_finish := calling; result := Raised e |}
            | Returned _ =>
                {| on_start := analyzing; duration := latency gemini;
                   on_finish := fun s => finalizing (calling s);
                   result :=
                     match progress_outcome TestAgent_config 80 "processing"
                             "Finalizing results" (self w) with
                     | Raised e => Raised e
                     | Returned _ =>
                         Returned (TestAgent_response response input_data)
                     end |}
            end
        end
    end.

Definition TestAgent (gemini : GeminiCall) : BaseAgent :=
  {| config := TestAgent_config;
     process := TestAgent_process gemini |}.

(** A service that never replies, one that replies after two seconds with
    a text without markers, and one that fails at once. *)
Definition gemini_hangs : GeminiCall :=
  {| latency := None; reply := Returned "" |}.

Definition gemini_replies : GeminiCall :=
  {| latency := Some 2000000%N; reply := Returned "Looks fine." |}.

Definition gemini_fails : GeminiCall :=
  {| latency := Some 0%N; reply := Raised (Exception "quota exceeded") |}.

(** A callback that prints its arguments, as those of the test scripts
    do. *)
Definition printing_callback {Call} : callback Call := fun _ => Returned tt.

(** A fresh agent at time 0, both callbacks set as in the test script. *)
Definition fresh_world : World AgentState :=
  mkWorld 0 [] 0
    (set_event_callback printing_callback
       (set_progress_callback printing_callback init_state)).

(** A progress callback that does not accept the report of a failure. *)
Definition strict_progress_callback : callback ProgressCall :=
  fun call =>
    if String.eqb (pc_status call) "failed"
    then Raised (Exception "unexpected status: failed")
    else Returned tt.

(** A fresh agent at time 0 with that progress callback. *)
Definition strict_world : World AgentState :=
  mkWorld 0 [] 0 (set_progress_callback strict_progress_callback init_state).

End Agent.

(* ================================================================== *)
(** ** pipeline/orchestrator.py *)
(* ================================================================== *)

Module Pipeline.
Import Async.

Abbreviation dict := (gmap string (pyval Q)).

Inductive PipelineStatus := PENDING | RUNNING | COMPLETED | FAILED | CANCELLED.

(** [status.value]. *)
Definition status_value (s : PipelineStatus) : string :=
  match s with
  | PENDING => "pending"
  | RUNNING => "running"
  | COMPLETED => "completed"
  | FAILED => "failed"
  | CANCELLED => "cancelled"
  end.

(** An entry of [agents_config]: a dict with the keys "name", "class" and
    "timeout", the last of which the code reads with [.get]. *)
Record agent_config := {
  name : string;
  class : string;
  timeout : option Z
}.

(** The data of the events the orchestrator publishes.  Every event also
    carries the time of its publication, and [agent_agent_failed] the text
    of a traceback; neither is modelled.  The keys of [pipeline_started]
    come in the order of the map, where Python has the order of
    insertion. *)
Inductive PipelineEvent :=
| pipeline_started (input_keys : list string)
| agent_started (agent_name : string) (agent_index total_agents : nat)
| agent_progress (agent_name : string) (current_step total_steps : Z)
    (status message : string) (progress_percent : Q)
| agent_completed (agent_name : string) (agent_data : dict)
| agent_timeout (agent_name : string) (timeout : Z)
| agent_agent_failed (agent_name error : string) (processing_time : Q)
| pipeline_completed (status : string) (duration success_rate : Q)
    (total_agents successful_agents errors : nat).

(** [event.event_type], the string a [PipelineEvent] is made with. *)
Definition event_type (e : PipelineEvent) : string :=
  match e with
  | pipeline_started _ => "pipeline_started"
  | agent_started _ _ _ => "agent_started"
  | agent_progress _ _ _ _ _ _ => "agent_progress"
  | agent_completed _ _ => "agent_completed"
  | agent_timeout _ _ => "agent_timeout"
  | agent_agent_failed _ _ _ => "agent_agent_failed"
  | pipeline_completed _ _ _ _ _ _ => "pipeline_completed"
  end.

(** *** The event bus *)

Section EventBus.

(** What the listeners act on. *)
Variable St : Type.

(** A subscribed callback: called with an event it changes the state and
    returns or raises. *)
Definition listener : Type := PipelineEvent -> St -> outcome unit * St.

(** [EventBus.listeners]: for an event type the callbacks subscribed to
    it, oldest first. *)
Definition EventBus : Type := gmap string (list listener).

(** [EventBus()]. *)
Definition new_bus : EventBus := ∅.

Definition subscribe (event_type : string) (callback : listener)
    (bus : EventBus) : EventBus :=
  <[event_type := default [] (bus !! event_type) ++ [callback]]> bus.

(** The loop of [EventBus.publish] over [callbacks]: what a callback
    raises is caught (and printed), what it did before stays. *)
Definition call_listeners (callbacks : list listener) (event : PipelineEvent)
    (st : St) : St :=
  foldl (fun st callback => (callback event st).2) st callbacks.

(** [EventBus.publish], the printing apart. *)
Definition bus_publish (event : PipelineEvent) (bus : EventBus) (st : St)
  : St :=
  match bus !! event_type event with
  | Some callbacks => call_listeners callbacks event st
  | None => st
  end.

(** A series of calls of [subscribe], in order. *)
Definition subscribe_all (subscriptions : list (string * listener))
    (bus : EventBus) : EventBus :=
  foldl (fun bus s => subscribe s.1 s.2 bus) bus subscriptions.

End EventBus.

Arguments subscribe_all {St} subscriptions bus.
Arguments subscribe {St} event_type callback bus.
Arguments call_listeners {St} callbacks event st.
Arguments bus_publish {St} event bus st.
Arguments new_bus {St}.

(** A [PipelineOrchestrator].  [published] is what [event_bus.publish] has
    been given, oldest first: listeners cannot raise into the publisher,
    which catches what they raise.  [pipeline_output] is the dict the
    running [run_pipeline] builds: a local of that call, kept here because
    every agent is handed this very dict. *)
Record Orchestrator := {
  published : list PipelineEvent;
  status : PipelineStatus;
  agents_config : list agent_config;
  results : gmap string dict;
  errors : list string;
  start_time : option Z;
  end_time : option Z;
  pipeline_output : dict
}.

Definition fixed_agents : list agent_config :=
  [ {| name := "market_research"; class := "MarketResearchAgent";
       timeout := Some 120%Z |};
    {| name := "keyword_analyzer"; class := "KeywordAnalyzer";
       timeout := Some 90%Z |};
    {| name := "content_structure"; class := "ContentStructureAgent";
       timeout := Some 60%Z |};
    {| name := "content_writer"; class := "ContentWriterAgent";
       timeout := Some 300%Z |};
    {| name := "image_placement"; class := "ImagePlacementAgent";
       timeout := Some 60%Z |};
    {| name := "seo_audit"; class := "SEOAuditAgent";
       timeout := Some 90%Z |};
    {| name := "content_refresher"; class := "ContentRefresherAgent";
       timeout := Some 60%Z |} ].

(** [PipelineOrchestrator()]. *)
Definition new_orchestrator : Orchestrator :=
  {| published := [];
     status := PENDING;
     agents_config := fixed_agents;
     results := ∅;
     errors := [];
     start_time := None;
     end_time := None;
     pipeline_output := ∅ |}.

Definition set_published (v : list PipelineEvent) (o : Orchestrator) :=
  {| published := v; status := status o; agents_config := agents_config o;
     results := results o; errors := errors o; start_time := start_time o;
     end_time := end_time o; pipeline_output := pipeline_output o |}.

Definition set_status (v : PipelineStatus) (o : Orchestrator) :=
  {| published := published o; status := v; agents_config := agents_config o;
     results := results o; errors := errors o; start_time := start_time o;
     end_time := end_time o; pipeline_output := pipeline_output o |}.

(** An assignment to the attribute [agents_config]. *)
Definition set_agents_config (v : list agent_config) (o : Orchestrator) :=
  {| published := published o; status := status o; agents_config := v;
     results := results o; errors := errors o; start_time := start_time o;
     end_time := end_time o; pipeline_output := pipeline_output o |}.

Definition set_results (v : gmap string dict) (o : Orchestrator) :=
  {| published := published o; status := status o;
     agents_config := agents_config o;
     results := v; errors := errors o; start_time := start_time o;
     end_time := end_time o; pipeline_output := pipeline_output o |}.

Definition set_errors (v : list string) (o : Orchestrator) :=
  {| published := published o; status := status o;
     agents_config := agents_config o;
     results := results o; errors := v; start_time := start_time o;
     end_time := end_time o; pipeline_output := pipeline_output o |}.

Definition set_start_time (v : option Z) (o : Orchestrator) :=
  {| published := published o; status := status o;
     agents_config := agents_config o;
     results := results o; errors := errors o; start_time := v;
     end_time := end_time o; pipeline_output := pipeline_output o |}.

Definition set_end_time (v : option Z) (o : Orchestrator) :=
  {| published := published o; status := status o;
     agents_config := agents_config o;
     results := results o; errors := errors o; start_time := start_time o;
     end_time := v; pipeline_output := pipeline_output o |}.

Definition set_pipeline_output (v : dict) (o : Orchestrator) :=
  {| published := published o; status := status o;
     agents_config := agents_config o;
     results := results o; errors := errors o; start_time := start_time o;
     end_time := end_time o; pipeline_output := v |}.

(** [self.event_bus.publish(PipelineEvent(...))]. *)
Definition publish_in (e : PipelineEvent) (o : Orchestrator) : Orchestrator :=
  set_published (published o ++ [e]) o.

Definition publish (e : PipelineEvent) : M Orchestrator unit :=
  modify_self (publish_in e).

(** One call of the progress callback that [_load_agent] hands to an
    agent; the callback publishes an [agent_progress] event. *)
Record ProgressReport := {
  pr_agent_name : string;
  pr_current_step : Z;
  pr_total_steps : Z;
  pr_status : string;
  pr_message : string
}.

Definition progress_callback (r : ProgressReport) (o : Orchestrator)
  : Orchestrator :=
  publish_in
    (agent_progress (pr_agent_name r) (pr_current_step r) (pr_total_steps r)
       (pr_status r) (pr_message r)
       (if (0 <? pr_total_steps r)%Z
        then (inject_Z (pr_current_step r) / inject_Z (pr_total_steps r))
             * 100
        else 0)%Q)
    o.

(** One run of an agent's [execute], seen from the orchestrator: the
    progress callback is all an agent holds of the orchestrator, and the
    input dict is only read.  The reports are those made when the run
    starts and when it finishes. *)
Record AgentRun := {
  reports_on_start : list ProgressReport;
  run_duration : option N;
  reports_on_finish : list ProgressReport;
  run_result : outcome dict
}.

(** A loaded agent: what its [execute] does on an input, at a time. *)
Definition agent := dict -> Z -> AgentRun.

Definition agent_task (a : agent) (input_data : dict)
  : Task Orchestrator dict :=
  fun w =>
    let r := a input_data (clock w) in
    mkCoroutine
      (fun o => foldl (fun o r => progress_callback r o) o (reports_on_start r))
      (run_duration r)
      (fun o => foldl (fun o r => progress_callback r o) o (reports_on_finish r))
      (run_result r).

(** [MockAgent.execute] for the agent named [agent_name]: one progress
    report, then [await asyncio.sleep(0.1)], then the mock result.  The
    sleep is inside the coroutine the orchestrator awaits: it is the
    tenth of a second the run lasts. *)
Definition MockAgent (agent_name : string) : agent :=
  fun input_data _ =>
    {| reports_on_start :=
         [{| pr_agent_name := agent_name;
             pr_current_step := 1%Z;
             pr_total_steps := 3%Z;
             pr_status := "processing";
             pr_message := "Mock " +:+ agent_name +:+ " processing..." |}];
       run_duration := Some 100000%N;
       reports_on_finish := [];
       run_result :=
         Returned
           ({[ agent_name +:+ "_result" :=
                 PyStr ("Mock result from " +:+ agent_name);
               "status" := PyStr "completed";
               "processing_time" := PyFloat (1 # 10) ]} : dict) |}.

Definition mock_agents : list string :=
  [ "market_research"; "keyword_analyzer"; "content_structure";
    "content_writer"; "image_placement"; "seo_audit"; "content_refresher" ].

(** [_load_agent]: a mock for the seven known names, an exception for
    any other. *)
Definition _load_agent (agent_config : agent_config) : outcome agent :=
  let agent_name := name agent_config in
  if bool_decide (agent_name ∈ mock_agents)
  then Returned (MockAgent agent_name)
  else Raised (Exception ("Could not load agent " +:+ class agent_config)).

(** The message [execute_agent] records for an exception. *)
Definition failure_message (agent_config : agent_config) (e : exn) : string :=
  match e with
  | TimeoutError =>
      "Agent " +:+ name agent_config +:+ " timed out after "
      +:+ pretty (default 120%Z (timeout agent_config)) +:+ "s"
  | Exception msg => "Agent " +:+ name agent_config +:+ " failed: " +:+ msg
  end.

Section Orchestration.

(** The loader [execute_agent] calls.  The class has [_load_agent]; the
    properties below hold whatever agents a loader supplies. *)
Variable load_agent : agent_config -> outcome agent.

(** [datetime.isoformat]. *)
Variable isoformat : Z -> string.

Definition append_error (msg : string) : M Orchestrator unit :=
  modify_self (fun o => set_errors (errors o ++ [msg]) o).

Definition execute_agent (agent_config : agent_config) (input_data : dict)
  : M Orchestrator dict :=
  let agent_name := name agent_config in
  start_time ← now;
  try_except
    (agent ← (fun w => (load_agent agent_config, w)) : M Orchestrator agent;
     let timeout := default 120%Z (timeout agent_config) in
     result ← wait_for (agent_task agent input_data) timeout;
     end_time ← now;
     let processing_time := total_seconds (end_time - start_time) in
     publish (agent_completed agent_name
                (<["processing_time" := PyFloat processing_time]> result));;
     mret result)
    (fun e =>
       match e with
       | TimeoutError =>
           let timeout := default 120%Z (timeout agent_config) in
           let error_msg :=
             "Agent " +:+ agent_name +:+ " timed out after "
             +:+ pretty timeout +:+ "s" in
           append_error error_msg;;
           publish (agent_timeout agent_name timeout);;
           raise (Exception error_msg)
       | Exception e =>
           let error_msg := "Agent " +:+ agent_name +:+ " failed: " +:+ e in
           append_error error_msg;;
           end_time ← now;
           publish (agent_agent_failed agent_name error_msg
                      (total_seconds (end_time - start_time)));;
           raise (Exception error_msg)
       end).

(** The world in which the loop body for the agent at index [i], entered
    in [w], calls [execute_agent]: the [agent_started] event is out. *)
Definition agent_call_world (i : nat) (agent_config : agent_config)
    (w : World Orchestrator) : World Orchestrator :=
  update_self
    (publish_in (agent_started (name agent_config) (i + 1)
                   (length (agents_config (self w))))) w.

(** The body of the loop of [run_pipeline] for the agent at index [i]. *)
Definition run_agent (i : nat) (agent_config : agent_config)
  : M Orchestrator unit :=
  let agent_name := name agent_config in
  o ← get_self;
  publish (agent_started agent_name (i + 1) (length (agents_config o)));;
  try_except
    (o ← get_self;
     agent_result ← execute_agent agent_config (pipeline_output o);
     modify_self (fun o =>
       set_results (<[agent_name := agent_result]> (results o)) o);;
     modify_self (fun o =>
       set_pipeline_output (agent_result ∪ pipeline_output o) o))
    (fun _ => mret tt).

(** [for i, agent_config in enumerate(...)], from index [i] on. *)
Fixpoint run_agents (i : nat) (configs : list agent_config)
  : M Orchestrator unit :=
  match configs with
  | [] => mret tt
  | agent_config :: rest =>
      run_agent i agent_config;;
      run_agents (S i) rest
  end.

(** What the agent of a configuration gives for an input, in a world:
    what the loader raises, or what [agent.execute(input_data)] returns or
    raises when it is awaited under the timeout of the configuration. *)
Definition agent_outcome (agent_config : agent_config) (input_data : dict)
    (w : World Orchestrator) : outcome dict :=
  match load_agent agent_config with
  | Raised e => Raised e
  | Returned agent =>
      (wait_for (agent_task agent input_data)
         (default 120%Z (timeout agent_config)) w).1
  end.

(** What the agents of [configs] give in their turns of the loop, entered
    in [w] at index [i]: each is handed the pipeline state its turn
    begins with. *)
Fixpoint agent_outcomes (i : nat) (configs : list agent_config)
    (w : World Orchestrator) : list (agent_config * outcome dict) :=
  match configs with
  | [] => []
  | agent_config :: rest =>
      (agent_config,
       agent_outcome agent_config (pipeline_output (self w))
         (agent_call_world i agent_config w))
      :: agent_outcomes (S i) rest (run_agent i agent_config w).2
  end.

(** The state [run_pipeline] starts its loop with:
    [{"pipeline_id": ..., "generated_at": ..., "language": "english",
    **input_data}]. *)
Definition initial_output (pipeline_id : string) (input_data : dict)
    (start : Z) : dict :=
  input_data ∪
  ({[ "pipeline_id" := PyStr pipeline_id;
      "generated_at" := PyStr (isoformat start);
      "language" := PyStr "english" ]} : dict).

Definition final_status (o : Orchestrator) : PipelineStatus :=
  if (length (errors o) =? 0)%nat then COMPLETED
  else if (0 <? size (results o))%nat then COMPLETED
  else FAILED.

(** The summary [run_pipeline] attaches.  Its "errors" entry is the list
    [self.errors] itself; the value here is what the list holds then. *)
Definition processing_summary (o : Orchestrator) (elapsed : Q) : pyval Q :=
  PyDict
    {[ "total_agents" := PyInt (Z.of_nat (length (agents_config o)));
       "successful_agents" := PyInt (Z.of_nat (size (results o)));
       "failed_agents" := PyInt (Z.of_nat (length (errors o)));
       "processing_time" := PyFloat elapsed;
       "errors" := PyList (PyStr <$> errors o) ]}.

(** [len(self.results) / len(self.agents_config) * 100]. *)
Definition success_rate (o : Orchestrator) : Q :=
  (inject_Z (Z.of_nat (size (results o)))
   / inject_Z (Z.of_nat (length (agents_config o)))) * 100.

(** The [finally] block of [run_pipeline]. *)
Definition finish_pipeline (start : Z) : M Orchestrator unit :=
  end_time ← now;
  modify_self (set_end_time (Some end_time));;
  let elapsed := total_seconds (end_time - start) in
  modify_self (fun o =>
    set_pipeline_output
      (<["processing_summary" := processing_summary o elapsed]>
         (pipeline_output o)) o);;
  o ← get_self;
  if (length (agents_config o) =? 0)%nat
  then raise (Exception "division by zero")
  else
    publish (pipeline_completed (status_value (status o)) elapsed
               (success_rate o) (length (agents_config o))
               (size (results o)) (length (errors o))).

(** [run_pipeline], [pipeline_id] being the value of [str(uuid.uuid4())]. *)
Definition run_pipeline (pipeline_id : string) (input_data : dict)
  : M Orchestrator dict :=
  start ← now;
  modify_self (set_start_time (Some start));;
  modify_self (set_status RUNNING);;
  modify_self (set_pipeline_output
    (initial_output pipeline_id input_data start));;
  publish (pipeline_started (map_to_list input_data).*1);;
  try_finally
    (try_except
       (o ← get_self;
        run_agents 0 (agents_config o);;
        modify_self (fun o => set_status (final_status o) o))
       (fun e =>
          modify_self (set_status FAILED);;
          append_error ("Pipeline failed: " +:+ str e)))
    (finish_pipeline start);;
  o ← get_self;
  mret (pipeline_output o).

(** The world in which [run_pipeline], called in [w], enters its loop. *)
Definition loop_world (pipeline_id : string) (input_data : dict)
    (w : World Orchestrator) : World Orchestrator :=
  update_self (fun o =>
    publish_in (pipeline_started (map_to_list input_data).*1)
      (set_pipeline_output
         (initial_output pipeline_id input_data (clock w))
         (set_status RUNNING (set_start_time (Some (clock w)) o)))) w.

(** An agent that succeeds, and one that fails, whenever it is run. *)
Definition agent_succeeds (agent_config : agent_config) : Prop :=
  forall input_data w, exists result,
    (execute_agent agent_config input_data w).1 = Returned result.

Definition agent_fails (agent_config : agent_config) : Prop :=
  forall input_data w, exists e,
    (execute_agent agent_config input_data w).1 = Raised e.

End Orchestration.

(** Of the outcomes of a series of turns: the results returned, with the
    names of their agents, and the messages of the failures. *)
Definition returned_results (outcomes : list (agent_config * outcome dict))
  : list (string * dict) :=
  omap (fun turn : agent_config * outcome dict =>
          match turn.2 with
          | Returned result => Some (name turn.1, result)
          | Raised _ => None
          end) outcomes.

Definition failure_messages (outcomes : list (agent_config * outcome dict))
  : list string :=
  omap (fun turn : agent_config * outcome dict =>
          match turn.2 with
          | Returned _ => None
          | Raised e => Some (failure_message turn.1 e)
          end) outcomes.

(** [self.results[agent_name] = agent_result] and
    [pipeline_output.update(agent_result)] for a series of results, oldest
    first. *)
Definition record_results (returned : list (string * dict))
    (results : gmap string dict) : gmap string dict :=
  foldl (fun results r => <[r.1 := r.2]> results) results returned.

Definition merge_results (returned : list (string * dict)) (state : dict)
  : dict :=
  foldl (fun state r => r.2 ∪ state) state returned.

(** All of an orchestrator but its event log. *)
Definition core (o : Orchestrator) :=
  (status o, agents_config o, results o, errors o, start_time o, end_time o,
   pipeline_output o).

(** The orchestrator [run_pipeline] leaves, from the world [w1] in which
    its loop ended; [start] is the time of the call. *)
Definition finished (start : Z) (w1 : World Orchestrator) : Orchestrator :=
  let o := set_end_time (Some (clock w1))
             (set_status (final_status (self w1)) (self w1)) in
  let elapsed := total_seconds (clock w1 - start) in
  publish_in
    (pipeline_completed (status_value (status o)) elapsed (success_rate o)
       (length (agents_config o)) (size (results o)) (length (errors o)))
    (set_pipeline_output
       (<["processing_summary" := processing_summary o elapsed]>
          (pipeline_output o)) o).

(** Every recorded result has its keys in the pipeline state. *)
Definition merged (o : Orchestrator) : Prop :=
  forall n r, results o !! n = Some r ->
    dom r ⊆ dom (pipeline_output o).

Definition get_status (o : Orchestrator)
  : string * nat * nat * list string * option Z * option Z :=
  (status_value (status o), size (results o), length (agents_config o),
   errors o, start_time o, end_time o).

(** A world in which nothing has happened yet, at time [t]. *)
Definition world_at (t : Z) (o : Orchestrator) : World Orchestrator :=
  mkWorld t [] 0 o.

(** *** The events of a run *)

(** The event a progress report is published as. *)
Definition progress_event (r : ProgressReport) : PipelineEvent :=
  agent_progress (pr_agent_name r) (pr_current_step r) (pr_total_steps r)
    (pr_status r) (pr_message r)
    (if (0 <? pr_total_steps r)%Z
     then (inject_Z (pr_current_step r) / inject_Z (pr_total_steps r)) * 100
     else 0)%Q.

Definition is_progress (e : PipelineEvent) : bool :=
  match e with
  | agent_progress _ _ _ _ _ _ => true
  | _ => false
  end.

(** The event that ends the turn of the agent named [agent_name]: one of
    the three [execute_agent] publishes last. *)
Definition ends_turn_of (agent_name : string) (e : PipelineEvent) : bool :=
  match e with
  | agent_completed n _ | agent_timeout n _ | agent_agent_failed n _ _ =>
      String.eqb n agent_name
  | _ => false
  end.

(** The events of the loop over [configs] from index [i] on, in a
    pipeline of [total] agents: for each agent in turn its
    [agent_started], then progress events only, then the one event that
    ends its turn. *)
Fixpoint agent_turns (total i : nat) (configs : list agent_config)
    (events : list PipelineEvent) : Prop :=
  match configs with
  | [] => events = []
  | config :: rest =>
      exists progress ending events',
        events
        = agent_started (name config) (i + 1) total
          :: progress ++ ending :: events'
        /\ forallb is_progress progress = true
        /\ ends_turn_of (name config) ending = true
        /\ agent_turns total (S i) rest events'
  end.

(** The time the agents of [configs] may take together, in microseconds:
    each its timeout. *)
Definition total_timeout (configs : list agent_config) : Z :=
  foldr (fun config t => Z.max 0 (seconds (default 120 (timeout config))) + t)%Z
    0%Z configs.

(** The result every [MockAgent] named [agent_name] returns. *)
Definition mock_result (agent_name : string) : dict :=
  {[ agent_name +:+ "_result" := PyStr ("Mock result from " +:+ agent_name);
     "status" := PyStr "completed";
     "processing_time" := PyFloat (1 # 10) ]}.

(** The keys [run_pipeline] itself puts into its output. *)
Definition own_keys : list string :=
  ["pipeline_id"; "generated_at"; "language"; "processing_summary"].

(** *** The scenarios of the examples *)

(** The input of the module's own [test_pipeline]. *)
Definition test_input : dict :=
  {[ "product_name" := PyStr "Wireless Gaming Mouse";
     "niche" := PyStr "gaming peripherals";
     "target_keywords" :=
       PyList [PyStr "gaming mouse"; PyStr "wireless mouse";
               PyStr "gaming gear"];
     "target_audience" := PyStr "gamers, pc enthusiasts";
     "budget" := PyInt 1500;
     "competition_level" := PyStr "high" ]}.

(** The rendering of a time in the examples, none of which depends on
    it: the count of microseconds in decimal. *)
Definition micros : Z -> string := pretty.

Definition market_research : agent_config :=
  {| name := "market_research"; class := "MarketResearchAgent";
     timeout := Some 120%Z |}.

Definition keyword_analyzer : agent_config :=
  {| name := "keyword_analyzer"; class := "KeywordAnalyzer";
     timeout := Some 90%Z |}.

(** Two agents the loader does not know. *)
Definition publisher : agent_config :=
  {| name := "publisher"; class := "PublisherAgent"; timeout := Some 30%Z |}.

Definition quality_check : agent_config :=
  {| name := "quality_check"; class := "QualityCheckAgent"; timeout := None |}.

(** An agent that reports what it finds in its input under the key of the
    market research, at once. *)
Definition ProbeAgent : agent :=
  fun input_data _ =>
    {| reports_on_start := [];
       run_duration := Some 0%N;
       reports_on_finish := [];
       run_result :=
         Returned
           ({[ "probe_found" :=
                 default PyNone (input_data !! "market_research_result") ]}
            : dict) |}.

Definition probe : agent_config :=
  {| name := "probe"; class := "ProbeAgent"; timeout := Some 30%Z |}.

(** A loader that knows the probe next to the mock agents. *)
Definition probe_loader (agent_config : agent_config) : outcome agent :=
  if String.eqb (name agent_config) "probe" then Returned ProbeAgent
  else _load_agent agent_config.

(** Three agents of which the second fails: it cannot be loaded. *)
Definition three_agents : list agent_config :=
  [market_research; publisher; keyword_analyzer].

(** A first run of a new orchestrator on the test input, and the world
    after it once [agents_config] is set to two agents that fail. *)
Definition after_first_run : World Orchestrator :=
  (run_pipeline _load_agent micros "run-1" test_input
     (world_at 0 new_orchestrator)).2.

Definition before_second_run : World Orchestrator :=
  update_self (set_agents_config [publisher; quality_check]) after_first_run.

End Pipeline.
(* ================================================================== *)
(** ** Properties of the scorer *)
(* ================================================================== *)

Module ScorerFacts.
Import Scorer.
Local Open Scope R_scope.

Lemma bench_high_volume : benchmarks !!! "high_volume" = 100000.
Proof. reflexivity. Qed.
Lemma bench_high_cpc : benchmarks !!! "high_cpc" = 10.0.
Proof. reflexivity. Qed.
Lemma bench_medium_cpc : benchmarks !!! "medium_cpc" = 2.0.
Proof. reflexivity. Qed.
Lemma bench_low_cpc : benchmarks !!! "low_cpc" = 0.5.
Proof. reflexivity. Qed.

Lemma ln_10_pos : 0 < ln 10.
Proof. rewrite <- ln_1. apply ln_increasing; lra. Qed.

Lemma log10_pow10 (n : nat) : log10 (10 ^ n) = INR n.
Proof.
  unfold log10. rewrite ln_pow by lra. field.
  pose proof ln_10_pos; lra.
Qed.

Lemma log10_high_volume : log10 100000 = 5.
Proof.
  replace 100000 with (10 ^ 5) by lra.
  rewrite log10_pow10. simpl. lra.
Qed.

Lemma log10_nonneg (x : R) : 1 <= x -> 0 <= log10 x.
Proof.
  intros Hx. unfold log10. pose proof ln_10_pos.
  apply Rmult_le_pos; [| left; now apply Rinv_0_lt_compat].
  destruct Hx as [Hx | <-]; [| rewrite ln_1; lra].
  left. rewrite <- ln_1. apply ln_increasing; lra.
Qed.

(** Bounds on a logarithm from a comparison of integer powers:
    [10^p < x^q] gives [p < q * log10 x], and the other way round. *)
Lemma ln_IZR_pow (x q : Z) :
  (0 < x)%Z -> (0 <= q)%Z -> ln (IZR (x ^ q)) = IZR q * ln (IZR x).
Proof.
  intros Hx Hq.
  rewrite <- (Z2Nat.id q) at 1 by done.
  rewrite <- pow_IZR, ln_pow by now apply IZR_lt.
  now rewrite INR_IZR_INZ, Z2Nat.id.
Qed.

Lemma log10_lower (x p q : Z) :
  (0 < x)%Z -> (0 <= p)%Z -> (0 <= q)%Z -> (10 ^ p < x ^ q)%Z ->
  IZR p < IZR q * log10 (IZR x).
Proof.
  intros Hx Hp Hq Hlt. pose proof ln_10_pos as H10.
  apply IZR_lt, ln_increasing in Hlt;
    [| apply IZR_lt, Z.pow_pos_nonneg; lia].
  rewrite !ln_IZR_pow in Hlt by lia.
  unfold log10.
  apply Rmult_lt_reg_r with (ln 10); [done |].
  replace (IZR q * (ln (IZR x) / ln 10) * ln 10) with (IZR q * ln (IZR x))
    by (field; lra).
  exact Hlt.
Qed.

Lemma log10_upper (x p q : Z) :
  (0 < x)%Z -> (0 <= p)%Z -> (0 <= q)%Z -> (x ^ q < 10 ^ p)%Z ->
  IZR q * log10 (IZR x) < IZR p.
Proof.
  intros Hx Hp Hq Hlt. pose proof ln_10_pos as H10.
  apply IZR_lt, ln_increasing in Hlt;
    [| apply IZR_lt, Z.pow_pos_nonneg; lia].
  rewrite !ln_IZR_pow in Hlt by lia.
  unfold log10.
  apply Rmult_lt_reg_r with (ln 10); [done |].
  replace (IZR q * (ln (IZR x) / ln 10) * ln 10) with (IZR q * ln (IZR x))
    by (field; lra).
  exact Hlt.
Qed.

Lemma log10_50000_bounds : 4.698 < log10 50000 < 4.7.
Proof.
  split.
  - assert (H : IZR 2349 < IZR 500 * log10 (IZR 50000)).
    { apply log10_lower; [lia | lia | lia |].
      apply Z.ltb_lt. vm_compute. reflexivity. }
    lra.
  - assert (H : IZR 100 * log10 (IZR 50000) < IZR 470).
    { apply log10_upper; [lia | lia | lia |].
      apply Z.ltb_lt. vm_compute. reflexivity. }
    lra.
Qed.

Lemma weight_search_volume : WEIGHTS !!! "search_volume" = 0.40.
Proof. reflexivity. Qed.
Lemma weight_keyword_difficulty : WEIGHTS !!! "keyword_difficulty" = 0.30.
Proof. reflexivity. Qed.
Lemma weight_cpc : WEIGHTS !!! "cpc" = 0.20.
Proof. reflexivity. Qed.
Lemma weight_trend : WEIGHTS !!! "trend" = 0.10.
Proof. reflexivity. Qed.

(** *** Floats *)

(** Case analysis on the comparisons of a goal. *)
Ltac float_cases :=
  repeat case_decide;
  unfold float_gt, float_ge in *; simpl in *;
  try done; try lra.

Lemma float_le_refl (a : float) : a <> NaN -> float_le a a.
Proof. destruct a as [x | [] |]; simpl; intros; auto; lra. Qed.

Lemma float_le_trans (a b c : float) :
  float_le a b -> float_le b c -> float_le a c.
Proof.
  destruct a as [x | [] |], b as [y | [] |], c as [z | [] |]; simpl;
    intros; try done; try lra; try tauto; intuition discriminate.
Qed.

Lemma float_le_total (a b : float) :
  a <> NaN -> b <> NaN -> ~ float_le a b -> float_le b a.
Proof.
  destruct a as [x | [] |], b as [y | [] |]; simpl; intros; try done;
    try lra; try tauto; auto.
Qed.

Lemma float_le_not_nan (a b : float) : float_le a b -> a <> NaN /\ b <> NaN.
Proof. destruct a as [x | [] |], b as [y | [] |]; simpl; intros; done. Qed.

Lemma float_of_int_ok (z : Z) :
  (Z.abs z < float_limit)%Z -> float_of_int z = Ok (Fin (IZR z)).
Proof.
  intros H. unfold float_of_int. now apply Z.ltb_lt in H as ->.
Qed.

Lemma float_of_int_overflow (z : Z) :
  (float_limit <= Z.abs z)%Z -> float_of_int z = Raise OverflowError.
Proof.
  intros H. unfold float_of_int.
  destruct (Z.ltb_spec (Z.abs z) float_limit); [lia | reflexivity].
Qed.

Lemma clamp_0_100_cases (x : float) :
  clamp_0_100 x
  = match x with
    | Fin r => Fin (Rmax 0 (Rmin 100 r))
    | Inf true => Fin 0
    | _ => Fin 100
    end.
Proof.
  unfold clamp_0_100, py_max, py_min.
  destruct x as [r | [] |]; float_cases;
    unfold Rmax, Rmin; repeat destruct (Rle_dec _ _); f_equal; lra.
Qed.

Lemma clamp_0_100_range (x : float) :
  exists y, clamp_0_100 x = Fin y /\ 0 <= y <= 100.
Proof.
  rewrite clamp_0_100_cases. destruct x as [r | [] |].
  - eexists. split; [reflexivity |].
    unfold Rmax, Rmin. repeat destruct (Rle_dec _ _); lra.
  - exists 0. split; [reflexivity | lra].
  - exists 100. split; [reflexivity | lra].
  - exists 100. split; [reflexivity | lra].
Qed.

Lemma clamp_0_100_id (r : R) : 0 <= r <= 100 -> clamp_0_100 (Fin r) = Fin r.
Proof.
  intros Hr. rewrite clamp_0_100_cases. f_equal.
  unfold Rmax, Rmin. repeat destruct (Rle_dec _ _); lra.
Qed.

(** *** The normalisers *)

Lemma normalize_keyword_difficulty_cases (difficulty : float) :
  normalize_keyword_difficulty difficulty
  = match difficulty with
    | Fin d => Fin (if Rlt_dec d 0 then 100
                    else if Rgt_dec d 100 then 0 else 100 - d)
    | Inf true => Fin 100
    | Inf false => Fin 0
    | NaN => NaN
    end.
Proof.
  unfold normalize_keyword_difficulty.
  destruct difficulty as [d | [] |]; float_cases;
    try (f_equal; lra);
    destruct (Rlt_dec d 0); try lra;
    destruct (Rgt_dec d 100); try lra; f_equal; lra.
Qed.

Lemma normalize_cpc_cases (cpc : float) :
  normalize_cpc cpc
  = match cpc with
    | Fin c => Fin (if Rle_dec c 0 then 0
                    else if Rge_dec c 10 then 100
                    else if Rge_dec c 2 then 60 + (c - 2) / 8 * 40
                    else if Rge_dec c 0.5 then 20 + (c - 0.5) / 1.5 * 40
                    else c / 0.5 * 20)
    | Inf true => Fin 0
    | Inf false => Fin 100
    | NaN => NaN
    end.
Proof.
  unfold normalize_cpc.
  rewrite bench_high_cpc, bench_medium_cpc, bench_low_cpc.
  destruct cpc as [c | [] |]; float_cases;
    try (f_equal; lra);
    destruct (Rle_dec c 0); try lra;
    destruct (Rge_dec c 10); try lra;
    destruct (Rge_dec c 2); try lra;
    destruct (Rge_dec c 0.5); try lra; f_equal; lra.
Qed.

Lemma volume_score_50000 : 93.96 < normalize_search_volume 50000 < 94.
Proof.
  unfold normalize_search_volume.
  change (50000 <=? 0)%Z with false. change (Z.max 50000 1) with 50000%Z.
  cbv zeta. rewrite bench_high_volume, log10_high_volume.
  pose proof log10_50000_bounds as Hb.
  rewrite Rmin_left by lra. lra.
Qed.

Lemma difficulty_score_75 : normalize_keyword_difficulty (Fin 75) = Fin 25.
Proof.
  rewrite normalize_keyword_difficulty_cases. f_equal.
  destruct (Rlt_dec 75 0); [lra |]. destruct (Rgt_dec 75 100); lra.
Qed.

Lemma cpc_score_3_5 : normalize_cpc (Fin 3.5) = Fin 67.5.
Proof.
  rewrite normalize_cpc_cases. f_equal.
  destruct (Rle_dec 3.5 0); [lra |].
  destruct (Rge_dec 3.5 10); [lra |].
  destruct (Rge_dec 3.5 2); lra.
Qed.

Lemma trend_score_80 fs :
  calculate_trend_score fs (PyInt 80) = Ok (Float (Fin 80)).
Proof.
  unfold calculate_trend_score, py_float.
  rewrite float_of_int_ok by reflexivity. cbn [mbind result_bind].
  rewrite clamp_0_100_id by lra. reflexivity.
Qed.

Lemma _calculate_grade_unfold (t : float) :
  _calculate_grade t
  = if decide (float_ge t (Fin 90)) then "A+"
    else if decide (float_ge t (Fin 80)) then "A"
    else if decide (float_ge t (Fin 70)) then "B+"
    else if decide (float_ge t (Fin 60)) then "B"
    else if decide (float_ge t (Fin 50)) then "C+"
    else if decide (float_ge t (Fin 40)) then "C"
    else "D".
Proof.
  unfold _calculate_grade, GRADE_THRESHOLDS. cbn [_calculate_grade_from].
  repeat case_decide; try reflexivity.
Qed.

Lemma grade_B (t : R) : 60 <= t < 70 -> _calculate_grade (Fin t) = "B".
Proof. intros Ht. rewrite _calculate_grade_unfold. float_cases. Qed.

Lemma normalize_search_volume_range (volume : Z) :
  0 <= normalize_search_volume volume <= 100.
Proof.
  unfold normalize_search_volume.
  destruct (Z.leb_spec volume 0) as [Hle | Hgt]; [lra |].
  cbv zeta. rewrite bench_high_volume, log10_high_volume.
  rewrite Z.max_l by lia.
  assert (H1 : 1 <= IZR volume) by (apply IZR_le; lia).
  apply log10_nonneg in H1.
  split; [apply Rmin_glb; lra |].
  etransitivity; [apply Rmin_r | lra].
Qed.

Lemma normalize_keyword_difficulty_range (difficulty : float) :
  difficulty <> NaN ->
  exists y,
    normalize_keyword_difficulty difficulty = Fin y /\ 0 <= y <= 100.
Proof.
  intros Hd. rewrite normalize_keyword_difficulty_cases.
  destruct difficulty as [d | [] |]; [| | | done].
  - eexists. split; [reflexivity |].
    destruct (Rlt_dec d 0); [lra |]. destruct (Rgt_dec d 100); lra.
  - exists 100. split; [reflexivity | lra].
  - exists 0. split; [reflexivity | lra].
Qed.

Lemma normalize_cpc_range (cpc : float) :
  cpc <> NaN -> exists y, normalize_cpc cpc = Fin y /\ 0 <= y <= 100.
Proof.
  intros Hc. rewrite normalize_cpc_cases.
  destruct cpc as [c | [] |]; [| | | done].
  - eexists. split; [reflexivity |].
    destruct (Rle_dec c 0); [lra |].
    destruct (Rge_dec c 10); [lra |].
    destruct (Rge_dec c 2); [lra |].
    destruct (Rge_dec c 0.5); lra.
  - exists 0. split; [reflexivity | lra].
  - exists 100. split; [reflexivity | lra].
Qed.

(** *** The trend *)

Lemma trend_score_scalar fs v :
  is_number v ->
  calculate_trend_score fs v
  = match py_float fs v with
    | Ok x => Ok (Float (clamp_0_100 x))
    | Raise e => Raise e
    end.
Proof. destruct v; simpl; try done; intros _; now destruct (float_of_int z). Qed.








(** What a successful call of [calculate_keyword_score] returns. *)
Lemma calculate_keyword_score_ok fs m s :
  calculate_keyword_score fs m = Ok s ->
  exists t w,
    calculate_trend_score fs (trend_score m) = Ok t
    /\ number_times t (Fin 0.10) = Ok w
    /\ component_scores s !! "search_volume"
       = Some (Fin (normalize_search_volume (search_volume m)))
    /\ component_scores s !! "keyword_difficulty"
       = Some (normalize_keyword_difficulty (keyword_difficulty m))
    /\ component_scores s !! "cpc" = Some (normalize_cpc (cpc m))
    /\ component_scores s !! "trend" = Some (number_value t)
    /\ total_score s
       = float_add
           (float_add
              (float_add
                 (float_mul (Fin (normalize_search_volume (search_volume m)))
                    (Fin 0.40))
                 (float_mul
                    (normalize_keyword_difficulty (keyword_difficulty m))
                    (Fin 0.30)))
              (float_mul (normalize_cpc (cpc m)) (Fin 0.20)))
           w
    /\ grade s = _calculate_grade (total_score s).
Proof.
  unfold calculate_keyword_score.
  rewrite weight_search_volume, weight_keyword_difficulty, weight_cpc,
    weight_trend.
  destruct (calculate_trend_score fs (trend_score m)) as [t | e];
    cbn [mbind result_bind]; [| discriminate].
  destruct (number_times t (Fin 0.10)) as [w | e] eqn:Hw;
    cbn [mbind result_bind]; [| discriminate].
  intros [= <-]. exists t, w. cbn [component_scores total_score grade].
  repeat split; try reflexivity. exact Hw.
Qed.

(** A keyword whose trend is a number that has a float is scored, with
    the clamped trend. *)
Lemma calculate_keyword_score_number fs m x :
  is_number (trend_score m) ->
  py_float fs (trend_score m) = Ok x ->
  exists s t,
    calculate_keyword_score fs m = Ok s
    /\ clamp_0_100 x = Fin t /\ 0 <= t <= 100
    /\ component_scores s !! "trend" = Some (Fin t)
    /\ total_score s
       = float_add
           (float_add
              (float_add
                 (Fin (normalize_search_volume (search_volume m) * 0.40))
                 (float_mul
                    (normalize_keyword_difficulty (keyword_difficulty m))
                    (Fin 0.30)))
              (float_mul (normalize_cpc (cpc m)) (Fin 0.20)))
           (Fin (t * 0.10))
    /\ grade s = _calculate_grade (total_score s).
Proof.
  intros Hnum Hx.
  destruct (clamp_0_100_range x) as (t & Ht & Hrange).
  assert (Htrend : calculate_trend_score fs (trend_score m)
                   = Ok (Float (Fin t))).
  { rewrite trend_score_scalar, Hx, Ht by exact Hnum. reflexivity. }
  destruct (calculate_keyword_score fs m) as [s | e] eqn:Hs.
  - exists s, t. split; [reflexivity |].
    apply calculate_keyword_score_ok in Hs
      as (t' & w & Ht' & Hw & _ & _ & _ & Htr & Htot & Hg).
    rewrite Htrend in Ht'. injection Ht' as <-.
    cbn [number_times float_mul] in Hw. injection Hw as <-.
    repeat split; try done; lra.
  - unfold calculate_keyword_score in Hs. rewrite Htrend in Hs.
    discriminate Hs.
Qed.

(** C6, as the code computes it: for volume 50000, difficulty 75,
    cpc 3.5 and trend 80 the component scores are about 93.98 (between
    93.96 and 94), exactly 25, exactly 67.5 and exactly 80; the total is
    their weighted sum with weights 0.4, 0.3, 0.2, 0.1, about 66.59
    (between 66.58 and 66.6); the grade is "B". *)
Theorem example_scenario_scores (fs : string -> result float) :
  exists s v,
    calculate_keyword_score fs example_metrics = Ok s
    /\ component_scores s !! "search_volume" = Some (Fin v)
    /\ 93.96 < v < 94
    /\ component_scores s !! "keyword_difficulty" = Some (Fin 25)
    /\ component_scores s !! "cpc" = Some (Fin 67.5)
    /\ component_scores s !! "trend" = Some (Fin 80)
    /\ total_score s = Fin (v * 0.4 + 25 * 0.3 + 67.5 * 0.2 + 80 * 0.1)
    /\ float_lt (Fin 66.58) (total_score s)
    /\ float_lt (total_score s) (Fin 66.6)
    /\ grade s = "B".
Proof.
  pose proof volume_score_50000 as Hv.
  unfold calculate_keyword_score, example_metrics, create_sample_metrics.
  cbn [trend_score search_volume keyword_difficulty cpc keyword].
  rewrite trend_score_80. cbn [mbind result_bind number_times].
  rewrite difficulty_score_75, cpc_score_3_5.
  rewrite weight_search_volume, weight_keyword_difficulty, weight_cpc,
    weight_trend.
  cbn [float_add float_mul number_value].
  eexists _, (normalize_search_volume 50000).
  split; [reflexivity |]. cbn [component_scores total_score grade].
  split; [reflexivity |]. split; [exact Hv |].
  split; [reflexivity |]. split; [reflexivity |]. split; [reflexivity |].
  split; [f_equal; lra |]. split; [simpl; lra |]. split; [simpl; lra |].
  apply grade_B. lra.
Qed.

(** C6 as the specification words it: a cpc score near 73.3 and a total
    near 59.6, even read with a tolerance of half a unit, are not what the
    scorer returns. *)
Lemma example_scenario_not_as_quoted :
  ~ (exists fs s c t,
       calculate_keyword_score fs example_metrics = Ok s
       /\ component_scores s !! "cpc" = Some (Fin c)
       /\ Rabs (c - 73.3) <= 0.5
       /\ total_score s = Fin t
       /\ Rabs (t - 59.6) <= 0.5
       /\ grade s = "B").
Proof.
  intros (fs & s & c & t & Hs & Hc & Hc' & _).
  apply calculate_keyword_score_ok in Hs
    as (t' & w & _ & _ & _ & _ & Hcpc & _).
  rewrite Hcpc in Hc.
  change (cpc example_metrics) with (Fin 3.5) in Hc.
  rewrite cpc_score_3_5 in Hc. injection Hc as <-.
  revert Hc'. unfold Rabs. destruct (Rcase_abs _); lra.
Qed.




(** *** The order of a batch *)

Lemma insert_desc_perm x l : Permutation (insert_desc x l) (x :: l).
Proof.
  induction l as [| y l IH]; simpl; [reflexivity |].
  case_decide; [reflexivity |].
  rewrite IH. apply perm_swap.
Qed.

Lemma insert_desc_sorted x l :
  total_score x <> NaN ->
  Forall (fun s => total_score s <> NaN) l ->
  StronglySorted score_ge l -> StronglySorted score_ge (insert_desc x l).
Proof.
  intros Hx Hnan.
  induction 1 as [| y l Hl IH Hy]; simpl.
  - repeat constructor.
  - apply Forall_cons in Hnan as [Hy' Hnan].
    case_decide as Hge.
    + constructor; [now constructor |].
      constructor; [exact Hge |].
      eapply Forall_impl; [exact Hy |].
      intros z Hz. unfold score_ge, float_ge in *.
      eapply float_le_trans; eassumption.
    + constructor; [now apply IH |].
      apply (Permutation_Forall (Permutation_sym (insert_desc_perm x l))).
      constructor; [| exact Hy].
      unfold score_ge, float_ge in *. now apply float_le_total.
Qed.

Lemma sort_desc_perm l : Permutation (sort_desc l) l.
Proof.
  induction l as [| x l IH]; simpl; [reflexivity |].
  rewrite insert_desc_perm. now constructor.
Qed.

Lemma sort_desc_sorted l :
  Forall (fun s => total_score s <> NaN) l ->
  StronglySorted score_ge (sort_desc l).
Proof.
  induction 1 as [| x l Hx Hl IH]; simpl; [constructor |].
  apply insert_desc_sorted; [exact Hx | | exact IH].
  now apply (Permutation_Forall (Permutation_sym (sort_desc_perm l))).
Qed.

Lemma no_nan_forallb (l : list KeywordScore) :
  forallb (fun score => negb (is_nan (total_score score))) l = true
  <-> Forall (fun s => total_score s <> NaN) l.
Proof.
  induction l as [| s l IH]; simpl.
  - split; [constructor | reflexivity].
  - rewrite andb_true_iff, Forall_cons, IH.
    destruct (total_score s); simpl; intuition congruence.
Qed.

Lemma sort_by_total_reversed_ordered sort l :
  Forall (fun s => total_score s <> NaN) l ->
  sort_by_total_reversed sort l = sort_desc l.
Proof.
  intros H. unfold sort_by_total_reversed.
  now apply no_nan_forallb in H as ->.
Qed.

Lemma sort_by_total_reversed_perm sort l :
  (forall scores, Permutation (sort scores) scores) ->
  Permutation (sort_by_total_reversed sort l) l.
Proof.
  intros H. unfold sort_by_total_reversed.
  destruct (forallb _ l); [apply sort_desc_perm | apply H].
Qed.

(** The loop never raises: a failing item leaves [scores] as it was. *)
Lemma score_loop_ok fs l scores :
  score_loop fs l scores = Ok (scores ++ scored_ok fs l).
Proof.
  revert scores. induction l as [| m l IH]; intros scores; simpl.
  - now rewrite app_nil_r.
  - unfold scored_ok. cbn [mbind list_bind].
    destruct (calculate_keyword_score fs m) as [s | e];
      cbn [mbind result_bind try_except].
    + rewrite IH. unfold scored_ok. now rewrite <- app_assoc.
    + rewrite IH. reflexivity.
Qed.

Lemma scored_ok_cons fs m l :
  scored_ok fs (m :: l)
  = match calculate_keyword_score fs m with
    | Ok s => [s]
    | Raise _ => []
    end ++ scored_ok fs l.
Proof. reflexivity. Qed.

Lemma scored_ok_nil fs : scored_ok fs [] = [].
Proof. reflexivity. Qed.

Lemma score_keyword_list_ok fs sort l :
  score_keyword_list fs sort l
  = Ok (sort_by_total_reversed sort (scored_ok fs l)).
Proof.
  unfold score_keyword_list. rewrite score_loop_ok. reflexivity.
Qed.

(** A keyword whose trend cannot be scored is not scored at all: the
    exception of [calculate_trend_score] leaves [calculate_keyword_score]. *)
Lemma calculate_keyword_score_raises fs m e :
  calculate_trend_score fs (trend_score m) = Raise e ->
  calculate_keyword_score fs m = Raise e.
Proof. unfold calculate_keyword_score. now intros ->. Qed.

(** The total is [nan] exactly when a component is. *)
Lemma total_score_nan fs m s :
  calculate_keyword_score fs m = Ok s ->
  total_score s = NaN
  <-> keyword_difficulty m = NaN \/ cpc m = NaN
      \/ component_scores s !! "trend" = Some NaN.
Proof.
  intros Hs.
  apply calculate_keyword_score_ok in Hs
    as (t & w & _ & Hw & _ & _ & _ & Htr & -> & _).
  rewrite Htr. clear Htr.
  rewrite normalize_keyword_difficulty_cases, normalize_cpc_cases.
  assert (Hwt : w = NaN <-> number_value t = NaN).
  { destruct t as [z | [x | n |]]; cbn [number_times] in Hw.
    - unfold float_of_int in Hw.
      destruct (Z.abs z <? float_limit)%Z; cbn [mbind result_bind] in Hw;
        [| discriminate]. injection Hw as <-. done.
    - injection Hw as <-. done.
    - injection Hw as <-. simpl.
      destruct (Rlt_dec 0 0.10); [done | lra].
    - injection Hw as <-. done. }
  destruct (keyword_difficulty m) as [d | [] |], (cpc m) as [c | [] |];
    cbn [float_add float_mul];
    destruct w as [w' | n |]; cbn [float_add];
    split; intros H; try discriminate H; auto;
    try (destruct H as [H | [H | H]]; try discriminate H;
         injection H as H; apply Hwt in H; discriminate H);
    try (do 2 right; f_equal; now apply Hwt).
Qed.

Lemma nan_metrics_total fs :
  exists s,
    calculate_keyword_score fs nan_metrics = Ok s /\ total_score s = NaN.
Proof.
  destruct (calculate_keyword_score_number fs nan_metrics (Fin 50))
    as (s & t & Hs & _ & _ & _ & Htot & _); [exact I | |].
  { simpl. now rewrite float_of_int_ok. }
  exists s. split; [exact Hs |]. rewrite Htot. reflexivity.
Qed.

Lemma example_metrics_scored fs :
  exists s, calculate_keyword_score fs example_metrics = Ok s.
Proof.
  destruct (calculate_keyword_score_number fs example_metrics (Fin 80))
    as (s & t & Hs & _); [exact I | | eauto].
  simpl. now rewrite float_of_int_ok.
Qed.

(** C9 as the specification words it fails: the difficulty [nan] gives
    the total [nan], which compares with no other total, so that the batch
    of this keyword and the example keyword is in descending order in
    neither arrangement. *)
Lemma batch_with_nan_not_sorted :
  ~ (exists fs sort scores,
       (forall l, Permutation (sort l) l)
       /\ score_keyword_list fs sort [nan_metrics; example_metrics]
          = Ok scores
       /\ StronglySorted score_ge scores).
Proof.
  intros (fs & sort & scores & Hperm & Hs & Hsorted).
  destruct (nan_metrics_total fs) as (s1 & Hs1 & Hnan).
  destruct (example_metrics_scored fs) as (s2 & Hs2).
  rewrite score_keyword_list_ok, !scored_ok_cons, scored_ok_nil, Hs1, Hs2
    in Hs.
  simpl app in Hs. injection Hs as <-.
  pose proof (sort_by_total_reversed_perm sort [s1; s2] Hperm) as Hp.
  assert (Hin1 : s1 ∈ sort_by_total_reversed sort [s1; s2])
    by (rewrite Hp; left).
  assert (Hlen : length (sort_by_total_reversed sort [s1; s2]) = 2%nat)
    by now rewrite Hp.
  destruct (sort_by_total_reversed sort [s1; s2]) as [| a [| b [| c l]]];
    try discriminate Hlen.
  apply StronglySorted_inv in Hsorted as [_ Hab].
  apply Forall_cons in Hab as [Hab _]. unfold score_ge, float_ge in Hab.
  apply float_le_not_nan in Hab as [Hb Ha].
  assert (Hin2 : s1 = a \/ s1 = b).
  { apply elem_of_cons in Hin1 as [-> | Hin1]; [now left |].
    apply list_elem_of_singleton in Hin1. now right. }
  destruct Hin2 as [<- | <-]; congruence.
Qed.

(** So a batch of a good and a bad keyword has the one score. *)
Lemma bad_keyword_skipped fs :
  let bad := create_sample_metrics "broken" 100 (Fin 50) (Fin 1)
               (PyDict {[ "score" := PyNone ]}) 0 in
  exists s,
    calculate_keyword_score fs example_metrics = Ok s
    /\ scored_ok fs [example_metrics; bad] = [s].
Proof.
  cbv zeta. destruct (example_metrics_scored fs) as (s & Hs).
  exists s. split; [exact Hs |].
  rewrite !scored_ok_cons, scored_ok_nil, Hs.
  rewrite calculate_keyword_score_raises with (e := TypeError)
    by reflexivity.
  reflexivity.
Qed.

(** C9, as the code has it: batch scoring always returns a list, which
    holds exactly the scores of the keywords that could be scored, so that
    a keyword whose scoring raises is the only one left out.  When no
    total is [nan] the list is in descending order of [total_score]; a
    total is [nan] exactly when the difficulty, the cpc or the trend score
    of its keyword is. *)
Theorem score_keyword_list_sorted_skipping (fs : string -> result float)
    (sort : list KeywordScore -> list KeywordScore)
    (keywords_metrics : list KeywordMetrics) :
  (forall scores, Permutation (sort scores) scores) ->
  exists scores,
    score_keyword_list fs sort keywords_metrics = Ok scores
    /\ Permutation scores (scored_ok fs keywords_metrics)
    /\ (Forall (fun s => total_score s <> NaN)
          (scored_ok fs keywords_metrics) ->
        StronglySorted score_ge scores)
    /\ (forall m s,
          calculate_keyword_score fs m = Ok s ->
          total_score s = NaN
          <-> keyword_difficulty m = NaN \/ cpc m = NaN
              \/ component_scores s !! "trend" = Some NaN).
Proof.
  intros Hperm. rewrite score_keyword_list_ok.
  eexists. split; [reflexivity |].
  split; [now apply sort_by_total_reversed_perm |].
  split; [| apply total_score_nan].
  intros Hnan. rewrite sort_by_total_reversed_ordered by exact Hnan.
  now apply sort_desc_sorted.
Qed.

(** The theorem at work: of the example keyword and one whose trend is
    the mapping with the score [None], the batch holds the score of the
    first alone. *)
Lemma score_keyword_list_sorted_skipping_witness :
  exists s,
    calculate_keyword_score (fun _ => Raise ValueError) example_metrics
    = Ok s
    /\ score_keyword_list (fun _ => Raise ValueError) sort_desc
         [example_metrics;
          create_sample_metrics "broken" 100 (Fin 50) (Fin 1)
            (PyDict {[ "score" := PyNone ]}) 0]
       = Ok [s].
Proof.
  destruct (bad_keyword_skipped (fun _ => Raise ValueError))
    as (s & Hs & Hbatch).
  destruct (score_keyword_list_sorted_skipping (fun _ => Raise ValueError)
              sort_desc
              [example_metrics;
               create_sample_metrics "broken" 100 (Fin 50) (Fin 1)
                 (PyDict {[ "score" := PyNone ]}) 0] sort_desc_perm)
    as (scores & Hscores & Hp & _).
  exists s. split; [exact Hs |].
  rewrite Hscores. f_equal. rewrite Hbatch in Hp.
  now apply Permutation_singleton_r in Hp.
Defined.

End ScorerFacts.

(* ================================================================== *)
(** ** More properties of the scorer *)
(* ================================================================== *)

Module ScorerMore.
Import Scorer ScorerFacts.
Local Open Scope R_scope.

Lemma log10_monotone (x y : R) : 0 < x -> x <= y -> log10 x <= log10 y.
Proof.
  intros Hx [Hlt | <-]; [| lra].
  unfold log10. pose proof ln_10_pos.
  apply Rmult_le_compat_r; [left; now apply Rinv_0_lt_compat |].
  left. now apply ln_increasing.
Qed.

Lemma log10_1 : log10 1 = 0.
Proof. unfold log10. rewrite ln_1. lra. Qed.

Lemma log10_positive (x : R) : 1 < x -> 0 < log10 x.
Proof.
  intros Hx. unfold log10. pose proof ln_10_pos.
  apply Rmult_lt_0_compat; [| now apply Rinv_0_lt_compat].
  rewrite <- ln_1. apply ln_increasing; lra.
Qed.

Lemma log10_below_5 (x : R) : 0 < x -> x < 100000 -> log10 x < 5.
Proof.
  intros Hx Hlt. rewrite <- log10_high_volume.
  unfold log10. pose proof ln_10_pos.
  apply Rmult_lt_compat_r; [now apply Rinv_0_lt_compat |].
  now apply ln_increasing.
Qed.

Lemma normalize_search_volume_positive (volume : Z) :
  (0 < volume)%Z ->
  normalize_search_volume volume
  = Rmin (log10 (IZR volume) / 5 * 100) 100.
Proof.
  intros Hv. unfold normalize_search_volume.
  destruct (Z.leb_spec volume 0); [lia |].
  cbv zeta. rewrite bench_high_volume, log10_high_volume, Z.max_l by lia.
  f_equal. lra.
Qed.

Lemma normalize_search_volume_cases (v1 v2 : Z) :
  ((v1 <= 1)%Z -> normalize_search_volume v1 = 0)
  /\ ((100000 <= v1)%Z -> normalize_search_volume v1 = 100)
  /\ ((1 < v1 < 100000)%Z -> 0 < normalize_search_volume v1 < 100)
  /\ ((v1 <= v2)%Z ->
      normalize_search_volume v1 <= normalize_search_volume v2).
Proof.
  split; [| split; [| split]].
  - intros Hv. destruct (Z.eq_dec v1 1%Z) as [-> | Hne].
    + rewrite normalize_search_volume_positive by lia.
      rewrite log10_1, Rmin_left; lra.
    + unfold normalize_search_volume.
      destruct (Z.leb_spec v1 0); [lra | lia].
  - intros Hv. rewrite normalize_search_volume_positive by lia.
    assert (H : log10 100000 <= log10 (IZR v1)).
    { apply log10_monotone; [lra |]. now apply IZR_le. }
    rewrite log10_high_volume in H. rewrite Rmin_right; lra.
  - intros [Hlo Hhi]. rewrite normalize_search_volume_positive by lia.
    assert (H1 : 0 < log10 (IZR v1))
      by (apply log10_positive; now apply IZR_lt).
    assert (H2 : log10 (IZR v1) < 5).
    { apply log10_below_5; [apply IZR_lt; lia | now apply IZR_lt]. }
    rewrite Rmin_left; lra.
  - intros Hle. destruct (Z.leb_spec v1 0) as [Hneg | Hpos].
    + unfold normalize_search_volume at 1.
      destruct (Z.leb_spec v1 0); [| lia].
      pose proof (normalize_search_volume_range v2). lra.
    + rewrite !normalize_search_volume_positive by lia.
      apply Rle_min_compat_r.
      assert (H : log10 (IZR v1) <= log10 (IZR v2)).
      { apply log10_monotone; [apply IZR_lt; lia | now apply IZR_le]. }
      lra.
Qed.

Lemma normalize_search_volume_monotone (v1 v2 : Z) :
  (v1 <= v2)%Z -> normalize_search_volume v1 <= normalize_search_volume v2.
Proof. apply normalize_search_volume_cases. Qed.

(** X1: the volume score is 0 up to a volume of 1 and 100 from the
    benchmark of 100000 on, lies strictly between for the volumes between,
    and never falls when the volume rises. *)
Theorem search_volume_saturates (v1 v2 : Z) :
  ((v1 <= 1)%Z -> normalize_search_volume v1 = 0)
  /\ ((100000 <= v1)%Z -> normalize_search_volume v1 = 100)
  /\ ((1 < v1 < 100000)%Z -> 0 < normalize_search_volume v1 < 100)
  /\ ((v1 <= v2)%Z ->
      normalize_search_volume v1 <= normalize_search_volume v2).
Proof. exact (normalize_search_volume_cases v1 v2). Qed.

Lemma search_volume_saturates_witness :
  normalize_search_volume 1 = 0
  /\ normalize_search_volume 250000 = 100
  /\ normalize_search_volume 300 <= normalize_search_volume 5000.
Proof.
  destruct (search_volume_saturates 1 1) as (H0 & _).
  destruct (search_volume_saturates 250000 250000) as (_ & H100 & _).
  destruct (search_volume_saturates 300 5000) as (_ & _ & _ & Hm).
  split; [apply H0; lia |]. split; [apply H100; lia | apply Hm; lia].
Defined.

Lemma normalize_cpc_monotone (c1 c2 : float) :
  float_le c1 c2 -> float_le (normalize_cpc c1) (normalize_cpc c2).
Proof.
  rewrite !normalize_cpc_cases.
  destruct c1 as [x1 | [] |], c2 as [x2 | [] |]; simpl; try done;
    intros H;
    repeat (destruct (Rle_dec _ _) || destruct (Rge_dec _ _)); lra.
Qed.

(** X2: the cpc score by bands: 0 for a cpc that is not positive, above 0
    and at most 20 under the low benchmark 0.5, from 20 to 60 from there
    to under the medium benchmark 2, from 60 to 100 from there to under
    the high benchmark 10, and 100 from there on, also for [inf]; it
    never falls when the cpc rises; and it is [nan] for [nan]. *)
Theorem cpc_bands (c1 c2 : float) (x : R) :
  (float_le c1 (Fin 0) -> normalize_cpc c1 = Fin 0)
  /\ (exists y,
        normalize_cpc (Fin x) = Fin y
        /\ (0 < x < 0.5 -> 0 < y <= 20)
        /\ (0.5 <= x < 2 -> 20 <= y <= 60)
        /\ (2 <= x < 10 -> 60 <= y <= 100))
  /\ (float_ge c1 (Fin 10) -> normalize_cpc c1 = Fin 100)
  /\ normalize_cpc NaN = NaN
  /\ (float_le c1 c2 -> float_le (normalize_cpc c1) (normalize_cpc c2)).
Proof.
  split; [| split; [| split; [| split]]].
  - rewrite normalize_cpc_cases. destruct c1 as [x1 | [] |]; simpl; try done.
    intros H. destruct (Rle_dec x1 0); [reflexivity | lra].
  - rewrite normalize_cpc_cases. eexists. split; [reflexivity |].
    repeat split; intros;
      repeat (destruct (Rle_dec _ _) || destruct (Rge_dec _ _)); lra.
  - unfold float_ge. rewrite normalize_cpc_cases.
    destruct c1 as [x1 | [] |]; simpl; try done.
    intros H. f_equal.
    repeat (destruct (Rle_dec _ _) || destruct (Rge_dec _ _)); lra.
  - now rewrite normalize_cpc_cases.
  - apply normalize_cpc_monotone.
Qed.

Lemma cpc_bands_witness :
  normalize_cpc (Inf true) = Fin 0
  /\ normalize_cpc (Inf false) = Fin 100
  /\ float_le (normalize_cpc (Fin 1)) (normalize_cpc (Fin 3)).
Proof.
  destruct (cpc_bands (Inf true) (Inf true) 0) as (Hlow & _).
  destruct (cpc_bands (Inf false) (Inf false) 0) as (_ & _ & Hhigh & _).
  destruct (cpc_bands (Fin 1) (Fin 3) 0) as (_ & _ & _ & _ & Hm).
  split; [apply Hlow; reflexivity |].
  split; [apply Hhigh; reflexivity |].
  apply Hm. simpl. lra.
Defined.

Lemma normalize_keyword_difficulty_antitone (d1 d2 : float) :
  float_le d1 d2 ->
  float_le (normalize_keyword_difficulty d2)
    (normalize_keyword_difficulty d1).
Proof.
  rewrite !normalize_keyword_difficulty_cases.
  destruct d1 as [x1 | [] |], d2 as [x2 | [] |]; simpl; try done;
    intros H;
    repeat (destruct (Rlt_dec _ _) || destruct (Rgt_dec _ _)); lra.
Qed.

Lemma plain_numbers_trend fs (m : KeywordMetrics) :
  plain_numbers m ->
  is_number (trend_score m) /\ exists x, py_float fs (trend_score m) = Ok x.
Proof.
  intros (_ & _ & Ht). destruct (trend_score m); try done; simpl.
  - eauto.
  - rewrite float_of_int_ok by exact Ht. eauto.
  - eauto.
Qed.

(** A keyword of plain numbers is scored, with four finite components. *)
Lemma calculate_keyword_score_plain fs m :
  plain_numbers m ->
  exists s d c t x,
    calculate_keyword_score fs m = Ok s
    /\ normalize_keyword_difficulty (keyword_difficulty m) = Fin d
    /\ 0 <= d <= 100
    /\ normalize_cpc (cpc m) = Fin c
    /\ 0 <= c <= 100
    /\ py_float fs (trend_score m) = Ok x
    /\ clamp_0_100 x = Fin t
    /\ 0 <= t <= 100
    /\ total_score s
       = Fin (normalize_search_volume (search_volume m) * 0.40
              + d * 0.30 + c * 0.20 + t * 0.10)
    /\ grade s = _calculate_grade (total_score s).
Proof.
  intros Hm. destruct (plain_numbers_trend fs m Hm) as (Hnum & x & Hx).
  destruct Hm as (Hd & Hc & _).
  destruct (normalize_keyword_difficulty_range _ Hd) as (d & Hd' & Hdr).
  destruct (normalize_cpc_range _ Hc) as (c & Hc' & Hcr).
  destruct (calculate_keyword_score_number fs m x Hnum Hx)
    as (s & t & Hs & Ht & Htr & _ & Htot & Hg).
  exists s, d, c, t, x. rewrite Hd', Hc' in Htot.
  repeat split; try done; lra.
Qed.

(** X3: a keyword of plain numbers (a difficulty and a cpc that are not
    [nan], and as trend a bool, a float or an int that has a float) is
    always scored, with a total between 0 and 100; and of two such
    keywords with the same trend, the one with no less volume, no more
    difficulty and no less cpc has no lower total. *)
Theorem total_score_range_and_order fs (m1 m2 : KeywordMetrics) :
  plain_numbers m1 -> plain_numbers m2 ->
  exists s1 s2 t1 t2,
    calculate_keyword_score fs m1 = Ok s1
    /\ calculate_keyword_score fs m2 = Ok s2
    /\ total_score s1 = Fin t1
    /\ total_score s2 = Fin t2
    /\ 0 <= t1 <= 100
    /\ ((search_volume m1 <= search_volume m2)%Z ->
        float_le (keyword_difficulty m2) (keyword_difficulty m1) ->
        float_le (cpc m1) (cpc m2) ->
        trend_score m1 = trend_score m2 ->
        t1 <= t2).
Proof.
  intros H1 H2.
  destruct (calculate_keyword_score_plain fs m1 H1)
    as (s1 & d1 & c1 & t1 & x1 & Hs1 & Hd1 & ? & Hc1 & ? & Hx1 & Ht1 & ?
        & Htot1 & _).
  destruct (calculate_keyword_score_plain fs m2 H2)
    as (s2 & d2 & c2 & t2 & x2 & Hs2 & Hd2 & ? & Hc2 & ? & Hx2 & Ht2 & ?
        & Htot2 & _).
  eexists s1, s2, _, _. split; [done |]. split; [done |].
  split; [exact Htot1 |]. split; [exact Htot2 |].
  pose proof (normalize_search_volume_range (search_volume m1)).
  split; [lra |].
  intros Hv Hd Hc Ht.
  pose proof (normalize_search_volume_monotone _ _ Hv).
  apply normalize_cpc_monotone in Hc. rewrite Hc1, Hc2 in Hc.
  apply normalize_keyword_difficulty_antitone in Hd.
  rewrite Hd1, Hd2 in Hd.
  rewrite Ht, Hx2 in Hx1. injection Hx1 as <-.
  rewrite Ht2 in Ht1. injection Ht1 as <-.
  simpl in Hc, Hd. lra.
Qed.

Lemma total_score_range_and_order_witness :
  exists s1 s2 t1 t2,
    calculate_keyword_score (fun _ => Raise ValueError) example_metrics = Ok s1
    /\ calculate_keyword_score (fun _ => Raise ValueError)
         (create_sample_metrics "wireless earbuds" 60000 (Fin 60) (Fin 4.2)
            (PyInt 80) 0)
       = Ok s2
    /\ total_score s1 = Fin t1
    /\ total_score s2 = Fin t2
    /\ 0 <= t1 <= 100
    /\ t1 <= t2.
Proof.
  destruct (total_score_range_and_order (fun _ => Raise ValueError)
              example_metrics
              (create_sample_metrics "wireless earbuds" 60000 (Fin 60)
                 (Fin 4.2) (PyInt 80) 0))
    as (s1 & s2 & t1 & t2 & H1 & H2 & Ht1 & Ht2 & Hr & Hm).
  - repeat split; done.
  - repeat split; done.
  - exists s1, s2, t1, t2. repeat split; try done; try apply Hr.
    apply Hm; simpl; [lia | lra | lra | reflexivity].
Defined.

(** *** Grades *)

(** The threshold of the grade of a score: the highest threshold the
    score reaches, and 0 for a negative score. *)
Lemma grade_threshold_of_score (t : float) :
  exists th,
    grade_threshold (_calculate_grade t) = Some th
    /\ (float_le (Fin 0) t -> float_le (Fin th) t)
    /\ forall g th',
         grade_threshold g = Some th' -> float_le (Fin th') t -> th' <= th.
Proof.
  rewrite _calculate_grade_unfold.
  assert (Hall : forall g th', grade_threshold g = Some th' ->
            th' = 90 \/ th' = 80 \/ th' = 70 \/ th' = 60 \/ th' = 50
            \/ th' = 40 \/ th' = 0).
  { intros g th'. unfold grade_threshold, GRADE_THRESHOLDS.
    cbn [threshold_in].
    repeat (destruct (String.eqb _ g); [intros [= <-]; auto 10 |]).
    discriminate. }
  assert (Hle : forall a b, float_le (Fin a) t -> ~ float_ge t (Fin b) ->
                           a < b).
  { intros a b Ha Hb. unfold float_ge in Hb.
    destruct t as [x | [] |]; simpl in *; try done; lra. }
  repeat (case_decide;
    [eexists; split; [reflexivity |]; split; [done |];
     intros g th' Hg Hth;
     repeat match goal with
            | H : ~ float_ge t (Fin _) |- _ =>
                apply (Hle _ _ Hth) in H
            end;
     destruct (Hall g th' Hg) as [?|[?|[?|[?|[?|[?|?]]]]]]; lra |]).
  eexists; split; [reflexivity |]. split; [done |].
  intros g th' Hg Hth;
     repeat match goal with
            | H : ~ float_ge t (Fin _) |- _ =>
                apply (Hle _ _ Hth) in H
            end;
     destruct (Hall g th' Hg) as [?|[?|[?|[?|[?|[?|?]]]]]]; lra.
Qed.

(** X4: the grade of a score is the band it falls in (A+ from 90, A
    from 80, B+ from 70, B from 60, C+ from 50, C from 40, D below, also
    for a negative score), and a higher score never gets a grade with a
    lower threshold. *)
Theorem grade_bands_and_order (t1 t2 : R) :
  (_calculate_grade (Fin t1) = "A+" <-> 90 <= t1)
  /\ (_calculate_grade (Fin t1) = "A" <-> 80 <= t1 < 90)
  /\ (_calculate_grade (Fin t1) = "B+" <-> 70 <= t1 < 80)
  /\ (_calculate_grade (Fin t1) = "B" <-> 60 <= t1 < 70)
  /\ (_calculate_grade (Fin t1) = "C+" <-> 50 <= t1 < 60)
  /\ (_calculate_grade (Fin t1) = "C" <-> 40 <= t1 < 50)
  /\ (_calculate_grade (Fin t1) = "D" <-> t1 < 40)
  /\ (t1 <= t2 ->
      exists th1 th2,
        grade_threshold (_calculate_grade (Fin t1)) = Some th1
        /\ grade_threshold (_calculate_grade (Fin t2)) = Some th2
        /\ th1 <= th2).
Proof.
  rewrite !_calculate_grade_unfold.
  repeat split; try (intros H);
    repeat case_decide; unfold float_ge in *; simpl in *;
    try lra; try discriminate; try reflexivity;
    try (eexists _, _; split; [reflexivity |]; split; [reflexivity |]; lra).
Qed.

Lemma grade_bands_and_order_witness :
  exists th1 th2,
    grade_threshold (_calculate_grade (Fin 45)) = Some th1
    /\ grade_threshold (_calculate_grade (Fin 85)) = Some th2
    /\ th1 <= th2.
Proof.
  destruct (grade_bands_and_order 45 85) as (_ & _ & _ & _ & _ & _ & _ & H).
  apply H. lra.
Defined.

(** *** The best keywords *)

Lemma threshold_in_None thresholds g :
  threshold_in thresholds g = None <-> g ∉ thresholds.*1.
Proof.
  induction thresholds as [| [g' th] rest IH]; simpl.
  - split; [intros _; apply not_elem_of_nil | done].
  - destruct (String.eqb_spec g' g) as [-> | Hne].
    + split; [discriminate |]. intros H. exfalso. apply H. left.
    + rewrite IH, not_elem_of_cons. simpl. split; [auto | tauto].
Qed.

Lemma StronglySorted_sublist {A} (R : A -> A -> Prop) (l1 l2 : list A) :
  l1 `sublist_of` l2 -> StronglySorted R l2 -> StronglySorted R l1.
Proof.
  induction 1 as [| x l1 l2 Hs IH | x l1 l2 Hs IH]; intros Hsorted.
  - constructor.
  - apply StronglySorted_inv in Hsorted as [Hl2 Hx].
    constructor; [auto |].
    apply Forall_forall. intros y Hy. rewrite Forall_forall in Hx.
    apply Hx. eapply elem_of_sublist; eauto.
  - apply StronglySorted_inv in Hsorted as [Hl2 _]. auto.
Qed.

Lemma StronglySorted_app_order {A} (R : A -> A -> Prop) (l1 l2 : list A) :
  StronglySorted R (l1 ++ l2) -> forall a b, a ∈ l1 -> b ∈ l2 -> R a b.
Proof.
  induction l1 as [| x l1 IH]; simpl; intros Hs a b Ha Hb.
  - inversion Ha.
  - apply StronglySorted_inv in Hs as [Hs Hx].
    apply elem_of_cons in Ha as [-> | Ha]; [| eauto].
    rewrite Forall_forall in Hx. apply Hx.
    apply elem_of_app. now right.
Qed.

Lemma get_top_keywords_Some scores count g th :
  grade_threshold g = Some th ->
  get_top_keywords scores count g
  = Some (slice_to count
            (filter (fun s => float_ge (total_score s) (Fin th)) scores)).
Proof. intros H. unfold get_top_keywords. rewrite H. reflexivity. Qed.

(** X5: for a known grade and a count that is not negative,
    [get_top_keywords] returns at most [count] scores, all at or above the
    threshold of the grade, in the order of the input; it drops no
    qualifying score when at most [count] qualify; and on a descending
    input the result is descending and every qualifying score left out
    is no better than any score returned. *)
Theorem get_top_keywords_contract (scores : list KeywordScore) (count : Z)
    (g : string) (th : R) :
  grade_threshold g = Some th ->
  (0 <= count)%Z ->
  exists top,
    get_top_keywords scores count g = Some top
    /\ (length top <= Z.to_nat count)%nat
    /\ Forall (fun s => float_ge (total_score s) (Fin th)) top
    /\ top `sublist_of` scores
    /\ ((length (filter (fun s => float_ge (total_score s) (Fin th)) scores)
         <= Z.to_nat count)%nat ->
        forall s, s ∈ scores -> float_ge (total_score s) (Fin th) -> s ∈ top)
    /\ (StronglySorted score_ge scores ->
        StronglySorted score_ge top
        /\ forall s best,
             s ∈ scores -> float_ge (total_score s) (Fin th) -> s ∉ top ->
             best ∈ top -> float_ge (total_score best) (total_score s)).
Proof.
  intros Hg Hc. rewrite (get_top_keywords_Some _ _ _ _ Hg).
  unfold slice_to. destruct (Z.leb_spec 0 count); [| lia].
  set (filtered := filter (fun s => float_ge (total_score s) (Fin th)) scores).
  eexists. split; [reflexivity |].
  assert (Hsub : take (Z.to_nat count) filtered `sublist_of` scores).
  { etransitivity; [apply sublist_take | apply sublist_filter]. }
  split; [apply firstn_le_length |].
  split.
  { apply Forall_forall. intros s Hs.
    apply (elem_of_sublist _ filtered) in Hs; [| apply sublist_take].
    now apply list_elem_of_filter in Hs as [Hs _]. }
  split; [exact Hsub |].
  split.
  { intros Hlen s Hs Hth. rewrite take_ge by exact Hlen.
    now apply list_elem_of_filter. }
  intros Hsorted.
  split; [now apply (StronglySorted_sublist _ _ _ Hsub) |].
  intros s best Hs Hth Hnot Hbest.
  assert (Hf : StronglySorted score_ge filtered).
  { apply (StronglySorted_sublist _ _ scores);
      [apply sublist_filter | exact Hsorted]. }
  rewrite <- (take_drop (Z.to_nat count) filtered) in Hf.
  apply (StronglySorted_app_order _ _ _ Hf best s Hbest).
  assert (Hin : s ∈ filtered) by now apply list_elem_of_filter.
  rewrite <- (take_drop (Z.to_nat count) filtered) in Hin.
  apply elem_of_app in Hin as [Hin | Hin]; [done | exact Hin].
Qed.

(** X6: the edges of [get_top_keywords]: a [min_grade] that is no key of
    the threshold table raises ([KeyError]); a count of 0 gives the empty
    list; a negative count gives the qualifying scores without the last
    [-count] of them, in the order of the input, which is the empty list
    when no more than [-count] scores qualify. *)
Theorem get_top_keywords_edges (scores : list KeywordScore) (count : Z)
    (g : string) (th : R) :
  (g ∉ GRADE_THRESHOLDS.*1 -> get_top_keywords scores count g = None)
  /\ (grade_threshold g = Some th ->
      get_top_keywords scores 0 g = Some []
      /\ ((count < 0)%Z ->
          let qualifying :=
            filter (fun s => float_ge (total_score s) (Fin th)) scores in
          get_top_keywords scores count g
          = Some (take (length qualifying - Z.to_nat (- count)) qualifying)
          /\ ((length qualifying <= Z.to_nat (- count))%nat ->
              get_top_keywords scores count g = Some []))).
Proof.
  split.
  - intros Hg. unfold get_top_keywords, grade_threshold.
    apply threshold_in_None in Hg. now rewrite Hg.
  - intros Hg. rewrite !(get_top_keywords_Some _ _ _ _ Hg).
    split; [reflexivity |].
    intros Hneg. cbv zeta.
    unfold slice_to. destruct (Z.leb_spec 0 count); [lia |].
    split; [reflexivity |].
    intros Hlen. f_equal.
    replace (_ - _)%nat with 0%nat by lia. reflexivity.
Qed.

Lemma get_top_keywords_contract_witness :
  exists top,
    get_top_keywords [hand_score "a" (Fin 75); hand_score "b" (Fin 30)] 5 "C"
    = Some top
    /\ (length top <= 5)%nat
    /\ Forall (fun s => float_ge (total_score s) (Fin 40)) top.
Proof.
  destruct (get_top_keywords_contract
              [hand_score "a" (Fin 75); hand_score "b" (Fin 30)] 5 "C" 40)
    as (top & Htop & Hlen & Hall & _); [reflexivity | lia |].
  exists top. repeat split; assumption.
Defined.

Lemma qualifying_example :
  filter (fun s => float_ge (total_score s) (Fin 40))
    [hand_score "a" (Fin 75); hand_score "b" (Fin 60);
     hand_score "c" (Fin 30)]
  = [hand_score "a" (Fin 75); hand_score "b" (Fin 60)].
Proof.
  rewrite !filter_cons, filter_nil.
  rewrite decide_True by (unfold float_ge; simpl; lra).
  rewrite decide_True by (unfold float_ge; simpl; lra).
  rewrite decide_False by (unfold float_ge; simpl; lra).
  reflexivity.
Qed.

(** The theorem at work: an unknown grade raises, a count of 0 gives
    nothing, and of the two scores that reach grade C a count of -1 leaves
    the first and a count of -2 none. *)
Lemma get_top_keywords_edges_witness :
  get_top_keywords [hand_score "a" (Fin 75)] 5 "F" = None
  /\ get_top_keywords [hand_score "a" (Fin 75)] 0 "C" = Some []
  /\ get_top_keywords
       [hand_score "a" (Fin 75); hand_score "b" (Fin 60);
        hand_score "c" (Fin 30)] (-1) "C"
     = Some [hand_score "a" (Fin 75)]
  /\ get_top_keywords
       [hand_score "a" (Fin 75); hand_score "b" (Fin 60);
        hand_score "c" (Fin 30)] (-2) "C"
     = Some [].
Proof.
  destruct (get_top_keywords_edges [hand_score "a" (Fin 75)] 5 "F" 0)
    as [HF _].
  destruct (get_top_keywords_edges [hand_score "a" (Fin 75)] 5 "C" 40)
    as [_ HC].
  destruct (get_top_keywords_edges
              [hand_score "a" (Fin 75); hand_score "b" (Fin 60);
               hand_score "c" (Fin 30)] (-1) "C" 40) as [_ H1].
  destruct (get_top_keywords_edges
              [hand_score "a" (Fin 75); hand_score "b" (Fin 60);
               hand_score "c" (Fin 30)] (-2) "C" 40) as [_ H2].
  split; [apply HF; compute_done |].
  split; [apply HC; reflexivity |].
  split.
  - destruct (H1 eq_refl) as [_ Hneg]. destruct (Hneg eq_refl) as [-> _].
    now rewrite qualifying_example.
  - destruct (H2 eq_refl) as [_ Hneg]. destruct (Hneg eq_refl) as [_ ->].
    + reflexivity.
    + rewrite qualifying_example. simpl. lia.
Defined.

(** X7: on scores as the scorer makes them, filtering by the numeric
    threshold is filtering by grade: with a count that is not smaller than
    the list, the scores returned are exactly those whose grade has a
    threshold at or above that of [min_grade]. *)
Theorem top_keywords_are_those_of_grade (scores : list KeywordScore)
    (count : Z) (g : string) (th : R) :
  grade_threshold g = Some th ->
  Forall well_graded scores ->
  (Z.of_nat (length scores) <= count)%Z ->
  exists top,
    get_top_keywords scores count g = Some top
    /\ forall s,
         s ∈ top
         <-> s ∈ scores
             /\ exists th_s,
                  grade_threshold (grade s) = Some th_s /\ th_s >= th.
Proof.
  intros Hg Hwf Hc. rewrite (get_top_keywords_Some _ _ _ _ Hg).
  eexists. split; [reflexivity |].
  intros s. unfold slice_to. destruct (Z.leb_spec 0 count); [| lia].
  rewrite take_ge.
  2:{ etransitivity; [apply length_filter | lia]. }
  rewrite list_elem_of_filter. rewrite Forall_forall in Hwf.
  split.
  - intros [Hth Hs]. split; [exact Hs |].
    destruct (Hwf s Hs) as [Hgr Hpos]. rewrite Hgr.
    destruct (grade_threshold_of_score (total_score s))
      as (th_s & Hths & _ & Hmax).
    exists th_s. split; [exact Hths |].
    apply Rle_ge, (Hmax g th Hg). exact Hth.
  - intros [Hs (th_s & Hths & Hge)]. split; [| exact Hs].
    destruct (Hwf s Hs) as [Hgr Hpos]. rewrite Hgr in Hths.
    destruct (grade_threshold_of_score (total_score s))
      as (th' & Hth' & Hle & _).
    rewrite Hths in Hth'. injection Hth' as <-.
    specialize (Hle Hpos). unfold float_ge.
    apply (float_le_trans _ (Fin th_s)); [simpl; lra | exact Hle].
Qed.

Lemma top_keywords_are_those_of_grade_witness :
  exists top,
    get_top_keywords [hand_score "a" (Fin 75); hand_score "b" (Fin 30)] 10 "B"
    = Some top
    /\ (hand_score "a" (Fin 75) ∈ top
        <-> hand_score "a" (Fin 75)
              ∈ [hand_score "a" (Fin 75); hand_score "b" (Fin 30)]
            /\ exists th_s,
                 grade_threshold (grade (hand_score "a" (Fin 75))) = Some th_s
                 /\ th_s >= 60).
Proof.
  destruct (top_keywords_are_those_of_grade
              [hand_score "a" (Fin 75); hand_score "b" (Fin 30)] 10 "B" 60)
    as (top & Htop & H).
  - reflexivity.
  - repeat constructor; simpl; lra.
  - simpl. lia.
  - exists top. split; [exact Htop | apply H].
Defined.

(** *** The order of a batch *)

Lemma insert_desc_ties x l k :
  k <> NaN ->
  filter (fun s => total_score s = k) (insert_desc x l)
  = filter (fun s => total_score s = k) (x :: l).
Proof.
  intros Hk. induction l as [| y l IH]; simpl; [reflexivity |].
  case_decide as Hge; [reflexivity |].
  rewrite (filter_cons _ y (insert_desc x l)), IH.
  rewrite !filter_cons.
  destruct (decide (total_score y = k)) as [Hy | Hy],
    (decide (total_score x = k)) as [Hx | Hx]; try reflexivity.
  destruct Hge. unfold float_ge. rewrite Hx, Hy. now apply float_le_refl.
Qed.

Lemma sort_desc_ties l k :
  k <> NaN ->
  filter (fun s => total_score s = k) (sort_desc l)
  = filter (fun s => total_score s = k) l.
Proof.
  intros Hk. induction l as [| x l IH]; [reflexivity |].
  simpl sort_desc. rewrite insert_desc_ties, !filter_cons, IH by exact Hk.
  reflexivity.
Qed.

Lemma filter_no_nan (l : list KeywordScore) :
  Forall (fun s => total_score s <> NaN) l ->
  filter (fun s => total_score s = NaN) l = [].
Proof.
  induction 1 as [| s l Hs _ IH]; [reflexivity |].
  rewrite filter_cons, decide_False by exact Hs. exact IH.
Qed.

Lemma sort_desc_sorted_id l : StronglySorted score_ge l -> sort_desc l = l.
Proof.
  induction 1 as [| x l Hl IH Hx]; [reflexivity |].
  simpl. rewrite IH. destruct l as [| y l]; [reflexivity |].
  simpl. apply Forall_cons in Hx as [Hxy _].
  now rewrite decide_True by exact Hxy.
Qed.

(** X8: the batch order is stable: when no total is [nan], scores with
    the same total come out in the order their keywords came in, and a
    batch whose scores are already descending comes out unchanged. *)
Theorem score_keyword_list_stable fs sort (l : list KeywordMetrics) :
  Forall (fun s => total_score s <> NaN) (scored_ok fs l) ->
  exists scores,
    score_keyword_list fs sort l = Ok scores
    /\ (forall k,
          filter (fun s => total_score s = k) scores
          = filter (fun s => total_score s = k) (scored_ok fs l))
    /\ (StronglySorted score_ge (scored_ok fs l) ->
        scores = scored_ok fs l).
Proof.
  intros Hnan. rewrite score_keyword_list_ok.
  rewrite sort_by_total_reversed_ordered by exact Hnan.
  eexists. split; [reflexivity |].
  split; [| apply sort_desc_sorted_id].
  intros k. destruct (decide (k = NaN)) as [-> | Hk].
  - rewrite !filter_no_nan; [reflexivity | exact Hnan |].
    now apply (Permutation_Forall (Permutation_sym (sort_desc_perm _))).
  - now apply sort_desc_ties.
Qed.

Lemma scored_ok_plain fs (l : list KeywordMetrics) :
  Forall plain_numbers l ->
  length (scored_ok fs l) = length l
  /\ Forall (fun s =>
       exists t,
         total_score s = Fin t /\ 0 <= t <= 100
         /\ grade s = _calculate_grade (total_score s)) (scored_ok fs l).
Proof.
  induction 1 as [| m l Hm _ [IHlen IHall]]; [split; constructor |].
  rewrite scored_ok_cons.
  destruct (calculate_keyword_score_plain fs m Hm)
    as (s & d & c & t & x & Hs & _ & ? & _ & ? & _ & _ & ? & Htot & Hg).
  rewrite Hs. simpl. split; [now rewrite IHlen |].
  constructor; [| exact IHall].
  pose proof (normalize_search_volume_range (search_volume m)).
  eexists. split; [exact Htot |]. split; [lra | exact Hg].
Qed.

Lemma plain_totals_no_nan fs (l : list KeywordMetrics) :
  Forall plain_numbers l ->
  Forall (fun s => total_score s <> NaN) (scored_ok fs l).
Proof.
  intros H. destruct (scored_ok_plain fs l H) as [_ Hall].
  eapply Forall_impl; [exact Hall |].
  intros s (t & -> & _). discriminate.
Qed.

(** X9: a batch of keywords of plain numbers (a difficulty and a cpc that
    are not [nan], and as trend a bool, a float or an int that has a
    float) is scored completely: as many scores as keywords, in descending
    order, every total between 0 and 100 and every grade the grade of its
    total. *)
Theorem numeric_batch_scored_completely fs sort (l : list KeywordMetrics) :
  Forall plain_numbers l ->
  exists scores,
    score_keyword_list fs sort l = Ok scores
    /\ length scores = length l
    /\ StronglySorted score_ge scores
    /\ Forall (fun s =>
         exists t,
           total_score s = Fin t /\ 0 <= t <= 100
           /\ grade s = _calculate_grade (total_score s)) scores.
Proof.
  intros Hnum. destruct (scored_ok_plain fs l Hnum) as [Hlen Hall].
  pose proof (plain_totals_no_nan fs l Hnum) as Hnan.
  rewrite score_keyword_list_ok.
  rewrite sort_by_total_reversed_ordered by exact Hnan.
  eexists. split; [reflexivity |].
  pose proof (sort_desc_perm (scored_ok fs l)) as Hp.
  split; [now rewrite Hp |].
  split; [now apply sort_desc_sorted |].
  now apply (Permutation_Forall (Permutation_sym Hp)).
Qed.

Lemma numeric_batch_scored_completely_witness :
  exists scores,
    score_keyword_list (fun _ => Raise ValueError) sort_desc
      [example_metrics;
       create_sample_metrics "wireless earbuds" 30000 (Fin 60) (Fin 4.2)
         (PyInt 90) 0]
    = Ok scores
    /\ length scores = 2%nat
    /\ StronglySorted score_ge scores.
Proof.
  destruct (numeric_batch_scored_completely (fun _ => Raise ValueError)
              sort_desc
              [example_metrics;
               create_sample_metrics "wireless earbuds" 30000 (Fin 60)
                 (Fin 4.2) (PyInt 90) 0])
    as (scores & Hs & Hlen & Hsorted & _).
  - repeat constructor; done.
  - exists scores. repeat split; assumption.
Defined.

(** The theorem at work: two keywords with the same numbers have the same
    total, and their scores come out in the order the keywords came in. *)
Lemma score_keyword_list_stable_witness :
  exists scores,
    score_keyword_list (fun _ => Raise ValueError) sort_desc
      [create_sample_metrics "first" 50000 (Fin 75) (Fin 3.5) (PyInt 80) 0;
       create_sample_metrics "second" 50000 (Fin 75) (Fin 3.5) (PyInt 80) 0]
    = Ok scores
    /\ ks_keyword <$> scores = ["first"; "second"].
Proof.
  set (l := [create_sample_metrics "first" 50000 (Fin 75) (Fin 3.5)
               (PyInt 80) 0;
             create_sample_metrics "second" 50000 (Fin 75) (Fin 3.5)
               (PyInt 80) 0]).
  assert (Hplain : Forall plain_numbers l) by (repeat constructor; done).
  destruct (score_keyword_list_stable (fun _ => Raise ValueError) sort_desc l
              (plain_totals_no_nan _ l Hplain)) as (scores & Hs & _ & Hid).
  exists scores. split; [exact Hs |]. rewrite Hid.
  - subst l. rewrite !scored_ok_cons, scored_ok_nil.
    destruct (calculate_keyword_score_plain (fun _ => Raise ValueError)
                (create_sample_metrics "first" 50000 (Fin 75) (Fin 3.5)
                   (PyInt 80) 0)) as (s1 & ? & ? & ? & ? & Hs1 & _);
      [repeat split; done |].
    destruct (calculate_keyword_score_plain (fun _ => Raise ValueError)
                (create_sample_metrics "second" 50000 (Fin 75) (Fin 3.5)
                   (PyInt 80) 0)) as (s2 & ? & ? & ? & ? & Hs2 & _);
      [repeat split; done |].
    rewrite Hs1, Hs2. simpl.
    unfold calculate_keyword_score in Hs1, Hs2.
    rewrite trend_score_80 in Hs1, Hs2.
    cbn [mbind result_bind number_times] in Hs1, Hs2.
    injection Hs1 as <-. injection Hs2 as <-. reflexivity.
  - subst l. rewrite !scored_ok_cons, scored_ok_nil.
    unfold calculate_keyword_score. rewrite trend_score_80.
    cbn [mbind result_bind number_times app].
    repeat constructor.
    unfold score_ge, float_ge. cbn [total_score search_volume
      keyword_difficulty cpc create_sample_metrics].
    rewrite difficulty_score_75, cpc_score_3_5.
    rewrite ?(clamp_0_100_id 80) by lra. simpl. lra.
Defined.

End ScorerMore.
(* ================================================================== *)
(** ** Properties of the recommendation and of the report *)
(* ================================================================== *)

Module ScorerReport.
Import Scorer ScorerFacts ScorerMore.
Local Open Scope R_scope.

(** *** The recommendation *)

Lemma float_ge_lower (t : float) (a b : R) :
  b <= a -> float_ge t (Fin a) -> float_ge t (Fin b).
Proof.
  intros Hab Ha. unfold float_ge in *.
  apply (float_le_trans _ (Fin a)); [exact Hab | exact Ha].
Qed.

Lemma headline_by_score (t : float) :
  headline_of_grade (_calculate_grade t)
  = if decide (float_ge t (Fin 80))
    then "Excellent keyword - high priority target"
    else if decide (float_ge t (Fin 60))
    then "Good keyword - consider targeting"
    else if decide (float_ge t (Fin 40))
    then "Moderate keyword - may be worth targeting"
    else "Low-value keyword - consider alternatives".
Proof.
  rewrite _calculate_grade_unfold.
  destruct (decide (float_ge t (Fin 90))) as [H90 | H90].
  { rewrite decide_True; [reflexivity |].
    apply (float_ge_lower t 90); [lra | exact H90]. }
  destruct (decide (float_ge t (Fin 80))); [reflexivity |].
  destruct (decide (float_ge t (Fin 70))) as [H70 | H70].
  { rewrite decide_True; [reflexivity |].
    apply (float_ge_lower t 70); [lra | exact H70]. }
  destruct (decide (float_ge t (Fin 60))); [reflexivity |].
  destruct (decide (float_ge t (Fin 50))) as [H50 | H50].
  { rewrite decide_True; [reflexivity |].
    apply (float_ge_lower t 50); [lra | exact H50]. }
  destruct (decide (float_ge t (Fin 40))); reflexivity.
Qed.

Lemma note_length {P Q : Prop} (d : {P} + {Q}) (x : string) :
  (length (if d then [x] else []) <= 1)%nat.
Proof. destruct d; simpl; lia. Qed.

Lemma note_length_2 {P Q P' Q' : Prop} (d : {P} + {Q}) (d' : {P'} + {Q'})
    (x y : string) :
  (length (if d then [x] else if d' then [y] else []) <= 1)%nat.
Proof. destruct d; [simpl; lia |]. apply note_length. Qed.

Lemma recommendation_parts (t : float) (cs : gmap string float)
    (m : KeywordMetrics) :
  exists notes,
    _generate_recommendation t cs m
    = join " | " (headline_of_grade (_calculate_grade t) :: notes)
    /\ (length notes <= 4)%nat.
Proof.
  unfold _generate_recommendation. rewrite headline_by_score.
  set (r2 := if decide (float_lt (cs !!! "search_volume") (Fin 30))
             then _ else []).
  set (r3 := if decide (float_lt (cs !!! "keyword_difficulty") (Fin 40))
             then _ else []).
  set (r4 := if decide (float_gt (cs !!! "cpc") (Fin 80)) then _ else _).
  set (r5 := if decide (float_lt (cs !!! "trend") (Fin 30)) then _ else _).
  exists (r2 ++ r3 ++ r4 ++ r5). split.
  - repeat (destruct (decide (float_ge t _)); [reflexivity |]). reflexivity.
  - rewrite !length_app.
    pose proof (note_length
                  (decide (float_lt (cs !!! "search_volume") (Fin 30)))
                  "Low search volume - consider long-tail variations") as H2.
    pose proof (note_length
                  (decide (float_lt (cs !!! "keyword_difficulty") (Fin 40)))
                  "High competition - may be difficult to rank") as H3.
    pose proof (note_length_2 (decide (float_gt (cs !!! "cpc") (Fin 80)))
                  (decide (float_lt (cs !!! "cpc") (Fin 20)))
                  "High commercial value - good for monetization"
                  "Low commercial intent - focus on traffic volume") as H4.
    pose proof (note_length_2 (decide (float_lt (cs !!! "trend") (Fin 30)))
                  (decide (float_gt (cs !!! "trend") (Fin 70)))
                  "Declining trend - monitor performance closely"
                  "Rising trend - opportunity for growth") as H5.
    change (length r2 <= 1)%nat in H2. change (length r3 <= 1)%nat in H3.
    change (length r4 <= 1)%nat in H4. change (length r5 <= 1)%nat in H5.
    clearbody r2 r3 r4 r5. lia.
Qed.

(** X10: the recommendation of a scored keyword opens with the sentence
    of its grade (A+ and A: excellent; B+ and B: good; C+ and C:
    moderate; D: low-value), followed by at most four notes on the
    components, joined by " | ". *)
Theorem recommendation_opens_with_grade fs (m : KeywordMetrics)
    (s : KeywordScore) :
  calculate_keyword_score fs m = Ok s ->
  exists notes,
    recommendation s = join " | " (headline_of_grade (grade s) :: notes)
    /\ (length notes <= 4)%nat.
Proof.
  unfold calculate_keyword_score.
  destruct (calculate_trend_score fs (trend_score m)) as [t | e];
    cbn [mbind result_bind]; [| discriminate].
  destruct (number_times t _) as [w | e];
    cbn [mbind result_bind]; [| discriminate].
  intros [= <-]. cbn [recommendation grade].
  apply recommendation_parts.
Qed.

Lemma recommendation_opens_with_grade_witness :
  exists s notes,
    calculate_keyword_score (fun _ => Raise ValueError) example_metrics = Ok s
    /\ recommendation s = join " | " (headline_of_grade (grade s) :: notes)
    /\ (length notes <= 4)%nat.
Proof.
  destruct (example_metrics_scored (fun _ => Raise ValueError)) as (s & Hs).
  destruct (recommendation_opens_with_grade _ _ _ Hs) as (notes & Hr & Hl).
  now exists s, notes.
Defined.

(** *** The report *)

Lemma sum_values_commute (z1 z2 y : Z) :
  (z1 + (z2 + y) = z2 + (z1 + y))%Z.
Proof. lia. Qed.

Lemma sum_values_insert (d : gmap string Z) (g : string) (v : Z) :
  sum_values (<[g := v]> d) = (sum_values d - default 0 (d !! g) + v)%Z.
Proof.
  unfold sum_values. destruct (d !! g) as [x |] eqn:Hg; simpl.
  - rewrite <- (insert_delete_eq d g v).
    rewrite map_fold_insert_L;
      [| intros; apply sum_values_commute | apply lookup_delete_eq].
    rewrite (map_fold_delete_L _ _ g x d);
      [| intros; apply sum_values_commute | exact Hg].
    lia.
  - rewrite map_fold_insert_L;
      [| intros; apply sum_values_commute | exact Hg].
    lia.
Qed.

Lemma sum_values_count (d : gmap string Z) (s : KeywordScore) :
  sum_values (count_grade d s) = (sum_values d + 1)%Z.
Proof. unfold count_grade. rewrite sum_values_insert. lia. Qed.

Lemma sum_values_counts (scores : list KeywordScore) (d : gmap string Z) :
  sum_values (foldl count_grade d scores)
  = (sum_values d + Z.of_nat (length scores))%Z.
Proof.
  revert d. induction scores as [| s scores IH]; intros d; simpl.
  - lia.
  - rewrite IH, sum_values_count. lia.
Qed.

Lemma count_grade_lookup (d : gmap string Z) (s : KeywordScore) (g : string) :
  default 0%Z (count_grade d s !! g)
  = (default 0 (d !! g) + if decide (grade s = g) then 1 else 0)%Z.
Proof.
  unfold count_grade. destruct (decide (grade s = g)) as [-> | Hne].
  - now rewrite lookup_insert_eq.
  - rewrite lookup_insert_ne by exact Hne. lia.
Qed.

Lemma counts_lookup (scores : list KeywordScore) (d : gmap string Z)
    (g : string) :
  default 0%Z (foldl count_grade d scores !! g)
  = (default 0 (d !! g)
     + Z.of_nat (length (filter (fun s => grade s = g) scores)))%Z.
Proof.
  revert d. induction scores as [| s scores IH]; intros d; simpl.
  - lia.
  - rewrite IH, count_grade_lookup, filter_cons.
    destruct (decide (grade s = g)); simpl; lia.
Qed.

Lemma high_grades_split (scores : list KeywordScore) :
  high_grades scores
  = (length (filter (fun s => grade s = "A+") scores)
     + length (filter (fun s => grade s = "A") scores))%nat.
Proof.
  unfold high_grades. induction scores as [| s scores IH]; [reflexivity |].
  rewrite !filter_cons.
  destruct (decide (grade s = "A+")) as [Hp | Hp];
    destruct (decide (grade s = "A")) as [Ha | Ha].
  - rewrite Hp in Ha. discriminate Ha.
  - rewrite decide_True by (rewrite Hp; set_solver). simpl. lia.
  - rewrite decide_True by (rewrite Ha; set_solver). simpl. lia.
  - rewrite decide_False; [exact IH |].
    intros [H | [H | H]%elem_of_cons]%elem_of_cons; try done.
    now apply elem_of_nil in H.
Qed.

Lemma components_of_ok (component : string) (scores : list KeywordScore) :
  Forall (fun s => is_Some (component_scores s !! component)) scores ->
  exists xs, components_of component scores = Done xs.
Proof.
  induction 1 as [| s scores [x Hx] _ [xs IH]]; [now exists [] |].
  exists (x :: xs). cbn [components_of]. unfold subscript.
  rewrite Hx. cbn [mbind checked_bind]. now rewrite IH.
Qed.

Lemma components_of_fails (component : string) (scores : list KeywordScore) :
  Exists (fun s => component_scores s !! component = None) scores ->
  components_of component scores = Fails (KeyError component).
Proof.
  induction 1 as [s scores Hs | s scores _ IH]; cbn [components_of];
    unfold subscript.
  - now rewrite Hs.
  - destruct (component_scores s !! component); [| reflexivity].
    cbn [mbind checked_bind]. now rewrite IH.
Qed.

Lemma per_component_ok (scores : list KeywordScore) (components : list string) :
  (forall c, c ∈ components ->
     Forall (fun s => is_Some (component_scores s !! c)) scores) ->
  exists avg,
    per_component
      (fun component =>
         xs ← components_of component scores; Done (mean xs)) components
    = Done avg
    /\ dom avg = list_to_set components.
Proof.
  induction components as [| c rest IH]; intros Hall.
  - exists ∅. split; [reflexivity |]. now rewrite dom_empty_L.
  - destruct IH as (avg & Havg & Hdom).
    { intros c' Hc'. apply Hall. now right. }
    destruct (components_of_ok c scores) as [xs Hxs];
      [apply Hall; now left |].
    exists (<[c := mean xs]> avg). cbn [per_component].
    rewrite Hxs. cbn [mbind checked_bind]. rewrite Havg.
    split; [reflexivity |].
    now rewrite dom_insert_L, Hdom, list_to_set_cons.
Qed.

Lemma per_component_fails (scores : list KeywordScore)
    (pre : list string) (c : string) (post : list string) :
  (forall c', c' ∈ pre ->
     Forall (fun s => is_Some (component_scores s !! c')) scores) ->
  Exists (fun s => component_scores s !! c = None) scores ->
  per_component
    (fun component =>
       xs ← components_of component scores; Done (mean xs))
    (pre ++ c :: post)
  = Fails (KeyError c).
Proof.
  intros Hpre Hc. induction pre as [| c' pre IH]; cbn [app per_component].
  - now rewrite (components_of_fails c scores Hc).
  - destruct (components_of_ok c' scores) as [xs Hxs];
      [apply Hpre; now left |].
    rewrite Hxs. cbn [mbind checked_bind]. rewrite IH; [reflexivity |].
    intros c'' Hc''. apply Hpre. now right.
Qed.

Lemma has_components_each (scores : list KeywordScore) :
  Forall has_components scores ->
  forall c, c ∈ four_components ->
    Forall (fun s => is_Some (component_scores s !! c)) scores.
Proof.
  intros Hall c Hc. eapply Forall_impl; [exact Hall |].
  intros s Hs. now apply Hs.
Qed.

(** The overall recommendations on complete averages and a distribution
    that is not empty. *)
Lemma overall_recommendations_ok (avg : gmap string float)
    (distribution : gmap string Z) :
  dom avg = list_to_set four_components ->
  sum_values distribution <> 0%Z ->
  exists recs,
    _generate_overall_recommendations avg distribution = Done recs
    /\ ("Low percentage of high-value keywords - expand research" ∈ recs
        <-> IZR (default 0 (distribution !! "A+")
                 + default 0 (distribution !! "A"))%Z
            / IZR (sum_values distribution) < 0.2).
Proof.
  intros Hdom Hsum.
  assert (Hkey : forall c, c ∈ four_components -> is_Some (avg !! c)).
  { intros c Hc. apply elem_of_dom. rewrite Hdom.
    now apply elem_of_list_to_set. }
  destruct (Hkey "search_volume") as [sv Hsv]; [repeat constructor |].
  destruct (Hkey "keyword_difficulty") as [kd Hkd]; [repeat constructor |].
  destruct (Hkey "cpc") as [cp Hcp]; [repeat constructor |].
  destruct (Hkey "trend") as [tr Htr]; [repeat constructor |].
  unfold _generate_overall_recommendations, subscript.
  rewrite Hsv, Hkd, Hcp, Htr. cbn [mbind checked_bind].
  apply Z.eqb_neq in Hsum. rewrite Hsum.
  eexists. split; [reflexivity |].
  rewrite !elem_of_app.
  destruct (Rlt_dec (IZR _ / IZR _) 0.2) as [Hlt | Hge].
  - split; [intros _; exact Hlt |]. intros _. do 4 right. now left.
  - split; [| intros H; now destruct Hge].
    destruct (decide (float_lt sv (Fin 40))),
      (decide (float_lt kd (Fin 50))), (decide (float_lt cp (Fin 30))),
      (decide (float_lt tr (Fin 40)));
      intros [H | [H | [H | [H | H]]]];
      repeat match goal with
             | H : _ ∈ [] |- _ => apply elem_of_nil in H; destruct H
             | H : _ ∈ [_] |- _ => apply list_elem_of_singleton in H;
                                   discriminate H
             end.
Qed.

Lemma sum_values_distribution (scores : list KeywordScore) :
  sum_values (grade_distribution_of scores) = Z.of_nat (length scores).
Proof.
  unfold grade_distribution_of. rewrite sum_values_counts.
  unfold sum_values. rewrite map_fold_empty. lia.
Qed.

Lemma distribution_lookup (scores : list KeywordScore) (g : string) :
  default 0%Z (grade_distribution_of scores !! g)
  = Z.of_nat (length (filter (fun s => grade s = g) scores)).
Proof.
  unfold grade_distribution_of. rewrite counts_lookup, lookup_empty.
  simpl. lia.
Qed.

Lemma take_last_all {A} (n : nat) (l : list A) :
  (length l <= n)%nat -> take_last n l = l.
Proof.
  intros H. unfold take_last.
  replace (length l - n)%nat with 0%nat by lia. reflexivity.
Qed.

Lemma ratio_below_fifth (h n : nat) :
  (0 < n)%nat ->
  IZR (Z.of_nat h) / IZR (Z.of_nat n) < 0.2 <-> (5 * h < n)%nat.
Proof.
  intros Hn. assert (Hpos : 0 < IZR (Z.of_nat n)) by (apply IZR_lt; lia).
  split.
  - intros H. apply (Rmult_lt_compat_r _ _ _ Hpos) in H.
    unfold Rdiv in H. rewrite Rmult_assoc, Rinv_l, Rmult_1_r in H by lra.
    assert (H5 : 5 * IZR (Z.of_nat h) < IZR (Z.of_nat n)) by lra.
    change 5 with (IZR 5) in H5. rewrite <- mult_IZR in H5.
    apply lt_IZR in H5. lia.
  - intros H. assert (H5 : (5 * Z.of_nat h < Z.of_nat n)%Z) by lia.
    apply IZR_lt in H5. rewrite mult_IZR in H5.
    apply (Rmult_lt_reg_r (IZR (Z.of_nat n))); [exact Hpos |].
    unfold Rdiv. rewrite Rmult_assoc, Rinv_l, Rmult_1_r by lra. lra.
Qed.

Section Report.

Variable round : float -> Z -> float.

(** The report of scores that have their components, by parts. *)
Lemma generate_keyword_report_ok (scores : list KeywordScore) :
  scores <> [] ->
  Forall has_components scores ->
  exists avg recs,
    dom avg = list_to_set four_components
    /\ _generate_overall_recommendations avg (grade_distribution_of scores)
       = Done recs
    /\ ("Low percentage of high-value keywords - expand research" ∈ recs
        <-> (5 * high_grades scores < length scores)%nat)
    /\ generate_keyword_report round scores
       = Done (FullReport
           {| total_keywords := length scores;
              average_score := round (mean (total_score <$> scores)) 2;
              grade_distribution := grade_distribution_of scores;
              top_keywords :=
                (fun score =>
                   {| top_keyword := ks_keyword score;
                      top_score := round (total_score score) 2;
                      top_grade := grade score;
                      top_recommendation := recommendation score |})
                <$> take 5 scores;
              bottom_keywords :=
                (fun score =>
                   {| bottom_keyword := ks_keyword score;
                      bottom_score := round (total_score score) 2;
                      bottom_grade := grade score |})
                <$> take_last 5 scores;
              component_analysis := (fun x => round x 2) <$> avg;
              recommendations := recs |}).
Proof.
  intros Hne Hall.
  destruct (per_component_ok scores four_components
              (has_components_each scores Hall)) as (avg & Havg & Hdom).
  assert (Hlen : (0 < length scores)%nat)
    by (destruct scores; [done | simpl; lia]).
  destruct (overall_recommendations_ok avg (grade_distribution_of scores) Hdom)
    as (recs & Hrecs & Hlow).
  { rewrite sum_values_distribution. lia. }
  exists avg, recs. split; [exact Hdom |]. split; [exact Hrecs |]. split.
  - rewrite Hlow, !distribution_lookup, sum_values_distribution.
    rewrite <- Nat2Z.inj_add, <- high_grades_split.
    now apply ratio_below_fifth.
  - destruct scores as [| s0 rest]; [done |].
    unfold generate_keyword_report. unfold four_components in Havg.
    rewrite Havg. cbn [mbind checked_bind]. rewrite Hrecs. reflexivity.
Qed.

(** X11: the report of a non-empty list of scores that have their four
    components is made without an exception: it counts the scores, its
    grade distribution counts the scores of each grade and sums to the
    number of scores, it averages the four components, and its top and
    bottom lists are the first and the last five scores in the order
    given, which for five scores or fewer are the same scores. *)
Theorem report_of_scored_keywords (scores : list KeywordScore) :
  scores <> [] ->
  Forall has_components scores ->
  exists r,
    generate_keyword_report round scores = Done (FullReport r)
    /\ total_keywords r = length scores
    /\ sum_values (grade_distribution r) = Z.of_nat (length scores)
    /\ (forall g,
          default 0%Z (grade_distribution r !! g)
          = Z.of_nat (length (filter (fun s => grade s = g) scores)))
    /\ dom (component_analysis r) = list_to_set four_components
    /\ top_keyword <$> top_keywords r = ks_keyword <$> take 5 scores
    /\ bottom_keyword <$> bottom_keywords r
       = ks_keyword <$> take_last 5 scores
    /\ ((length scores <= 5)%nat ->
        bottom_keyword <$> bottom_keywords r
        = top_keyword <$> top_keywords r).
Proof.
  intros Hne Hall.
  destruct (generate_keyword_report_ok scores Hne Hall)
    as (avg & recs & Hdom & _ & _ & ->).
  eexists. split; [reflexivity |].
  cbn [total_keywords grade_distribution component_analysis top_keywords
       bottom_keywords].
  split; [reflexivity |]. split; [apply sum_values_distribution |].
  split; [apply distribution_lookup |].
  split; [now rewrite dom_fmap_L |].
  rewrite <- !list_fmap_compose.
  split; [reflexivity |]. split; [reflexivity |].
  intros Hle. rewrite take_last_all by exact Hle.
  rewrite firstn_all2 by exact Hle. reflexivity.
Qed.

(** X12: the report recommends to expand the research exactly when fewer
    than a fifth of the scores are graded A+ or A. *)
Theorem report_flags_few_high_grades (scores : list KeywordScore) :
  scores <> [] ->
  Forall has_components scores ->
  exists r,
    generate_keyword_report round scores = Done (FullReport r)
    /\ ("Low percentage of high-value keywords - expand research"
        ∈ recommendations r
        <-> (5 * high_grades scores < length scores)%nat).
Proof.
  intros Hne Hall.
  destruct (generate_keyword_report_ok scores Hne Hall)
    as (avg & recs & _ & _ & Hlow & ->).
  eexists. split; [reflexivity | exact Hlow].
Qed.

(** X13: what the report does on other lists: for the empty list it
    returns the dict with the one key "error"; and when a score lacks a
    component that its predecessors in the order search_volume,
    keyword_difficulty, cpc, trend are all present for, it raises the
    [KeyError] of that component. *)
Theorem report_of_other_lists (scores : list KeywordScore)
    (pre : list string) (c : string) (post : list string) :
  generate_keyword_report round []
  = Done (ErrorReport "No keyword scores provided")
  /\ (four_components = pre ++ c :: post ->
      (forall c', c' ∈ pre ->
         Forall (fun s => is_Some (component_scores s !! c')) scores) ->
      Exists (fun s => component_scores s !! c = None) scores ->
      generate_keyword_report round scores = Fails (KeyError c)).
Proof.
  split; [reflexivity |]. intros Hsplit Hpre Hc.
  destruct scores as [| s0 rest]; [now apply Exists_nil in Hc |].
  unfold generate_keyword_report.
  change ["search_volume"; "keyword_difficulty"; "cpc"; "trend"]
    with four_components.
  rewrite Hsplit, (per_component_fails _ pre c post Hpre Hc). reflexivity.
Qed.

End Report.

Lemma calculate_keyword_score_components fs m s :
  calculate_keyword_score fs m = Ok s -> has_components s.
Proof.
  intros Hs.
  apply calculate_keyword_score_ok in Hs
    as (t & w & _ & _ & Hsv & Hkd & Hcpc & Htr & _).
  intros c Hc. unfold four_components in Hc.
  repeat (apply elem_of_cons in Hc as [-> | Hc]; [eauto |]).
  now apply elem_of_nil in Hc.
Qed.

Lemma scored_ok_components fs (l : list KeywordMetrics) :
  Forall has_components (scored_ok fs l).
Proof.
  induction l as [| m l IH]; [constructor |].
  rewrite scored_ok_cons.
  destruct (calculate_keyword_score fs m) as [s | e] eqn:Hs; simpl;
    [| exact IH].
  constructor; [| exact IH]. exact (calculate_keyword_score_components _ _ _ Hs).
Qed.

(** X14: scoring and reporting together: a non-empty batch of keywords
    of plain numbers (a difficulty and a cpc that are not [nan], and as
    trend a bool, a float or an int that has a float) is scored and
    reported without an exception; the report counts every keyword of the
    batch, and its top list names the five scores with the highest totals:
    no score left out of it has a higher total than one in it. *)
Theorem batch_report fs sort (round : float -> Z -> float)
    (l : list KeywordMetrics) :
  l <> [] ->
  Forall plain_numbers l ->
  exists scores r,
    score_keyword_list fs sort l = Ok scores
    /\ generate_keyword_report round scores = Done (FullReport r)
    /\ total_keywords r = length l
    /\ top_keyword <$> top_keywords r = ks_keyword <$> take 5 scores
    /\ forall a b,
         a ∈ take 5 scores -> b ∈ drop 5 scores ->
         float_ge (total_score a) (total_score b).
Proof.
  intros Hne Hnum. destruct (scored_ok_plain fs l Hnum) as [Hlen _].
  pose proof (plain_totals_no_nan fs l Hnum) as Hnan.
  rewrite score_keyword_list_ok.
  rewrite sort_by_total_reversed_ordered by exact Hnan.
  set (scores := sort_desc (scored_ok fs l)).
  pose proof (sort_desc_perm (scored_ok fs l)) as Hperm. fold scores in Hperm.
  assert (Hcomp : Forall has_components scores).
  { apply (Permutation_Forall (Permutation_sym Hperm)).
    apply scored_ok_components. }
  assert (Hlen' : length scores = length l) by now rewrite Hperm.
  assert (Hsome : scores <> []).
  { intros H. rewrite H in Hlen'. destruct l; [done | discriminate]. }
  destruct (generate_keyword_report_ok round scores Hsome Hcomp)
    as (avg & recs & _ & _ & _ & Hr).
  eexists scores, _. split; [reflexivity |]. split; [exact Hr |].
  cbn [total_keywords top_keywords]. split; [exact Hlen' |].
  split; [now rewrite <- list_fmap_compose |].
  apply (StronglySorted_app_order score_ge).
  rewrite take_drop. now apply sort_desc_sorted.
Qed.

Lemma flat_score_components (k : string) (t : float) :
  has_components (flat_score k t).
Proof.
  intros c Hc. unfold four_components in Hc.
  repeat (apply elem_of_cons in Hc as [-> | Hc]; [eexists; reflexivity |]).
  now apply elem_of_nil in Hc.
Qed.

Lemma report_of_scored_keywords_witness :
  exists r,
    generate_keyword_report (fun x _ => x)
      [flat_score "a" (Fin 85); flat_score "b" (Fin 45)]
    = Done (FullReport r)
    /\ total_keywords r = 2%nat
    /\ top_keyword <$> top_keywords r = ["a"; "b"]
    /\ bottom_keyword <$> bottom_keywords r = ["a"; "b"].
Proof.
  destruct (report_of_scored_keywords (fun x _ => x)
              [flat_score "a" (Fin 85); flat_score "b" (Fin 45)])
    as (r & Hr & Ht & _ & _ & _ & Htop & Hbottom & _).
  - discriminate.
  - repeat constructor; apply flat_score_components.
  - exists r. repeat split; assumption.
Defined.

Lemma report_flags_few_high_grades_witness :
  exists r,
    generate_keyword_report (fun x _ => x)
      [flat_score "a" (Fin 85); flat_score "b" (Fin 45)]
    = Done (FullReport r)
    /\ ("Low percentage of high-value keywords - expand research"
        ∈ recommendations r
        <-> (5 * high_grades [flat_score "a" (Fin 85); flat_score "b" (Fin 45)] < 2)%nat).
Proof.
  apply (report_flags_few_high_grades (fun x _ => x)
           [flat_score "a" (Fin 85); flat_score "b" (Fin 45)]).
  - discriminate.
  - repeat constructor; apply flat_score_components.
Defined.

Lemma report_of_other_lists_witness :
  generate_keyword_report (fun x _ => x) [hand_score "a" (Fin 85)]
  = Fails (KeyError "search_volume").
Proof.
  destruct (report_of_other_lists (fun x _ => x) [hand_score "a" (Fin 85)]
              [] "search_volume" ["keyword_difficulty"; "cpc"; "trend"])
    as [_ H].
  apply H.
  - reflexivity.
  - intros c Hc. now apply elem_of_nil in Hc.
  - constructor. reflexivity.
Defined.

Lemma batch_report_witness :
  exists scores r,
    score_keyword_list (fun _ => Raise ValueError) sort_desc
      [example_metrics;
       create_sample_metrics "wireless earbuds" 30000 (Fin 60) (Fin 4.2)
         (PyInt 90) 0]
    = Ok scores
    /\ generate_keyword_report (fun x _ => x) scores = Done (FullReport r)
    /\ total_keywords r = 2%nat.
Proof.
  destruct (batch_report (fun _ => Raise ValueError) sort_desc
              (fun x _ => x)
              [example_metrics;
               create_sample_metrics "wireless earbuds" 30000 (Fin 60)
                 (Fin 4.2) (PyInt 90) 0])
    as (scores & r & Hs & Hr & Ht & _).
  - discriminate.
  - repeat constructor; done.
  - now exists scores, r.
Defined.

End ScorerReport.


(* ================================================================== *)
(** ** Properties of the strings and of the runtime *)
(* ================================================================== *)

Module PyStringFacts.
Import PyString.

Lemma startswith_spec (p s : string) :
  startswith p s = true <-> exists b, s = p +:+ b.
Proof.
  revert s. induction p as [| a p IH]; intros s; simpl.
  - split; [intros _; now exists s | done].
  - destruct s as [| b s]; simpl.
    + split; [done | intros [? ?]; discriminate].
    + rewrite andb_true_iff, Ascii.eqb_eq, IH. split.
      * intros [-> [t ->]]. now exists t.
      * intros [t [= -> ->]]. eauto.
Qed.

(** The test [sep in s] decides whether [sep] occurs in [s]. *)
Lemma contains_occurs (sep s : string) :
  contains sep s = true <-> occurs sep s.
Proof.
  unfold occurs. induction s as [| c s IH]; simpl.
  - rewrite startswith_spec. split.
    + intros [b Hb]. exists EmptyString, b. exact Hb.
    + intros (a & b & Hab). destruct a; [| discriminate].
      now exists b.
  - rewrite orb_true_iff, IH, startswith_spec. split.
    + intros [[b Hb] | (a & b & ->)].
      * exists EmptyString, b. exact Hb.
      * now exists (String c a), b.
    + intros (a & b & Hab). destruct a as [| c' a].
      * left. now exists b.
      * right. injection Hab as _ ->. now exists a, b.
Qed.

(** Splitting on a separator that does not occur gives the one piece. *)
Lemma split_absent (sep s : string) :
  contains sep s = false -> split sep s = [s].
Proof.
  unfold split. induction s as [| c s IH]; simpl; [done |].
  rewrite orb_false_iff. intros [Hp Hc].
  change (match sep with
          | EmptyString => true
          | String a p' =>
              match String c s with
              | EmptyString => false
              | String b s' => Ascii.eqb a b && startswith p' s'
              end
          end) with (startswith sep (String c s)).
  rewrite Hp, (IH Hc). reflexivity.
Qed.

End PyStringFacts.

Module AsyncFacts.
Import Async.

Lemma bind_run {St A B} (m : M St A) (k : A -> M St B) (w : World St) :
  (m ≫= k) w
  = match m w with
    | (Returned a, w') => k a w'
    | (Raised e, w') => (Raised e, w')
    end.
Proof. reflexivity. Qed.

(** What awaiting a coroutine under a timeout does to the world, whatever
    the coroutine: nothing is slept, one more coroutine has been awaited,
    and the clock has moved on by no more than the timeout. *)
Lemma wait_for_world {St A} (task : Task St A) (timeout : Z) (w : World St) :
  let w' := (wait_for task timeout w).2 in
  slept w' = slept w
  /\ awaited w' = S (awaited w)
  /\ (clock w <= clock w' <= clock w + Z.max 0 (seconds timeout))%Z.
Proof.
  unfold wait_for, seconds.
  destruct (Z.leb_spec timeout 0) as [Hle | Hgt]; simpl;
    [repeat split; lia |].
  destruct (duration (task w)) as [d |]; simpl; [| repeat split; lia].
  destruct (Z.ltb_spec (Z.of_N d) (timeout * 1000000)); simpl;
    repeat split; lia.
Qed.

(** A run whose outcome is computed to be a return, or a given raise,
    is that outcome together with the world it leaves. *)
Lemma computed_return {St A} (d : A) (run : outcome A * World St) :
  has_returned run.1 = true -> run = (Returned (returned d run.1), run.2).
Proof. destruct run as [[a | e] w']; [reflexivity | discriminate]. Qed.

Lemma computed_raise {St A} (e : exn) (run : outcome A * World St) :
  run.1 = Raised e -> run = (Raised e, run.2).
Proof. destruct run as [r w']. simpl. now intros ->. Qed.

End AsyncFacts.

(* ================================================================== *)
(** ** Properties of the agent envelope *)
(* ================================================================== *)

Module AgentFacts.
Import PyString Async Agent PyStringFacts AsyncFacts.

(** *** Parsing *)

Lemma parse_without_reasoning_marker (raw_response : string) :
  contains "REASONING:" raw_response = false ->
  _parse_reasoning_response raw_response = fallback_response raw_response.
Proof.
  intros H. unfold _parse_reasoning_response.
  now rewrite (split_absent _ _ H).
Qed.

(** The default a structured response gets: without a "CONFIDENCE:"
    marker the parser reads the literal "80". *)
Lemma parse_structured_default (part : string) (d : dict) :
  contains "CONFIDENCE:" part = false ->
  parse_structured part = Some d ->
  d !! "confidence" = Some (PyFloat structured_default_confidence).
Proof.
  intros Hc. unfold parse_structured. rewrite Hc.
  destruct (split "RESPONSE:" part !! 1%nat) as [after |]; [| discriminate].
  simpl. intros [= <-]. reflexivity.
Qed.

(** C8: a response without the three markers comes back whole, with the
    one placeholder reasoning step and the confidence 70, which is below
    the 80 a structured response gets by default (and below the 85 of a
    response taken without reasoning). *)
Theorem parse_fallback (raw_response : string) :
  contains "REASONING:" raw_response = false ->
  contains "RESPONSE:" raw_response = false ->
  contains "CONFIDENCE:" raw_response = false ->
  exists step confidence,
    _parse_reasoning_response raw_response
    = {[ "response" := PyStr raw_response;
         "reasoning_steps" := PyList [PyStr step];
         "confidence" := PyFloat confidence ]}
    /\ (confidence < structured_default_confidence)%Q
    /\ (confidence < plain_default_confidence)%Q.
Proof.
  intros H _ _. rewrite (parse_without_reasoning_marker _ H).
  exists "Direct response without structured reasoning", 70%Q.
  split; [reflexivity |]. split; reflexivity.
Qed.

Lemma parse_fallback_witness :
  exists step confidence,
    _parse_reasoning_response "Just an answer."
    = {[ "response" := PyStr "Just an answer.";
         "reasoning_steps" := PyList [PyStr step];
         "confidence" := PyFloat confidence ]}
    /\ (confidence < structured_default_confidence)%Q
    /\ (confidence < plain_default_confidence)%Q.
Proof. apply parse_fallback; reflexivity. Defined.

(** *** Retrying *)

Lemma sleep_world (s : Z) (w : World AgentState) :
  sleep s w
  = (Returned tt,
     mkWorld (clock w + Z.max 0 (seconds s)) (slept w ++ [s]) (awaited w)
       (self w)).
Proof. reflexivity. Qed.

Lemma retry_loop_nil {A} config (task : Task AgentState A) last w :
  retry_loop config task [] last w
  = (Raised (Exception (exhausted_message config (str_option last))), w).
Proof. reflexivity. Qed.

Lemma retry_loop_cons {A} config (task : Task AgentState A) attempt rest
    last w :
  retry_loop config task (attempt :: rest) last w
  = match wait_for task (timeout_seconds config) w with
    | (Returned result, w') => (Returned result, w')
    | (Raised TimeoutError, w') =>
        retry_loop config task rest (Some (timeout_message config)) w'
    | (Raised (Exception e), w') =>
        retry_loop config task rest (Some ("Task failed: " +:+ e))
          (if (Z.of_nat attempt <? max_retries config - 1)%Z
           then (sleep (2 ^ Z.of_nat attempt) w').2
           else w')
    end.
Proof.
  cbn [retry_loop].
  destruct (wait_for task (timeout_seconds config) w) as [[r | [| e]] w'];
    try reflexivity.
  rewrite bind_run.
  destruct (Z.of_nat attempt <? max_retries config - 1)%Z; reflexivity.
Qed.

(** Attempts that all fail: every one is made, and the loop ends in the
    one aggregated exception. *)
Lemma retry_loop_fails {A} config (task : Task AgentState A) attempts last w :
  always_fails config task ->
  exists last' w',
    retry_loop config task attempts last w
    = (Raised (Exception (exhausted_message config last')), w')
    /\ awaited w' = (awaited w + length attempts)%nat
    /\ (attempts = [] -> last' = str_option last).
Proof.
  intros Hf. revert last w.
  induction attempts as [| attempt rest IH]; intros last w.
  - exists (str_option last), w. rewrite retry_loop_nil, Nat.add_0_r. done.
  - rewrite retry_loop_cons. destruct (Hf w) as [e He].
    pose proof (wait_for_world task (timeout_seconds config) w) as (_ & Ha & _).
    destruct (wait_for task (timeout_seconds config) w) as [r w1].
    simpl in He, Ha. subst r. destruct e as [| msg].
    + destruct (IH (Some (timeout_message config)) w1)
        as (l & w' & -> & Hw & _).
      exists l, w'. split; [reflexivity |].
      split; [simpl length; lia | done].
    + edestruct (IH (Some ("Task failed: " +:+ msg))) as (l & w' & -> & Hw & _).
      exists l, w'. split; [reflexivity |].
      split; [| done]. rewrite Hw. simpl length.
      destruct (Z.of_nat attempt <? max_retries config - 1)%Z; simpl; lia.
Qed.

(** Attempts that all time out: no wait separates them. *)
Lemma retry_loop_timeouts {A} config (task : Task AgentState A) attempts
    last w :
  always_times_out config task ->
  exists w',
    retry_loop config task attempts last w
    = (Raised (Exception (exhausted_message config
         (match attempts with
          | [] => str_option last
          | _ => timeout_message config
          end))), w')
    /\ slept w' = slept w
    /\ awaited w' = (awaited w + length attempts)%nat
    /\ (clock w <= clock w'
        <= clock w + Z.of_nat (length attempts)
                     * Z.max 0 (seconds (timeout_seconds config)))%Z.
Proof.
  intros Ht. revert last w.
  induction attempts as [| attempt rest IH]; intros last w.
  - exists w. rewrite retry_loop_nil. simpl length. repeat split; lia.
  - rewrite retry_loop_cons. specialize (Ht w) as He.
    pose proof (wait_for_world task (timeout_seconds config) w)
      as (Hs & Ha & Hc).
    destruct (wait_for task (timeout_seconds config) w) as [r w1].
    simpl in He, Hs, Ha, Hc. subst r.
    destruct (IH (Some (timeout_message config)) w1)
      as (w' & -> & Hs' & Ha' & Hc').
    exists w'. split.
    { destruct rest; reflexivity. }
    rewrite Hs', Hs, Ha', Ha. simpl length.
    repeat split; lia.
Qed.

(** Attempts that all raise: a wait of [2^attempt] seconds follows each
    but the last configured one. *)
Lemma retry_loop_raises {A} config (task : Task AgentState A) attempts
    last w :
  always_raises config task ->
  exists w',
    (retry_loop config task attempts last w).2 = w'
    /\ slept w'
       = slept w
         ++ ((fun attempt => 2 ^ Z.of_nat attempt)%Z
             <$> filter (fun attempt =>
                           (Z.of_nat attempt < max_retries config - 1)%Z)
                        attempts)
    /\ awaited w' = (awaited w + length attempts)%nat.
Proof.
  intros Hr. revert last w.
  induction attempts as [| attempt rest IH]; intros last w.
  - exists w. rewrite retry_loop_nil. simpl.
    rewrite app_nil_r, Nat.add_0_r. done.
  - rewrite retry_loop_cons. destruct (Hr w) as [msg He].
    pose proof (wait_for_world task (timeout_seconds config) w)
      as (Hs & Ha & _).
    destruct (wait_for task (timeout_seconds config) w) as [r w1].
    simpl in He, Hs, Ha. subst r. rewrite filter_cons.
    edestruct (IH (Some ("Task failed: " +:+ msg))) as (w' & Hw & Hs' & Ha').
    exists w'. split; [exact Hw |]. rewrite Hs', Ha'.
    destruct (Z.ltb_spec (Z.of_nat attempt) (max_retries config - 1)).
    + rewrite decide_True by done. rewrite sleep_world. simpl.
      rewrite Hs, Ha, <- app_assoc. split; [reflexivity | lia].
    + rewrite decide_False by lia. rewrite Hs, Ha. simpl.
      split; [reflexivity | lia].
Qed.

Lemma filter_Forall {A} (P : A -> Prop) `{forall x, Decision (P x)}
    (l : list A) :
  Forall P l -> filter P l = l.
Proof.
  induction 1 as [| x l Hx _ IH]; [reflexivity |].
  rewrite filter_cons, decide_True by done. now rewrite IH.
Qed.

Lemma filter_range_below (n : Z) :
  filter (fun attempt => (Z.of_nat attempt < n - 1)%Z) (range n)
  = seq 0 (Z.to_nat n - 1).
Proof.
  unfold range.
  destruct (Z.to_nat n) as [| k] eqn:Hk; [reflexivity |].
  replace (S k - 1)%nat with k by lia.
  rewrite seq_S, filter_app, filter_cons, filter_nil. simpl.
  rewrite decide_False by lia. rewrite app_nil_r.
  apply filter_Forall. apply Forall_forall.
  intros a Ha%elem_of_seq. lia.
Qed.

(** The sibling path: when every attempt raises, [_execute_with_retry]
    waits 1, 2, 4, ... seconds between the attempts. *)
Lemma execute_with_retry_raises_backoff {A} config
    (task : Task AgentState A) w :
  always_raises config task ->
  slept (_execute_with_retry config task w).2
  = slept w ++ backoff_waits (max_retries config).
Proof.
  intros Hr. unfold _execute_with_retry.
  destruct (retry_loop_raises config task (range (max_retries config)) None
              w Hr) as (w' & -> & -> & _).
  now rewrite filter_range_below.
Qed.

(** *** The envelope *)

Lemma reports_only_refl w : reports_only w w.
Proof. repeat split. Qed.

Lemma reports_only_trans w1 w2 w3 :
  reports_only w1 w2 -> reports_only w2 w3 -> reports_only w1 w3.
Proof.
  intros (? & ? & ? & ? & ?) (? & ? & ? & ? & ?).
  repeat split; congruence.
Qed.

Lemma callbacks_return_reports w w' :
  reports_only w w' -> callbacks_return (self w) ->
  callbacks_return (self w').
Proof.
  intros (_ & _ & _ & Hp & He) [Hcp Hce].
  split; intros callback call Hc.
  - apply Hcp. now rewrite <- Hp.
  - apply Hce. now rewrite <- He.
Qed.

Lemma update_progress_reports config progress status current_step w :
  reports_only w (_update_progress config progress status current_step w).2.
Proof. repeat split. Qed.

Lemma emit_event_reports config event w :
  reports_only w (_emit_event config event w).2.
Proof.
  unfold _emit_event. destruct (_event_callback (self w)); repeat split.
Qed.

Lemma update_progress_returns config progress status current_step w :
  callbacks_return (self w) ->
  (_update_progress config progress status current_step w).1 = Returned tt.
Proof.
  intros [Hp _]. unfold _update_progress, progress_outcome. simpl.
  destruct (_progress_callback (self w)) as [callback |] eqn:Hc;
    [now apply Hp | reflexivity].
Qed.

Lemma emit_event_returns config event w :
  callbacks_return (self w) -> (_emit_event config event w).1 = Returned tt.
Proof.
  intros [_ He]. unfold _emit_event.
  destruct (_event_callback (self w)) as [callback |] eqn:Hc;
    [now apply He | reflexivity].
Qed.

(** A step that only reports, followed by more of the kind. *)
Lemma bind_reports {A B} (m : M AgentState A) (k : A -> M AgentState B) w :
  reports_only w (m w).2 ->
  (forall a w', reports_only w' (k a w').2) ->
  reports_only w ((m ≫= k) w).2.
Proof.
  intros Hm Hk. rewrite bind_run.
  destruct (m w) as [[a | e] w']; simpl in *; [| exact Hm].
  eapply reports_only_trans; [exact Hm | apply Hk].
Qed.

Lemma bind_returns {A B} (m : M AgentState A) (k : A -> M AgentState B) w a :
  (m w).1 = Returned a -> (m ≫= k) w = k a (m w).2.
Proof. intros H. rewrite bind_run. destruct (m w) as [r w']. simpl in H. now subst r. Qed.

Lemma execute_prelude_reports config input_data w :
  reports_only w (execute_prelude config input_data w).2.
Proof.
  unfold execute_prelude.
  apply bind_reports; [apply update_progress_reports | intros _ w1].
  apply bind_reports; [apply emit_event_reports | intros _ w2].
  apply update_progress_reports.
Qed.

Lemma execute_finish_reports config start_time w :
  reports_only w (execute_finish config start_time w).2.
Proof.
  unfold execute_finish.
  apply bind_reports; [apply update_progress_reports | intros _ w1].
  apply bind_reports; [apply reports_only_refl | intros t w2].
  apply bind_reports; [apply emit_event_reports | intros _ w3].
  apply update_progress_reports.
Qed.

Lemma execute_except_reports config start_time e w :
  reports_only w (execute_except config start_time e w).2.
Proof.
  unfold execute_except.
  apply bind_reports; [apply reports_only_refl | intros t w1].
  apply bind_reports; [apply emit_event_reports | intros _ w2].
  apply bind_reports; [apply update_progress_reports | intros _ w3].
  apply reports_only_refl.
Qed.

(** With callbacks that return, the three blocks of [execute] return. *)
Lemma execute_prelude_returns config input_data w :
  callbacks_return (self w) ->
  execute_prelude config input_data w
  = (Returned tt, (execute_prelude config input_data w).2).
Proof.
  intros Hq. unfold execute_prelude.
  pose proof (update_progress_returns config 0 "starting"
                "Initializing agent" w Hq) as H1.
  pose proof (update_progress_reports config 0 "starting"
                "Initializing agent" w) as R1.
  rewrite (bind_returns _ _ _ _ H1).
  set (w1 := (_update_progress config 0 "starting" "Initializing agent" w).2)
    in *.
  pose proof (callbacks_return_reports _ _ R1 Hq) as Hq1.
  pose proof (emit_event_returns config
                (agent_started (map_to_list input_data).*1 config) w1 Hq1)
    as H2.
  pose proof (emit_event_reports config
                (agent_started (map_to_list input_data).*1 config) w1) as R2.
  rewrite (bind_returns _ _ _ _ H2).
  set (w2 := (_emit_event config _ w1).2) in *.
  pose proof (callbacks_return_reports _ _ R2 Hq1) as Hq2.
  pose proof (update_progress_returns config 10 "processing"
                "Executing main task" w2 Hq2) as H3.
  destruct (_update_progress config 10 "processing" "Executing main task" w2)
    as [r w3]. simpl in H3. now subst r.
Qed.

Lemma execute_finish_returns config start_time w :
  callbacks_return (self w) ->
  execute_finish config start_time w
  = (Returned tt, (execute_finish config start_time w).2).
Proof.
  intros Hq. unfold execute_finish.
  pose proof (update_progress_returns config 90 "finalizing"
                "Preparing response" w Hq) as H1.
  pose proof (update_progress_reports config 90 "finalizing"
                "Preparing response" w) as R1.
  rewrite (bind_returns _ _ _ _ H1).
  set (w1 := (_update_progress config 90 "finalizing" "Preparing response"
                w).2) in *.
  pose proof (callbacks_return_reports _ _ R1 Hq) as Hq1.
  rewrite (bind_returns now _ w1 (clock w1) eq_refl).
  change (now w1).2 with w1.
  set (event := agent_completed _ true).
  pose proof (emit_event_returns config event w1 Hq1) as H2.
  pose proof (emit_event_reports config event w1) as R2.
  rewrite (bind_returns _ _ _ _ H2).
  set (w2 := (_emit_event config event w1).2) in *.
  pose proof (callbacks_return_reports _ _ R2 Hq1) as Hq2.
  pose proof (update_progress_returns config 100 "completed"
                "Task finished successfully" w2 Hq2) as H3.
  destruct (_update_progress config 100 "completed"
              "Task finished successfully" w2) as [r w3].
  simpl in H3. now subst r.
Qed.

Lemma execute_except_returns config start_time e w :
  callbacks_return (self w) ->
  execute_except config start_time e w
  = (Returned (failure_response config e
                 (total_seconds (clock w - start_time))),
     (execute_except config start_time e w).2).
Proof.
  intros Hq. unfold execute_except.
  rewrite (bind_returns now _ w (clock w) eq_refl).
  change (now w).2 with w.
  set (event := agent_failed _ _).
  pose proof (emit_event_returns config event w Hq) as H1.
  pose proof (emit_event_reports config event w) as R1.
  rewrite (bind_returns _ _ _ _ H1).
  set (w1 := (_emit_event config event w).2) in *.
  pose proof (callbacks_return_reports _ _ R1 Hq) as Hq1.
  pose proof (update_progress_returns config 100 "failed"
                ("Error: " +:+ str e) w1 Hq1) as H2.
  rewrite (bind_returns _ _ _ _ H2). reflexivity.
Qed.

(** [execute] by its blocks: the prelude, the retried call of [process]
    and the report of the success run inside the [try]; an exception of
    any of them runs the [except] block, of which nothing is caught. *)
Lemma execute_blocks (agent : BaseAgent) (input_data : dict) w :
  execute agent input_data w
  = match execute_prelude (config agent) input_data w with
    | (Raised e, w1) => execute_except (config agent) (clock w) e w1
    | (Returned _, w1) =>
        match _execute_with_retry (config agent) (process agent input_data)
                w1 with
        | (Raised e, w2) => execute_except (config agent) (clock w) e w2
        | (Returned result, w2) =>
            match execute_finish (config agent) (clock w) w2 with
            | (Raised e, w3) => execute_except (config agent) (clock w) e w3
            | (Returned _, w3) => (Returned result, w3)
            end
        end
    end.
Proof.
  unfold execute. cbv [mbind M_bind now try_except].
  destruct (execute_prelude (config agent) input_data w) as [[[] | e] w1];
    [| reflexivity].
  destruct (_execute_with_retry _ _ w1) as [[result | e] w2];
    [| reflexivity].
  destruct (execute_finish (config agent) (clock w) w2) as [[[] | e] w3];
    reflexivity.
Qed.

Lemma process_world_reports (agent : BaseAgent) (input_data : dict) w :
  reports_only w (process_world agent input_data w).
Proof. apply execute_prelude_reports. Qed.

(** [execute] with callbacks that return, by cases on what the retried
    call of [process] does. *)
Lemma execute_run (agent : BaseAgent) (input_data : dict) w :
  callbacks_return (self w) ->
  callbacks_return
    (self (_execute_with_retry (config agent) (process agent input_data)
             (process_world agent input_data w)).2) ->
  execute agent input_data w
  = match _execute_with_retry (config agent) (process agent input_data)
            (process_world agent input_data w) with
    | (Returned result, w2) =>
        (Returned result, (execute_finish (config agent) (clock w) w2).2)
    | (Raised e, w2) =>
        (Returned (failure_response (config agent) e
                     (total_seconds (clock w2 - clock w))),
         (execute_except (config agent) (clock w) e w2).2)
    end.
Proof.
  intros Hq Hq2. rewrite execute_blocks. unfold process_world in *.
  rewrite (execute_prelude_returns _ _ _ Hq).
  destruct (_execute_with_retry _ _ _) as [[result | e] w2]; simpl in Hq2.
  - now rewrite (execute_finish_returns _ _ _ Hq2).
  - now rewrite (execute_except_returns _ _ _ _ Hq2).
Qed.

Lemma execute_cases (agent : BaseAgent) (input_data : dict) w :
  callbacks_return (self w) ->
  callbacks_return
    (self (_execute_with_retry (config agent) (process agent input_data)
             (process_world agent input_data w)).2) ->
  match _execute_with_retry (config agent) (process agent input_data)
          (process_world agent input_data w) with
  | (Returned result, w2) =>
      exists w3,
        execute agent input_data w = (Returned result, w3)
        /\ clock w3 = clock w2 /\ slept w3 = slept w2
        /\ awaited w3 = awaited w2
  | (Raised e, w2) =>
      exists w3,
        execute agent input_data w
        = (Returned (failure_response (config agent) e
                       (total_seconds (clock w2 - clock w))), w3)
        /\ clock w3 = clock w2 /\ slept w3 = slept w2
        /\ awaited w3 = awaited w2
  end.
Proof.
  intros Hq Hq2. rewrite (execute_run _ _ _ Hq Hq2).
  destruct (_execute_with_retry _ _ _) as [[result | e] w2].
  - destruct (execute_finish_reports (config agent) (clock w) w2)
      as (? & ? & ? & _).
    eexists. split; [reflexivity |]. done.
  - destruct (execute_except_reports (config agent) (clock w) e w2)
      as (? & ? & ? & _).
    eexists. split; [reflexivity |]. done.
Qed.

(** C4 as the specification words it fails: the [except] block of
    [execute] calls the callbacks itself.  The sample agent with a service
    that fails at once and a progress callback that raises on the report
    of a failure: [process] is tried three times, and [execute] raises
    what the callback raised. *)
Lemma execute_raises_callback_exception :
  exists w',
    execute (TestAgent gemini_fails) ∅ strict_world
    = (Raised (Exception "unexpected status: failed"), w')
    /\ awaited w' = 3%nat
    /\ _status (self w') = "failed".
Proof.
  eexists. split.
  - apply computed_raise. vm_compute. reflexivity.
  - split; vm_compute; reflexivity.
Qed.

(** C4, as the code has it.  When the callbacks return normally,
    [execute] always returns a response, and when the retried call of
    [process] raises, with whatever exception [e], the response is the
    synthesized one: [success] false, [data] the empty mapping, [errors]
    the one message "Agent <name> failed: <str(e)>", [metadata] holding
    the agent's name and [str(e)] as the failure reason.  Whatever the
    callbacks do, a failure of the retried call ends [execute] as the
    [except] block ends, which returns that response when the event
    callback and then the progress callback return, and raises what the
    first of them raises. *)
Theorem execute_failure_envelope (agent : BaseAgent) (input_data : dict)
    (w : World AgentState) :
  let retried :=
    _execute_with_retry (config agent) (process agent input_data)
      (process_world agent input_data w) in
  (callbacks_return (self w) -> callbacks_return (self retried.2) ->
   (exists response w', execute agent input_data w = (Returned response, w'))
   /\ (forall e,
         retried.1 = Raised e ->
         exists response w',
           execute agent input_data w = (Returned response, w')
           /\ success response = false
           /\ data response = ∅
           /\ errors response
              = ["Agent " +:+ name (config agent) +:+ " failed: " +:+ str e]
           /\ errors response <> []
           /\ metadata response
              = {[ "agent_name" := PyStr (name (config agent));
                   "failure_reason" := PyStr (str e) ]}))
  /\ (forall e,
        (execute_prelude (config agent) input_data w).1 = Returned tt ->
        retried.1 = Raised e ->
        let w2 := retried.2 in
        let elapsed := total_seconds (clock w2 - clock w) in
        let failed :=
          agent_failed
            ("Agent " +:+ name (config agent) +:+ " failed: " +:+ str e)
            elapsed in
        execute agent input_data w
        = match _emit_event (config agent) failed w2 with
          | (Raised e', w3) => (Raised e', w3)
          | (Returned _, w3) =>
              match _update_progress (config agent) 100 "failed"
                      ("Error: " +:+ str e) w3 with
              | (Raised e', w4) => (Raised e', w4)
              | (Returned _, w4) =>
                  (Returned (failure_response (config agent) e elapsed), w4)
              end
          end).
Proof.
  cbv zeta. split.
  - intros Hq Hq2. pose proof (execute_cases agent input_data w Hq Hq2) as H.
    split.
    + destruct (_execute_with_retry _ _ _) as [[result | e] w2];
        destruct H as (w3 & -> & _); eauto.
    + intros e He.
      destruct (_execute_with_retry _ _ _) as [[result | e'] w2];
        simpl in He; [discriminate |]. injection He as ->.
      destruct H as (w3 & -> & _).
      eexists _, _. split; [reflexivity |]. repeat split; done.
  - intros e Hpre He. rewrite execute_blocks. unfold process_world in *.
    destruct (execute_prelude (config agent) input_data w) as [r w1].
    simpl in Hpre. subst r. simpl snd in *.
    destruct (_execute_with_retry _ _ w1) as [r w2]. simpl in He. subst r.
    simpl snd. unfold execute_except. cbv [mbind M_bind now].
    destruct (_emit_event _ _ w2) as [[[] | e'] w3]; [| reflexivity].
    destruct (_update_progress _ _ _ _ w3) as [[[] | e'] w4]; reflexivity.
Qed.

Lemma fresh_world_callbacks_return : callbacks_return (self fresh_world).
Proof. split; intros callback call [= <-]; reflexivity. Qed.

Lemma execute_failure_envelope_witness :
  exists response w',
    execute (TestAgent gemini_fails) ∅ fresh_world = (Returned response, w')
    /\ success response = false
    /\ data response = ∅
    /\ errors response
       = ["Agent test_agent failed: Task failed after 3 attempts. Last error: Task failed: quota exceeded"].
Proof.
  destruct (execute_failure_envelope (TestAgent gemini_fails) ∅ fresh_world)
    as [H _].
  destruct H as [_ H].
  { exact fresh_world_callbacks_return. }
  { split; intros callback call; vm_compute; intros [= <-]; reflexivity. }
  edestruct (H (Exception "Task failed after 3 attempts. Last error: Task failed: quota exceeded"))
    as (response & w' & He & Hs & Hd & Herr & _).
  { vm_compute. reflexivity. }
  exists response, w'. repeat split; assumption.
Defined.

(** What holds of C1 on the code: when every attempt fails and the
    callbacks return, [execute] makes [max_retries] attempts and returns
    the failure response, whose message names that number. *)
Lemma execute_exhaustion (agent : BaseAgent) (input_data : dict) w :
  callbacks_return (self w) ->
  callbacks_return
    (self (_execute_with_retry (config agent) (process agent input_data)
             (process_world agent input_data w)).2) ->
  always_fails (config agent) (process agent input_data) ->
  exists last response w',
    execute agent input_data w = (Returned response, w')
    /\ success response = false
    /\ errors response
       = ["Agent " +:+ name (config agent) +:+ " failed: "
          +:+ "Task failed after " +:+ pretty (max_retries (config agent))
          +:+ " attempts. Last error: " +:+ last]
    /\ awaited w' = (awaited w + Z.to_nat (max_retries (config agent)))%nat.
Proof.
  intros Hq Hq2 Hf. pose proof (execute_cases agent input_data w Hq Hq2) as H.
  unfold _execute_with_retry in H.
  destruct (retry_loop_fails (config agent) (process agent input_data)
              (range (max_retries (config agent))) None
              (process_world agent input_data w) Hf)
    as (last & w2 & E & Ha & _).
  rewrite E in H. destruct H as (w3 & -> & _ & _ & Ha3).
  exists last. eexists _, _. split; [reflexivity |].
  split; [reflexivity |]. split; [reflexivity |].
  rewrite Ha3, Ha. unfold range. rewrite length_seq.
  destruct (process_world_reports agent input_data w) as (_ & _ & -> & _).
  reflexivity.
Qed.

(** C1 on the code, for the sample agent and a service that never
    replies: three attempts of 120 seconds each are made and the failure
    response names the 3 attempts; but no wait separates the attempts,
    where the specification asks for waits of 1 and 2 seconds. *)
Theorem retry_exhaustion_on_timeouts :
  exists response w',
    execute (TestAgent gemini_hangs) ∅ fresh_world = (Returned response, w')
    /\ success response = false
    /\ errors response
       = ["Agent test_agent failed: Task failed after 3 attempts. Last error: Task timed out after 120 seconds"]
    /\ awaited w' = 3%nat
    /\ clock w' = seconds (3 * 120)
    /\ slept w' = []
    /\ backoff_waits (max_retries TestAgent_config) = [1; 2]%Z.
Proof.
  eexists _, _. split.
  - apply (computed_return (failure_response TestAgent_config TimeoutError 0)).
    vm_compute. reflexivity.
  - repeat split; vm_compute; reflexivity.
Qed.

(** The sibling path on the same agent: a service that fails at once is
    retried after waits of 1 and 2 seconds. *)
Lemma retry_exhaustion_on_exceptions :
  slept (execute (TestAgent gemini_fails) ∅ fresh_world).2 = [1; 2]%Z.
Proof. vm_compute. reflexivity. Qed.

(** C3 on the code, for the sample agent and a service that replies
    after two seconds: [execute] measures two seconds and reports them in
    the [agent_completed] event, but the response it returns is the one
    [process] made, whose [processing_time] is still the 0.0 that
    [process] put there. *)
Theorem execute_keeps_process_time :
  exists response w',
    execute (TestAgent gemini_replies) ∅ fresh_world
    = (Returned response, w')
    /\ success response = true
    /\ processing_time response = 0%Q
    /\ (clock w' - clock fresh_world)%Z = seconds 2
    /\ last (event_calls (self w'))
       = Some {| ev_agent_name := "test_agent";
                 ev_event := agent_completed (total_seconds (seconds 2)) true;
                 ev_timestamp := seconds 2 |}
    /\ ~ (processing_time response == total_seconds (seconds 2))%Q.
Proof.
  eexists _, _. split.
  - apply (computed_return (failure_response TestAgent_config TimeoutError 0)).
    vm_compute. reflexivity.
  - repeat split; vm_compute; try reflexivity.
    intros H. discriminate H.
Qed.

(** In general [execute] hands on what the retried [process] returned,
    untouched, when the callbacks return. *)
Lemma execute_returns_process_response (agent : BaseAgent)
    (input_data : dict) w result w2 :
  callbacks_return (self w) ->
  callbacks_return (self w2) ->
  _execute_with_retry (config agent) (process agent input_data)
    (process_world agent input_data w) = (Returned result, w2) ->
  (execute agent input_data w).1 = Returned result.
Proof.
  intros Hq Hq2 E. pose proof (execute_cases agent input_data w Hq) as H.
  rewrite E in H. destruct (H Hq2) as (w3 & -> & _). reflexivity.
Qed.

End AgentFacts.
(* ================================================================== *)
(** ** More properties of the strings *)
(* ================================================================== *)

Module PyStringMore.
Import PyString PyStringFacts.

Lemma append_cons (x : ascii) (a b : string) :
  String x a +:+ b = String x (a +:+ b).
Proof. reflexivity. Qed.

Lemma append_nil_l (b : string) : "" +:+ b = b.
Proof. reflexivity. Qed.

Lemma append_assoc (a b c : string) : (a +:+ b) +:+ c = a +:+ (b +:+ c).
Proof.
  induction a as [| x a IH]; rewrite ?append_nil_l, ?append_cons;
    [reflexivity | now f_equal].
Qed.

Lemma append_nil_r (a : string) : a +:+ "" = a.
Proof.
  induction a as [| x a IH]; rewrite ?append_nil_l, ?append_cons;
    [reflexivity | now f_equal].
Qed.

Lemma length_append (a b : string) :
  String.length (a +:+ b) = (String.length a + String.length b)%nat.
Proof.
  induction a as [| x a IH]; rewrite ?append_nil_l, ?append_cons; simpl;
    [reflexivity | now rewrite IH].
Qed.

Lemma startswith_self (p b : string) : startswith p (p +:+ b) = true.
Proof. apply startswith_spec. now exists b. Qed.

(** A prefix no longer than [x] is looked for in [x] alone. *)
Lemma startswith_app_long (p x y : string) :
  (String.length p <= String.length x)%nat ->
  startswith p (x +:+ y) = startswith p x.
Proof.
  revert x. induction p as [| a p IH]; intros x Hlen; [reflexivity |].
  destruct x as [| b x]; [simpl in Hlen; lia |].
  rewrite append_cons. cbn [startswith].
  destruct (Ascii.eqb a b); [| reflexivity]. simpl.
  apply IH. simpl in Hlen. lia.
Qed.

(** A non-empty string is its [but_last] and its last character. *)
Lemma but_last_split (s : string) :
  s <> "" -> exists c, s = but_last s +:+ String c "" /\
                  String.length (but_last s) = (String.length s - 1)%nat.
Proof.
  induction s as [| a s IH]; [done |]. intros _.
  destruct s as [| b s].
  - exists a. done.
  - destruct IH as (c & Hc & Hlen); [done |].
    exists c. change (but_last (String a (String b s)))
      with (String a (but_last (String b s))).
    rewrite append_cons, <- Hc. split; [reflexivity |].
    simpl String.length in *. lia.
Qed.

(** After an occurrence has been found, the characters of it still to be
    passed over are skipped. *)
Lemma split_from_skip (sep x b : string) :
  split_from sep (x +:+ b) (String.length x) = split_from sep b 0.
Proof.
  induction x as [| c x IH]; rewrite ?append_nil_l, ?append_cons;
    [reflexivity | exact IH].
Qed.

(** Splitting at the first occurrence. *)
Lemma split_first (sep a b : string) :
  sep <> "" ->
  first_after sep a = true ->
  split sep (a +:+ sep +:+ b) = a :: split sep b.
Proof.
  intros Hne Hfirst. unfold first_after in Hfirst.
  apply negb_true_iff in Hfirst. unfold split.
  destruct (but_last_split sep Hne) as (c & Hsep & Hlen).
  assert (Hcut : sep +:+ b = but_last sep +:+ String c b).
  { rewrite Hsep at 1. now rewrite append_assoc. }
  induction a as [| x a IH].
  - clear Hfirst. destruct sep as [| s0 sep']; [done |].
    change ("" +:+ String s0 sep' +:+ b) with (String s0 (sep' +:+ b)).
    cbn [split_from].
    change (String s0 (sep' +:+ b)) with (String s0 sep' +:+ b).
    rewrite startswith_self.
    replace (String.length (String s0 sep') - 1)%nat
      with (String.length sep') by (simpl; lia).
    now rewrite split_from_skip.
  - change (String x a +:+ but_last sep)
      with (String x (a +:+ but_last sep)) in Hfirst.
    cbn [contains] in Hfirst.
    apply orb_false_iff in Hfirst as [Hhere Hlater].
    change (String x a +:+ sep +:+ b) with (String x (a +:+ sep +:+ b)).
    cbn [split_from].
    assert (Hno : startswith sep (String x (a +:+ sep +:+ b)) = false).
    { rewrite <- Hhere.
      change (String x (a +:+ sep +:+ b)) with (String x a +:+ (sep +:+ b)).
      rewrite Hcut, <- append_assoc.
      apply startswith_app_long.
      rewrite ?append_cons. cbn [String.length].
      rewrite length_append, Hlen. lia. }
    rewrite Hno, (IH Hlater). reflexivity.
Qed.

Lemma contains_app_false (sep x y : string) :
  contains sep (x +:+ y) = false -> contains sep y = false.
Proof.
  induction x as [| c x IH]; [done |].
  rewrite append_cons. cbn [contains].
  intros [_ H]%orb_false_iff. exact (IH H).
Qed.

Lemma contains_middle (sep a b : string) :
  contains sep (a +:+ sep +:+ b) = true.
Proof. apply contains_occurs. now exists a, b. Qed.

Lemma space_not_digit (c : ascii) : isspace c = true -> isdigit c = false.
Proof.
  unfold isspace, isdigit. generalize (nat_of_ascii c). intros n.
  rewrite orb_true_iff, !andb_true_iff, andb_false_iff, !Nat.leb_le,
    !Nat.leb_gt.
  lia.
Qed.

Lemma digits_of_lstrip (s : string) : digits_of (lstrip s) = digits_of s.
Proof.
  induction s as [| c s IH]; [reflexivity |]. cbn [lstrip digits_of].
  destruct (isspace c) eqn:Hc; [| reflexivity].
  now rewrite (space_not_digit c Hc).
Qed.

Lemma digits_of_rstrip (s : string) : digits_of (rstrip s) = digits_of s.
Proof.
  induction s as [| c s IH]; [reflexivity |]. cbn [rstrip digits_of].
  rewrite <- IH. destruct (rstrip s) as [| c' r]; [| reflexivity].
  destruct (isspace c) eqn:Hc; [| reflexivity].
  now rewrite (space_not_digit c Hc).
Qed.

Lemma digits_of_strip (s : string) : digits_of (strip s) = digits_of s.
Proof. unfold strip. now rewrite digits_of_rstrip, digits_of_lstrip. Qed.

Lemma decimal_value_digits (s : string) (acc : Z) :
  (0 <= acc)%Z -> (0 <= decimal_value (digits_of s) acc)%Z.
Proof.
  revert acc. induction s as [| c s IH]; intros acc Hacc; [exact Hacc |].
  cbn [digits_of]. destruct (isdigit c) eqn:Hc; [| now apply IH].
  cbn [decimal_value]. apply IH.
  unfold isdigit in Hc. apply andb_true_iff in Hc as [Hlo _].
  apply Nat.leb_le in Hlo. lia.
Qed.

End PyStringMore.

(* ================================================================== *)
(** ** More properties of the agent envelope *)
(* ================================================================== *)

Module AgentMore.
Import PyString Async Agent PyStringFacts PyStringMore AsyncFacts AgentFacts.

(** *** Parsing, in general *)

Lemma is_step_line_nonempty (line : string) :
  is_step_line line = true -> line <> "".
Proof. now destruct line. Qed.

Lemma reasoning_steps_nonempty (reasoning_part : string) :
  Forall (fun step => step <> "") (reasoning_steps_of reasoning_part).
Proof.
  unfold reasoning_steps_of. apply Forall_forall.
  intros step [Hstep _]%list_elem_of_filter.
  now apply is_step_line_nonempty.
Qed.

Lemma capped_range (confidence : Q) :
  (0 <= confidence)%Q ->
  (0 <= (if Qle_bool confidence 100 then confidence else 100%Q) <= 100)%Q.
Proof.
  intros H. destruct (Qle_bool confidence 100) eqn:E.
  - apply Qle_bool_iff in E. now split.
  - split; [discriminate | apply Qle_refl].
Qed.

Lemma parse_structured_shape (part : string) (d : dict) :
  parse_structured part = Some d ->
  exists response steps confidence,
    d = {[ "response" := PyStr response;
           "reasoning_steps" := PyList (PyStr <$> steps);
           "confidence" := PyFloat confidence ]}
    /\ (0 <= confidence <= 100)%Q
    /\ Forall (fun step => step <> "") steps.
Proof.
  unfold parse_structured.
  destruct (split "RESPONSE:" part !! 1%nat) as [after |]; [| discriminate].
  cbn [mbind option_bind].
  destruct (if contains "CONFIDENCE:" part
            then strip <$> split "CONFIDENCE:" part !! 1%nat
            else Some "80") as [confidence_part |]; [| discriminate].
  cbn [mbind option_bind].
  assert (Hc : forall confidence,
             (0 <= confidence)%Q ->
             Some ({[ "response" := PyStr (strip (default EmptyString (head (split "CONFIDENCE:" after))));
                      "reasoning_steps" := PyList (PyStr <$> reasoning_steps_of (strip (default EmptyString (head (split "RESPONSE:" part)))));
                      "confidence" := PyFloat (if Qle_bool confidence 100 then confidence else 100%Q) ]} : dict) = Some d ->
             exists response steps confidence,
               d = {[ "response" := PyStr response;
                      "reasoning_steps" := PyList (PyStr <$> steps);
                      "confidence" := PyFloat confidence ]}
               /\ (0 <= confidence <= 100)%Q
               /\ Forall (fun step => step <> "") steps).
  { intros confidence Hpos [= <-]. eexists _, _, _.
    split; [reflexivity |]. split; [now apply capped_range |].
    apply reasoning_steps_nonempty. }
  destruct confidence_part as [| c0 rest].
  - apply Hc. discriminate.
  - destruct (digits_of (String c0 rest)) as [| d0 ds] eqn:Hd;
      [discriminate |].
    apply Hc. rewrite <- Hd.
    change 0%Q with (inject_Z 0). rewrite <- Zle_Qle.
    now apply decimal_value_digits.
Qed.

(** X15: the parser always answers with the three fields, a confidence
    between 0 and 100 and no empty reasoning step. *)
Theorem parse_reasoning_response_shape (raw_response : string) :
  exists response steps confidence,
    _parse_reasoning_response raw_response
    = {[ "response" := PyStr response;
         "reasoning_steps" := PyList (PyStr <$> steps);
         "confidence" := PyFloat confidence ]}
    /\ (0 <= confidence <= 100)%Q
    /\ Forall (fun step => step <> "") steps.
Proof.
  unfold _parse_reasoning_response.
  assert (Hfallback : exists response steps confidence,
             fallback_response raw_response
             = {[ "response" := PyStr response;
                  "reasoning_steps" := PyList (PyStr <$> steps);
                  "confidence" := PyFloat confidence ]}
             /\ (0 <= confidence <= 100)%Q
             /\ Forall (fun step => step <> "") steps).
  { exists raw_response, ["Direct response without structured reasoning"], 70%Q.
    split; [reflexivity |]. split; [split; discriminate |].
    repeat constructor. discriminate. }
  destruct (split "REASONING:" raw_response) as [| p0 [| part rest]];
    [exact Hfallback | exact Hfallback |].
  destruct (parse_structured part) as [d |] eqn:Hp.
  - exact (parse_structured_shape part d Hp).
  - exists raw_response, ["Parsing failed, using raw response"], 60%Q.
    split; [reflexivity |]. split; [split; discriminate |].
    repeat constructor. discriminate.
Qed.

Lemma digits_nonempty (s : string) : digits_of s <> "" -> s <> "".
Proof. now destruct s. Qed.

(** X16: a response in the format the prompt asks for is taken apart into its
    three parts. *)
Theorem parse_structured_response (a r p c : string) :
  first_after "REASONING:" a = true ->
  contains "REASONING:" (r +:+ "RESPONSE:" +:+ p +:+ "CONFIDENCE:" +:+ c)
  = false ->
  first_after "RESPONSE:" r = true ->
  contains "RESPONSE:" (p +:+ "CONFIDENCE:" +:+ c) = false ->
  first_after "CONFIDENCE:" (r +:+ "RESPONSE:" +:+ p) = true ->
  contains "CONFIDENCE:" c = false ->
  digits_of c <> "" ->
  _parse_reasoning_response
    (a +:+ "REASONING:" +:+ r +:+ "RESPONSE:" +:+ p +:+ "CONFIDENCE:" +:+ c)
  = {[ "response" := PyStr (strip p);
       "reasoning_steps" := PyList (PyStr <$> reasoning_steps_of (strip r));
       "confidence" :=
         PyFloat (let confidence := inject_Z (decimal_value (digits_of c) 0) in
                  if Qle_bool confidence 100 then confidence else 100%Q) ]}.
Proof.
  intros Ha Hrest Hr Hp Hrp Hc Hd.
  unfold _parse_reasoning_response.
  rewrite (split_first "REASONING:" a _ ltac:(done) Ha).
  rewrite (split_absent _ _ Hrest).
  set (part := r +:+ "RESPONSE:" +:+ p +:+ "CONFIDENCE:" +:+ c).
  assert (Hparse : parse_structured part
    = Some {[ "response" := PyStr (strip p);
       "reasoning_steps" := PyList (PyStr <$> reasoning_steps_of (strip r));
       "confidence" :=
         PyFloat (let confidence := inject_Z (decimal_value (digits_of c) 0) in
                  if Qle_bool confidence 100 then confidence else 100%Q) ]});
    [| now rewrite Hparse].
  unfold parse_structured, part.
  rewrite (split_first "RESPONSE:" r _ ltac:(done) Hr).
  rewrite (split_absent _ _ Hp).
  cbn [lookup list_lookup head default mbind option_bind].
  assert (Hp' : first_after "CONFIDENCE:" p = true).
  { unfold first_after in *. apply negb_true_iff in Hrp.
    apply negb_true_iff.
    apply (contains_app_false _ (r +:+ "RESPONSE:")).
    rewrite !append_assoc in Hrp. rewrite !append_assoc. exact Hrp. }
  rewrite (split_first "CONFIDENCE:" p _ ltac:(done) Hp').
  cbn [head default].
  replace (r +:+ "RESPONSE:" +:+ p +:+ "CONFIDENCE:" +:+ c)
    with ((r +:+ "RESPONSE:" +:+ p) +:+ "CONFIDENCE:" +:+ c)
    by now rewrite !append_assoc.
  rewrite contains_middle.
  rewrite (split_first "CONFIDENCE:" _ _ ltac:(done) Hrp).
  rewrite (split_absent _ _ Hc).
  cbn [lookup list_lookup fmap option_fmap option_map mbind option_bind].
  rewrite <- (digits_of_strip c) in Hd |- *.
  pose proof (digits_nonempty _ Hd) as Hne.
  destruct (strip c) as [| c0 rest]; [done |].
  destruct (digits_of (String c0 rest)); [done |].
  reflexivity.
Qed.

Lemma parse_structured_response_witness :
  _parse_reasoning_response
    ("Sure." +:+ "REASONING:" +:+ " 1. think " +:+ "RESPONSE:" +:+ " done "
     +:+ "CONFIDENCE:" +:+ " 9.5%")
  = {[ "response" := PyStr "done";
       "reasoning_steps" := PyList [PyStr "1. think"];
       "confidence" := PyFloat 95%Q ]}.
Proof.
  apply (parse_structured_response "Sure." " 1. think " " done " " 9.5%");
    (reflexivity || discriminate).
Defined.

(** X17: a structured response that lacks its "RESPONSE:" marker is a parsing
    failure: the raw text comes back with the confidence 60, below the 70
    of a text without any structure. *)
Theorem parse_missing_response_marker (a b : string) :
  first_after "REASONING:" a = true ->
  contains "REASONING:" b = false ->
  contains "RESPONSE:" b = false ->
  let raw_response := a +:+ "REASONING:" +:+ b in
  _parse_reasoning_response raw_response
  = {[ "response" := PyStr raw_response;
       "reasoning_steps" := PyList [PyStr "Parsing failed, using raw response"];
       "confidence" := PyFloat 60%Q ]}
  /\ _parse_reasoning_response raw_response !! "confidence"
     <> fallback_response raw_response !! "confidence".
Proof.
  intros Ha Hb Hr raw_response.
  assert (H : _parse_reasoning_response raw_response
              = failed_response raw_response).
  { unfold _parse_reasoning_response, raw_response.
    rewrite (split_first "REASONING:" a _ ltac:(done) Ha).
    rewrite (split_absent _ _ Hb).
    unfold parse_structured. rewrite (split_absent _ _ Hr). reflexivity. }
  rewrite H. split; [reflexivity |]. discriminate.
Qed.

Lemma parse_missing_response_marker_witness :
  _parse_reasoning_response ("REASONING:" +:+ " 1. think, then answer")
  = {[ "response" := PyStr ("REASONING:" +:+ " 1. think, then answer");
       "reasoning_steps" := PyList [PyStr "Parsing failed, using raw response"];
       "confidence" := PyFloat 60%Q ]}.
Proof.
  apply (parse_missing_response_marker "" " 1. think, then answer");
    reflexivity.
Defined.

(** *** Retrying, in general *)

Lemma seconds_add (x y : Z) : seconds (x + y) = (seconds x + seconds y)%Z.
Proof. unfold seconds. lia. Qed.

Lemma retry_loop_bounds {A} config (task : Task AgentState A) attempts
    last w :
  let run := retry_loop config task attempts last w in
  (exists waits,
     slept run.2 = slept w ++ waits
     /\ waits `sublist_of`
          ((fun attempt => 2 ^ Z.of_nat attempt)%Z
           <$> filter (fun attempt =>
                         (Z.of_nat attempt < max_retries config - 1)%Z)
                      attempts)
     /\ (clock w <= clock run.2
         <= clock w
            + Z.of_nat (length attempts)
              * Z.max 0 (seconds (timeout_seconds config))
            + seconds (foldr Z.add 0 waits))%Z)
  /\ match run.1 with
     | Returned _ =>
         (awaited w < awaited run.2 <= awaited w + length attempts)%nat
     | Raised e =>
         awaited run.2 = (awaited w + length attempts)%nat
         /\ exists last', e = Exception (exhausted_message config last')
     end.
Proof.
  revert last w. induction attempts as [| attempt rest IH]; intros last w.
  - cbv zeta. rewrite retry_loop_nil. cbn [fst snd length]. split.
    + exists []. rewrite app_nil_r. split; [reflexivity |].
      split; [constructor |]. unfold seconds. simpl. lia.
    + split; [lia | eauto].
  - cbv zeta. rewrite retry_loop_cons.
    pose proof (wait_for_world task (timeout_seconds config) w)
      as (Hs & Ha & Hc).
    set (T := Z.max 0 (seconds (timeout_seconds config))) in *.
    assert (0 <= T)%Z by (unfold T; lia).
    clearbody T.
    assert (0 <= Z.of_nat (length rest) * T)%Z by nia.
    replace (Z.of_nat (length (attempt :: rest)) * T)%Z
      with (T + Z.of_nat (length rest) * T)%Z by (simpl length; nia).
    rewrite filter_cons.
    destruct (wait_for task (timeout_seconds config) w) as [[r | [| msg]] w1];
      cbn [fst snd] in Hs, Ha, Hc |- *.
    + split.
      * exists []. rewrite app_nil_r. split; [exact Hs |].
        split; [apply sublist_nil_l |]. unfold seconds. simpl. lia.
      * simpl length. lia.
    + destruct (IH (Some (timeout_message config)) w1)
        as [(waits & Hs' & Hsub & Hc') Hout].
      cbv zeta in Hs', Hc', Hout. split.
      * exists waits. rewrite Hs', Hs. split; [reflexivity |].
        split; [| lia].
        destruct (decide (Z.of_nat attempt < max_retries config - 1)%Z);
          [rewrite fmap_cons; now apply sublist_cons | exact Hsub].
      * destruct (retry_loop config task rest _ w1).1;
          simpl length; [lia |].
        destruct Hout as [-> Hl]. split; [lia | exact Hl].
    + destruct (Z.ltb_spec (Z.of_nat attempt) (max_retries config - 1)).
      * rewrite decide_True by done. rewrite sleep_world. cbn [snd].
        destruct (IH (Some ("Task failed: " +:+ msg))
                    (mkWorld (clock w1 + Z.max 0 (seconds (2 ^ Z.of_nat attempt)))
                       (slept w1 ++ [(2 ^ Z.of_nat attempt)%Z]) (awaited w1)
                       (self w1)))
          as [(waits & Hs' & Hsub & Hc') Hout].
        cbv zeta in Hs', Hc', Hout. cbn [clock slept awaited] in Hs', Hc', Hout.
        assert (0 < 2 ^ Z.of_nat attempt)%Z by (apply Z.pow_pos_nonneg; lia).
        split.
        -- exists (2 ^ Z.of_nat attempt :: waits)%Z.
           split; [now rewrite Hs', Hs, <- app_assoc |].
           split; [rewrite fmap_cons; now apply sublist_skip |].
           cbn [foldr]. rewrite seconds_add.
           unfold seconds in *. lia.
        -- match goal with
           | |- match ?x with _ => _ end => destruct x
           end; simpl length; [lia |].
           destruct Hout as [-> Hl]. split; [lia | exact Hl].
      * rewrite decide_False by lia.
        destruct (IH (Some ("Task failed: " +:+ msg)) w1)
          as [(waits & Hs' & Hsub & Hc') Hout].
        cbv zeta in Hs', Hc', Hout. split.
        -- exists waits. rewrite Hs', Hs. split; [reflexivity |].
           split; [exact Hsub | lia].
        -- destruct (retry_loop config task rest _ w1).1;
             simpl length; [lia |].
           destruct Hout as [-> Hl]. split; [lia | exact Hl].
Qed.

Lemma sum_sublist (l1 l2 : list Z) :
  l1 `sublist_of` l2 -> Forall (fun x => 0 <= x)%Z l2 ->
  (0 <= foldr Z.add 0 l1 <= foldr Z.add 0 l2)%Z.
Proof.
  induction 1 as [| x l1 l2 _ IH | x l1 l2 _ IH]; intros Hpos.
  - simpl. lia.
  - apply Forall_cons in Hpos as [Hx Hl]. specialize (IH Hl). simpl. lia.
  - apply Forall_cons in Hpos as [Hx Hl]. specialize (IH Hl). simpl. lia.
Qed.

Lemma sum_powers (k : nat) :
  foldr Z.add 0%Z ((fun attempt => 2 ^ Z.of_nat attempt)%Z <$> seq 0 k)
  = (2 ^ Z.of_nat k - 1)%Z.
Proof.
  induction k as [| k IH]; [reflexivity |].
  rewrite seq_S, fmap_app, foldr_app. simpl.
  assert (forall (l : list Z) (x : Z),
             foldr Z.add x l = (foldr Z.add 0 l + x)%Z) as Hshift.
  { induction l as [| y l IHl]; intros x; simpl; [lia |].
    rewrite IHl. lia. }
  rewrite Hshift, IH.
  replace (Z.of_nat (S k)) with (Z.succ (Z.of_nat k)) by lia.
  rewrite Z.pow_succ_r by lia. lia.
Qed.

Lemma backoff_waits_sum (n : Z) :
  foldr Z.add 0%Z (backoff_waits n) = (2 ^ Z.max 0 (n - 1) - 1)%Z.
Proof.
  unfold backoff_waits. rewrite sum_powers. do 2 f_equal. lia.
Qed.

Lemma backoff_waits_positive (n : Z) :
  Forall (fun x => 0 <= x)%Z (backoff_waits n).
Proof.
  unfold backoff_waits. apply Forall_fmap, Forall_forall. intros k _.
  simpl. apply Z.pow_nonneg. lia.
Qed.

(** The resources [_execute_with_retry] uses, whatever the task does. *)
Lemma execute_with_retry_resources {A} config (task : Task AgentState A)
    (w : World AgentState) :
  let run := _execute_with_retry config task w in
  let n := max_retries config in
  (exists waits,
     slept run.2 = slept w ++ waits
     /\ waits `sublist_of` backoff_waits n)
  /\ (clock w <= clock run.2
      <= clock w + Z.max 0 n * Z.max 0 (seconds (timeout_seconds config))
         + seconds (2 ^ Z.max 0 (n - 1) - 1))%Z
  /\ (awaited w <= awaited run.2 <= awaited w + Z.to_nat n)%nat.
Proof.
  cbv zeta. unfold _execute_with_retry.
  destruct (retry_loop_bounds config task (range (max_retries config)) None w)
    as [(waits & Hs & Hsub & Hc) Hout].
  cbv zeta in Hs, Hc, Hout. rewrite filter_range_below in Hsub.
  fold (backoff_waits (max_retries config)) in Hsub.
  unfold range in *. rewrite length_seq in Hc, Hout.
  split; [eauto |]. split.
  - pose proof (sum_sublist _ _ Hsub (backoff_waits_positive _)) as Hsum.
    rewrite backoff_waits_sum in Hsum.
    replace (Z.max 0 (max_retries config))
      with (Z.of_nat (Z.to_nat (max_retries config))) by lia.
    set (total := (Z.of_nat (Z.to_nat (max_retries config))
                   * Z.max 0 (seconds (timeout_seconds config)))%Z) in *.
    clearbody total. unfold seconds in *. lia.
  - destruct (retry_loop config task _ None w).1; [lia |].
    destruct Hout as [-> _]. lia.
Qed.

(** X18: whatever the task does, [_execute_with_retry] awaits it at most
    [max_retries] times, sleeps only waits of the backoff series, in
    order, and ends within [max_retries] timeouts and the sum of the
    series; it returns only what an attempt returned, and it raises only
    after the last attempt and only the one aggregated exception. *)
Theorem execute_with_retry_bounds {A} config (task : Task AgentState A)
    (w : World AgentState) :
  let run := _execute_with_retry config task w in
  let n := max_retries config in
  (exists waits,
     slept run.2 = slept w ++ waits
     /\ waits `sublist_of` backoff_waits n)
  /\ (clock w <= clock run.2
      <= clock w + Z.max 0 n * Z.max 0 (seconds (timeout_seconds config))
         + seconds (2 ^ Z.max 0 (n - 1) - 1))%Z
  /\ match run.1 with
     | Returned _ =>
         (awaited w < awaited run.2 <= awaited w + Z.to_nat n)%nat
     | Raised e =>
         awaited run.2 = (awaited w + Z.to_nat n)%nat
         /\ exists last, e = Exception (exhausted_message config last)
     end.
Proof.
  cbv zeta.
  destruct (execute_with_retry_resources config task w) as (Hs & Hc & _).
  split; [exact Hs |]. split; [exact Hc |].
  unfold _execute_with_retry.
  destruct (retry_loop_bounds config task (range (max_retries config)) None w)
    as [_ Hout].
  cbv zeta in Hout. unfold range in *. rewrite length_seq in Hout.
  exact Hout.
Qed.

(** *** The envelope, in general *)

Lemma process_world_frame (agent : BaseAgent) (input_data : dict) w :
  clock (process_world agent input_data w) = clock w
  /\ slept (process_world agent input_data w) = slept w
  /\ awaited (process_world agent input_data w) = awaited w.
Proof.
  destruct (process_world_reports agent input_data w) as (? & ? & ? & _).
  done.
Qed.

(** The state the report of a success ends in, when it returns. *)
Lemma execute_finish_state config start_time w :
  let run := execute_finish config start_time w in
  let s := self run.2 in
  run.1 = Returned tt ->
  _progress s = 100%Z
  /\ _status s = "completed"
  /\ _current_step s = "Task finished successfully"
  /\ (is_Some (_event_callback s) ->
      last (event_calls s)
      = Some {| ev_agent_name := name config;
                ev_event :=
                  agent_completed (total_seconds (clock w - start_time)) true;
                ev_timestamp := clock w |})
  /\ (is_Some (_progress_callback s) ->
      last (progress_calls s)
      = Some (progress_call config 100 "completed"
                "Task finished successfully")).
Proof.
  cbv zeta. unfold execute_finish, _update_progress, _emit_event.
  cbv [mbind M_bind now]. cbn [self update_self].
  destruct (progress_outcome config 90 _ _ (self w)) as [[] | e];
    [| discriminate].
  cbn [update_progress_state _event_callback _progress_callback clock].
  destruct (_event_callback (self w)) as [callback |] eqn:He.
  - destruct (callback _) as [[] | e]; [| discriminate].
    unfold progress_outcome. cbn.
    destruct (_progress_callback (self w)) as [pcallback |] eqn:Hp.
    + intros _. repeat split; intros _; apply last_snoc.
    + intros _. repeat split; [intros _; apply last_snoc |].
      intros [? H]. discriminate H.
  - unfold progress_outcome. cbn. rewrite He.
    destruct (_progress_callback (self w)) as [pcallback |] eqn:Hp.
    + intros _. repeat split; [| intros _; apply last_snoc].
      intros [? H]. discriminate H.
    + intros _. repeat split; intros [? H]; discriminate H.
Qed.

(** The state the [except] block ends in, when it returns. *)
Lemma execute_except_state config start_time e w :
  let run := execute_except config start_time e w in
  let s := self run.2 in
  has_returned run.1 = true ->
  _progress s = 100%Z
  /\ _status s = "failed"
  /\ _current_step s = "Error: " +:+ str e
  /\ (is_Some (_event_callback s) ->
      last (event_calls s)
      = Some {| ev_agent_name := name config;
                ev_event :=
                  agent_failed
                    ("Agent " +:+ name config +:+ " failed: " +:+ str e)
                    (total_seconds (clock w - start_time));
                ev_timestamp := clock w |})
  /\ (is_Some (_progress_callback s) ->
      last (progress_calls s)
      = Some (progress_call config 100 "failed" ("Error: " +:+ str e))).
Proof.
  cbv zeta. unfold execute_except, _update_progress, _emit_event.
  cbv [mbind M_bind now mret M_ret]. cbn [self update_self].
  destruct (_event_callback (self w)) as [callback |] eqn:He.
  - destruct (callback _) as [[] | e']; [| discriminate].
    unfold progress_outcome. cbn.
    destruct (_progress_callback (self w)) as [pcallback |] eqn:Hp.
    + destruct (pcallback _) as [[] | e']; [| discriminate].
      intros _. cbn. rewrite He, Hp.
      repeat split; intros _; apply last_snoc.
    + intros _. cbn. rewrite He, Hp.
      repeat split; [intros _; apply last_snoc |].
      intros [? H]. discriminate H.
  - unfold progress_outcome. cbn.
    destruct (_progress_callback (self w)) as [pcallback |] eqn:Hp.
    + destruct (pcallback _) as [[] | e']; [| discriminate].
      intros _. cbn. rewrite He, Hp.
      repeat split; [| intros _; apply last_snoc].
      intros [? H]. discriminate H.
    + intros _. cbn. rewrite He, Hp.
      repeat split; intros [? H]; discriminate H.
Qed.

(** X19: with callbacks that return normally, [execute] ends at 100
    percent, "completed" when the retried [process] returned and "failed"
    when it raised; a progress callback that is set gets that state as
    its last call, and an event callback that is set gets
    [agent_completed] or [agent_failed] as its last event, stamped with
    the time [execute] ends at and carrying the measured duration, which
    the failure response carries too. *)
Theorem execute_final_status (agent : BaseAgent) (input_data : dict)
    (w : World AgentState) :
  let retried :=
    _execute_with_retry (config agent) (process agent input_data)
      (process_world agent input_data w) in
  let run := execute agent input_data w in
  let elapsed := total_seconds (clock run.2 - clock w) in
  let s := self run.2 in
  callbacks_return (self w) ->
  callbacks_return (self retried.2) ->
  _progress s = 100%Z
  /\ match retried.1 with
     | Returned result =>
         run.1 = Returned result
         /\ _status s = "completed"
         /\ _current_step s = "Task finished successfully"
         /\ (is_Some (_event_callback s) ->
             last (event_calls s)
             = Some {| ev_agent_name := name (config agent);
                       ev_event := agent_completed elapsed true;
                       ev_timestamp := clock run.2 |})
     | Raised e =>
         run.1 = Returned (failure_response (config agent) e elapsed)
         /\ _status s = "failed"
         /\ _current_step s = "Error: " +:+ str e
         /\ (is_Some (_event_callback s) ->
             last (event_calls s)
             = Some {| ev_agent_name := name (config agent);
                       ev_event :=
                         agent_failed
                           ("Agent " +:+ name (config agent) +:+ " failed: "
                            +:+ str e) elapsed;
                       ev_timestamp := clock run.2 |})
     end
  /\ (is_Some (_progress_callback s) ->
      last (progress_calls s)
      = Some {| pc_agent_name := name (config agent);
                pc_progress := 100;
                pc_status := _status s;
                pc_current_step := _current_step s |}).
Proof.
  cbv zeta. intros Hq Hq2. rewrite (execute_run _ _ _ Hq Hq2).
  destruct (_execute_with_retry _ _ _) as [[result | e] w2]; simpl in Hq2;
    cbn [fst snd].
  - pose proof (execute_finish_state (config agent) (clock w) w2) as H.
    cbv zeta in H. rewrite (execute_finish_returns _ _ _ Hq2) in H.
    destruct (H eq_refl) as (Hp & Hs & Hc & Hev & Hpc). cbn [snd] in *.
    destruct (execute_finish_reports (config agent) (clock w) w2)
      as (Hclock & _).
    rewrite Hclock, Hs, Hc. repeat split; assumption.
  - pose proof (execute_except_state (config agent) (clock w) e w2) as H.
    cbv zeta in H. rewrite (execute_except_returns _ _ _ _ Hq2) in H.
    destruct (H eq_refl) as (Hp & Hs & Hc & Hev & Hpc). cbn [snd] in *.
    destruct (execute_except_reports (config agent) (clock w) e w2)
      as (Hclock & _).
    rewrite Hclock, Hs, Hc. repeat split; assumption.
Qed.

Lemma execute_final_status_witness :
  _status (self (execute (TestAgent gemini_fails) ∅ fresh_world).2) = "failed"
  /\ _progress (self (execute (TestAgent gemini_fails) ∅ fresh_world).2)
     = 100%Z
  /\ last (progress_calls
             (self (execute (TestAgent gemini_fails) ∅ fresh_world).2))
     = Some {| pc_agent_name := "test_agent";
               pc_progress := 100;
               pc_status := "failed";
               pc_current_step :=
                 "Error: Task failed after 3 attempts. Last error: Task failed: quota exceeded" |}.
Proof.
  destruct (execute_final_status (TestAgent gemini_fails) ∅ fresh_world)
    as (Hp & H & Hlast).
  { exact fresh_world_callbacks_return. }
  { split; intros callback call; vm_compute; intros [= <-]; reflexivity. }
  assert (E : (_execute_with_retry (config (TestAgent gemini_fails))
                 (process (TestAgent gemini_fails) ∅)
                 (process_world (TestAgent gemini_fails) ∅ fresh_world)).1
              = Raised (Exception "Task failed after 3 attempts. Last error: Task failed: quota exceeded"))
    by (vm_compute; reflexivity).
  rewrite E in H. destruct H as (_ & Hs & Hc & _).
  split; [exact Hs |]. split; [exact Hp |].
  rewrite Hlast, Hs, Hc; [reflexivity |].
  vm_compute. eauto.
Defined.

(** X20: [execute] as a whole uses no more than [_execute_with_retry] does:
    at most [max_retries] awaits of [process], waits of the backoff
    series only, and a duration within [max_retries] timeouts and the sum
    of the series. *)
Theorem execute_resources (agent : BaseAgent) (input_data : dict)
    (w : World AgentState) :
  let run := execute agent input_data w in
  let n := max_retries (config agent) in
  (exists waits,
     slept run.2 = slept w ++ waits
     /\ waits `sublist_of` backoff_waits n)
  /\ (clock w <= clock run.2
      <= clock w
         + Z.max 0 n * Z.max 0 (seconds (timeout_seconds (config agent)))
         + seconds (2 ^ Z.max 0 (n - 1) - 1))%Z
  /\ (awaited w <= awaited run.2 <= awaited w + Z.to_nat n)%nat.
Proof.
  cbv zeta. rewrite execute_blocks.
  pose proof (execute_prelude_reports (config agent) input_data w)
    as (Hc1 & Hs1 & Ha1 & _).
  destruct (execute_prelude (config agent) input_data w) as [[[] | e] w1];
    cbn [snd] in *.
  - pose proof (execute_with_retry_resources (config agent)
                  (process agent input_data) w1) as H.
    cbv zeta in H. rewrite Hc1, Hs1, Ha1 in H.
    destruct (_execute_with_retry _ _ w1) as [[result | e] w2];
      cbn [snd] in *.
    + pose proof (execute_finish_reports (config agent) (clock w) w2)
        as (Hc2 & Hs2 & Ha2 & _).
      destruct (execute_finish (config agent) (clock w) w2)
        as [[[] | e] w3]; cbn [snd] in *.
      * rewrite Hc2, Hs2, Ha2. exact H.
      * destruct (execute_except_reports (config agent) (clock w) e w3)
          as (-> & -> & -> & _).
        rewrite Hc2, Hs2, Ha2. exact H.
    + destruct (execute_except_reports (config agent) (clock w) e w2)
        as (-> & -> & -> & _).
      exact H.
  - destruct (execute_except_reports (config agent) (clock w) e w1)
      as (-> & -> & -> & _).
    rewrite Hc1, Hs1, Ha1.
    pose proof (execute_with_retry_resources (config agent)
                  (process agent input_data) w) as (_ & Hclock & _).
    cbv zeta in Hclock.
    split; [exists []; split; [now rewrite app_nil_r | apply sublist_nil_l] |].
    split; lia.
Qed.

(** X21: an agent configured with no retries never calls [process]: with
    callbacks that return normally, [execute] returns at once the failure
    response of an exhaustion after no attempt, whose last error is
    [None]. *)
Theorem execute_without_retries (agent : BaseAgent) (input_data : dict)
    (w : World AgentState) :
  (max_retries (config agent) <= 0)%Z ->
  callbacks_return (self w) ->
  exists w',
    execute agent input_data w
    = (Returned
         (failure_response (config agent)
            (Exception (exhausted_message (config agent) "None"))
            (total_seconds 0)), w')
    /\ awaited w' = awaited w
    /\ slept w' = slept w
    /\ clock w' = clock w
    /\ _status (self w') = "failed".
Proof.
  intros Hn Hq.
  assert (E : _execute_with_retry (config agent) (process agent input_data)
                (process_world agent input_data w)
              = (Raised (Exception (exhausted_message (config agent) "None")),
                 process_world agent input_data w)).
  { unfold _execute_with_retry, range.
    replace (Z.to_nat (max_retries (config agent))) with 0%nat by lia.
    cbn [seq]. now rewrite retry_loop_nil. }
  pose proof (callbacks_return_reports _ _
                (process_world_reports agent input_data w) Hq) as Hq1.
  rewrite execute_run; [| exact Hq | now rewrite E].
  rewrite E.
  destruct (process_world_frame agent input_data w) as (Hc & Hs & Ha).
  rewrite Hc, Z.sub_diag. eexists. split; [reflexivity |].
  set (e := Exception _).
  destruct (execute_except_reports (config agent) (clock w) e
              (process_world agent input_data w)) as (Hc' & Hs' & Ha' & _).
  pose proof (execute_except_state (config agent) (clock w) e
                (process_world agent input_data w)) as Hst.
  cbv zeta in Hst. rewrite (execute_except_returns _ _ _ _ Hq1) in Hst.
  destruct (Hst eq_refl) as (_ & Hstatus & _).
  repeat split; [congruence | congruence | congruence | exact Hstatus].
Qed.

Lemma execute_without_retries_witness :
  exists w',
    execute
      {| config :=
           {| name := "idle_agent"; description := "";
              max_retries := 0; timeout_seconds := 120;
              temperature := 7 # 10; max_tokens := 4000;
              reasoning_enabled := true |};
         process := TestAgent_process gemini_replies |}
      ∅ fresh_world
    = (Returned
         (failure_response
            {| name := "idle_agent"; description := "";
               max_retries := 0; timeout_seconds := 120;
               temperature := 7 # 10; max_tokens := 4000;
               reasoning_enabled := true |}
            (Exception "Task failed after 0 attempts. Last error: None")
            (total_seconds 0)), w')
    /\ awaited w' = 0%nat.
Proof.
  destruct (execute_without_retries
              {| config :=
                   {| name := "idle_agent"; description := "";
                      max_retries := 0; timeout_seconds := 120;
                      temperature := 7 # 10; max_tokens := 4000;
                      reasoning_enabled := true |};
                 process := TestAgent_process gemini_replies |}
              ∅ fresh_world) as (w' & He & Ha & _).
  { simpl. lia. }
  { exact fresh_world_callbacks_return. }
  exists w'. split; [exact He | exact Ha].
Defined.

(** *** The sample agent *)

Lemma parse_reasoning_response_fields (raw_response : string) :
  exists response steps confidence,
    _parse_reasoning_response raw_response
    = {[ "response" := PyStr response;
         "reasoning_steps" := PyList (PyStr <$> steps);
         "confidence" := PyFloat confidence ]}.
Proof.
  unfold _parse_reasoning_response.
  assert (Hfallback : exists response steps confidence,
             fallback_response raw_response
             = {[ "response" := PyStr response;
                  "reasoning_steps" := PyList (PyStr <$> steps);
                  "confidence" := PyFloat confidence ]}).
  { now exists raw_response,
      ["Direct response without structured reasoning"], 70%Q. }
  destruct (split "REASONING:" raw_response) as [| p0 [| part rest]];
    [exact Hfallback | exact Hfallback |].
  destruct (parse_structured part) as [d |] eqn:Hp.
  - destruct (parse_structured_shape part d Hp) as (r & s & c & -> & _).
    now exists r, s, c.
  - now exists raw_response, ["Parsing failed, using raw response"], 60%Q.
Qed.

Lemma omap_PyStr (steps : list string) :
  omap (fun v : pyval Q => match v with
                           | PyStr s => Some s
                           | _ => None
                           end) (PyStr <$> steps) = steps.
Proof.
  induction steps as [| s steps IH]; [reflexivity |].
  simpl. f_equal. exact IH.
Qed.

Lemma TestAgent_process_returns (d : N) (text : string)
    (input_data : dict) (w : World AgentState) :
  (forall progress status current_step,
     progress_outcome TestAgent_config progress status current_step (self w)
     = Returned tt) ->
  TestAgent_process {| latency := Some d; reply := Returned text |}
    input_data w
  = {| on_start :=
         update_progress_state TestAgent_config 20 "processing"
           "Analyzing input";
       duration := Some d;
       on_finish := fun s =>
         update_progress_state TestAgent_config 80 "processing"
           "Finalizing results"
           (update_progress_state TestAgent_config 60 "processing"
              "Calling tools" s);
       result := Returned (TestAgent_response text input_data) |}.
Proof. intros H. unfold TestAgent_process. rewrite !H. reflexivity. Qed.

(** X22: the sample agent with a service that replies within the timeout
    and callbacks that return normally: one attempt, no wait, and a
    successful response made of the parsed reply, whose [processing_time]
    is the literal 0. *)
Theorem test_agent_succeeds (d : N) (text : string) (input_data : dict)
    (w : World AgentState) :
  (Z.of_N d < seconds (timeout_seconds TestAgent_config))%Z ->
  callbacks_return (self w) ->
  let gemini := {| latency := Some d; reply := Returned text |} in
  exists response response_text steps confidence w',
    execute (TestAgent gemini) input_data w = (Returned response, w')
    /\ _parse_reasoning_response text
       = {[ "response" := PyStr response_text;
            "reasoning_steps" := PyList (PyStr <$> steps);
            "confidence" := PyFloat confidence ]}
    /\ success response = true
    /\ errors response = []
    /\ reasoning response = steps
    /\ data response !! "analysis" = Some (PyStr response_text)
    /\ metadata response !! "confidence" = Some (PyFloat confidence)
    /\ awaited w' = S (awaited w)
    /\ slept w' = slept w
    /\ clock w' = (clock w + Z.of_N d)%Z
    /\ _status (self w') = "completed".
Proof.
  intros Hd Hq gemini.
  destruct (parse_reasoning_response_fields text) as (r & steps & c & Hparse).
  set (w1 := process_world (TestAgent gemini) input_data w).
  pose proof (process_world_reports (TestAgent gemini) input_data w) as R1.
  fold w1 in R1.
  pose proof (callbacks_return_reports _ _ R1 Hq) as Hq1.
  assert (Hout : forall progress status current_step,
             progress_outcome TestAgent_config progress status current_step
               (self w1) = Returned tt).
  { intros. unfold progress_outcome. destruct Hq1 as [Hp _].
    destruct (_progress_callback (self w1)) eqn:Hc;
      [now apply Hp | reflexivity]. }
  set (w2 := update_self
               (fun s =>
                  update_progress_state TestAgent_config 80 "processing"
                    "Finalizing results"
                    (update_progress_state TestAgent_config 60 "processing"
                       "Calling tools" s))
               (advance (Z.of_N d)
                  (update_self
                     (update_progress_state TestAgent_config 20 "processing"
                        "Analyzing input")
                     (mkWorld (clock w1) (slept w1) (S (awaited w1))
                        (self w1))))).
  assert (E : _execute_with_retry (config (TestAgent gemini))
                (process (TestAgent gemini) input_data) w1
              = (Returned (TestAgent_response text input_data), w2)).
  { unfold _execute_with_retry.
    change (range (max_retries (config (TestAgent gemini))))
      with [0; 1; 2]%nat.
    rewrite retry_loop_cons.
    change (timeout_seconds (config (TestAgent gemini)))
      with (timeout_seconds TestAgent_config).
    unfold wait_for.
    change (timeout_seconds TestAgent_config <=? 0)%Z with false.
    cbn [process TestAgent]. unfold gemini.
    rewrite (TestAgent_process_returns d text input_data w1 Hout).
    cbn [duration result on_start on_finish].
    apply Z.ltb_lt in Hd. rewrite Hd. reflexivity. }
  assert (R2 : _progress_callback (self w2) = _progress_callback (self w1)
               /\ _event_callback (self w2) = _event_callback (self w1)
               /\ clock w2 = (clock w1 + Z.of_N d)%Z
               /\ slept w2 = slept w1 /\ awaited w2 = S (awaited w1)).
  { subst w2. cbn. repeat split; lia. }
  destruct R2 as (Hp & He & Hc2 & Hs2 & Ha2).
  assert (Hq2 : callbacks_return (self w2)).
  { destruct Hq1 as [Hcp Hce].
    split; intros callback call Hcb.
    - apply Hcp. now rewrite <- Hp.
    - apply Hce. now rewrite <- He. }
  exists (TestAgent_response text input_data), r, steps, c.
  rewrite (execute_run _ _ _ Hq); [| fold w1; rewrite E; exact Hq2].
  fold w1. rewrite E.
  eexists. split; [reflexivity |]. split; [exact Hparse |].
  unfold TestAgent_response. rewrite Hparse.
  assert (Hsteps :
            ({[ "response" := PyStr r;
                "reasoning_steps" := PyList (PyStr <$> steps);
                "confidence" := PyFloat c ]} : dict) !! "reasoning_steps"
            = Some (PyList (PyStr <$> steps))) by reflexivity.
  rewrite Hsteps, omap_PyStr.
  cbn [success errors reasoning data metadata].
  destruct (execute_finish_reports (config (TestAgent gemini)) (clock w) w2)
    as (Hc3 & Hs3 & Ha3 & _).
  pose proof (execute_finish_state (config (TestAgent gemini)) (clock w) w2)
    as Hst.
  cbv zeta in Hst. rewrite (execute_finish_returns _ _ _ Hq2) in Hst.
  destruct (Hst eq_refl) as (_ & Hstatus & _).
  destruct R1 as (Hc1 & Hs1 & Ha1 & _).
  cbn [snd] in *.
  repeat split; try reflexivity; try congruence; try exact Hstatus.
Qed.

Lemma test_agent_succeeds_witness :
  exists response w',
    execute (TestAgent gemini_replies) ∅ fresh_world = (Returned response, w')
    /\ success response = true
    /\ awaited w' = 1%nat
    /\ slept w' = []
    /\ clock w' = seconds 2.
Proof.
  destruct (test_agent_succeeds 2000000 "Looks fine." ∅ fresh_world)
    as (response & r & steps & c & w' & He & _ & Hs & _ & _ & _ & _ & Ha
        & Hsl & Hc & _).
  { vm_compute. reflexivity. }
  { exact fresh_world_callbacks_return. }
  exists response, w'. repeat split; assumption.
Defined.

End AgentMore.


(* ================================================================== *)
(** ** Properties of the orchestrator *)
(* ================================================================== *)

Module PipelineFacts.
Import Async Pipeline AsyncFacts.

Section Orchestration.

Variable load_agent : agent_config -> outcome agent.
Variable isoformat : Z -> string.

Lemma core_fields (o o' : Orchestrator) :
  core o' = core o ->
  status o' = status o /\ agents_config o' = agents_config o
  /\ results o' = results o /\ errors o' = errors o
  /\ pipeline_output o' = pipeline_output o.
Proof. unfold core. intros [= -> -> -> -> _ _ ->]. done. Qed.

Lemma core_publish_in e o : core (publish_in e o) = core o.
Proof. reflexivity. Qed.

Lemma core_progress_reports (reports : list ProgressReport) o :
  core (foldl (fun o r => progress_callback r o) o reports) = core o.
Proof.
  revert o. induction reports as [| r reports IH]; intros o; simpl;
    [reflexivity |].
  now rewrite IH.
Qed.

(** Awaiting an agent leaves the orchestrator as it was, events apart. *)
Lemma wait_for_agent_core (a : agent) (input_data : dict) (timeout : Z) w :
  core (self (wait_for (agent_task a input_data) timeout w).2)
  = core (self w).
Proof.
  unfold wait_for.
  destruct (timeout <=? 0)%Z; [reflexivity |].
  cbn [agent_task duration on_start on_finish result].
  destruct (run_duration _) as [d |]; simpl.
  - destruct (Z.of_N d <? seconds timeout)%Z; simpl;
      now rewrite ?core_progress_reports.
  - now rewrite core_progress_reports.
Qed.


Lemma core_set_errors o o' v :
  core o' = core o -> core (set_errors v o') = core (set_errors v o).
Proof. unfold core. simpl. intros [= -> -> -> _ -> -> ->]. done. Qed.

Lemma core_errors o o' : core o' = core o -> errors o' = errors o.
Proof. unfold core. now intros [= _ _ _ -> _ _ _]. Qed.

Lemma execute_agent_effect (agent_config : agent_config) (input_data : dict)
    w :
  exists r w',
    execute_agent load_agent agent_config input_data w = (r, w')
    /\ match r with
       | Returned _ => core (self w') = core (self w)
       | Raised e =>
           exists e0,
             e = Exception (failure_message agent_config e0)
             /\ core (self w')
                = core (set_errors
                          (errors (self w)
                           ++ [failure_message agent_config e0]) (self w))
       end.
Proof.
  unfold execute_agent. cbv [mbind M_bind now try_except].
  destruct (load_agent agent_config) as [a | e].
  - pose proof (wait_for_agent_core a input_data
                  (default 120%Z (timeout agent_config)) w) as Hc.
    destruct (wait_for _ _ w) as [[result | e] w1]; simpl in Hc.
    + eexists _, _. split; [reflexivity |]. simpl. exact Hc.
    + destruct e as [| msg]; eexists _, _; (split; [reflexivity |]);
        [exists TimeoutError | exists (Exception msg)];
        (split; [reflexivity |]); simpl self;
        rewrite core_publish_in, (core_errors _ _ Hc);
        now apply core_set_errors.
  - destruct e as [| msg]; eexists _, _; (split; [reflexivity |]);
      [exists TimeoutError | exists (Exception msg)];
      (split; reflexivity).
Qed.


Lemma run_agent_cases (i : nat) (agent_config : agent_config) w :
  run_agent load_agent i agent_config w
  = match execute_agent load_agent agent_config (pipeline_output (self w))
            (agent_call_world i agent_config w) with
    | (Returned r, w1) =>
        (Returned tt,
         update_self (fun o =>
           set_pipeline_output (r ∪ pipeline_output o)
             (set_results (<[name agent_config := r]> (results o)) o)) w1)
    | (Raised _, w1) => (Returned tt, w1)
    end.
Proof.
  unfold run_agent.
  cbv [mbind M_bind get_self publish modify_self try_except mret M_ret].
  change (execute_agent load_agent agent_config _ _) with
    (execute_agent load_agent agent_config (pipeline_output (self w))
       (agent_call_world i agent_config w)).
  destruct (execute_agent _ _ _ _) as [[r | e] w1]; reflexivity.
Qed.

Lemma core_agent_call_world i agent_config w :
  core (self (agent_call_world i agent_config w)) = core (self w).
Proof. reflexivity. Qed.

(** One turn of the loop never raises.  It leaves [status] and
    [agents_config] alone; when the agent returns [r] it records [r] under
    the agent's name and merges it into the pipeline state; when the agent
    fails it appends the one message to [errors]. *)
Lemma run_agent_effect (i : nat) (agent_config : agent_config) w :
  exists w',
    run_agent load_agent i agent_config w = (Returned tt, w')
    /\ status (self w') = status (self w)
    /\ agents_config (self w') = agents_config (self w)
    /\ ((exists r,
           (execute_agent load_agent agent_config (pipeline_output (self w))
              (agent_call_world i agent_config w)).1 = Returned r
           /\ results (self w') = <[name agent_config := r]> (results (self w))
           /\ pipeline_output (self w') = r ∪ pipeline_output (self w)
           /\ errors (self w') = errors (self w))
        \/ (exists e msg,
              (execute_agent load_agent agent_config
                 (pipeline_output (self w))
                 (agent_call_world i agent_config w)).1 = Raised e
              /\ results (self w') = results (self w)
              /\ pipeline_output (self w') = pipeline_output (self w)
              /\ errors (self w') = errors (self w) ++ [msg])).
Proof.
  rewrite run_agent_cases.
  destruct (execute_agent_effect agent_config
              (pipeline_output (self w)) (agent_call_world i agent_config w))
    as (r & w1 & -> & Hr).
  destruct r as [r | e].
  - rewrite core_agent_call_world in Hr.
    apply core_fields in Hr as (Hst & Hac & Hres & Herr & Hpo).
    eexists. split; [reflexivity |]. simpl.
    split; [done |]. split; [done |]. left. exists r.
    rewrite Hres, Hpo. done.
  - destruct Hr as (e0 & -> & Hr).
    rewrite (core_set_errors _ _ _ (core_agent_call_world i agent_config w))
      in Hr.
    apply core_fields in Hr as (Hst & Hac & Hres & Herr & Hpo).
    eexists. split; [reflexivity |].
    simpl in Hst, Hac, Hres, Herr, Hpo.
    split; [done |]. split; [done |]. right.
    exists (Exception (failure_message agent_config e0)),
      (failure_message agent_config e0). done.
Qed.

(** [execute_agent] with the world it leaves, by cases on the loader and
    on the awaited run. *)
Lemma execute_agent_run (config : agent_config) (input_data : dict) w :
  execute_agent load_agent config input_data w
  = let failed e w1 :=
      (Raised (Exception (failure_message config e)),
       update_self (fun o =>
         publish_in
           match e with
           | TimeoutError =>
               agent_timeout (name config) (default 120%Z (timeout config))
           | Exception _ =>
               agent_agent_failed (name config) (failure_message config e)
                 (total_seconds (clock w1 - clock w))
           end
           (set_errors (errors o ++ [failure_message config e]) o)) w1) in
    match load_agent config with
    | Raised e => failed e w
    | Returned a =>
        match wait_for (agent_task a input_data)
                (default 120%Z (timeout config)) w with
        | (Returned result, w1) =>
            (Returned result,
             update_self
               (publish_in
                  (agent_completed (name config)
                     (<["processing_time" :=
                          PyFloat (total_seconds (clock w1 - clock w))]>
                        result))) w1)
        | (Raised e, w1) => failed e w1
        end
    end.
Proof.
  unfold execute_agent. cbv [mbind M_bind now try_except].
  destruct (load_agent config) as [a | [| msg]]; try reflexivity.
  destruct (wait_for _ _ w) as [[result | [| msg]] w1]; reflexivity.
Qed.

(** What [execute_agent] returns or raises is what the agent gave, an
    exception wrapped into the message that is recorded. *)
Lemma execute_agent_outcome (config : agent_config) (input_data : dict) w :
  (execute_agent load_agent config input_data w).1
  = match agent_outcome load_agent config input_data w with
    | Returned result => Returned result
    | Raised e => Raised (Exception (failure_message config e))
    end.
Proof.
  rewrite execute_agent_run. cbv zeta. unfold agent_outcome.
  destruct (load_agent config) as [a | e]; [| reflexivity].
  now destruct (wait_for _ _ w) as [[result | e] w1].
Qed.

(** An agent that is loaded and has a positive timeout is run on the
    input, at the time of the call: its run counts when it ends within
    the timeout. *)
Lemma agent_outcome_loaded (config : agent_config) (a : agent)
    (input_data : dict) w :
  load_agent config = Returned a ->
  (0 < default 120 (timeout config))%Z ->
  agent_outcome load_agent config input_data w
  = let run := a input_data (clock w) in
    match run_duration run with
    | Some d =>
        if (Z.of_N d <? seconds (default 120 (timeout config)))%Z
        then run_result run
        else Raised TimeoutError
    | None => Raised TimeoutError
    end.
Proof.
  intros Ha Ht. unfold agent_outcome, wait_for. rewrite Ha.
  destruct (Z.leb_spec (default 120%Z (timeout config)) 0) as [| _]; [lia |].
  cbn [agent_task duration result clock]. cbv zeta.
  destruct (run_duration (a input_data (clock w))) as [d |]; [| reflexivity].
  now destruct (Z.of_N d <? seconds (default 120 (timeout config)))%Z.
Qed.

(** One turn of the loop, by what the agent gave: a result is recorded
    under the agent's name and merged into the pipeline state, a failure
    adds its message to [errors]; the turn itself never raises. *)
Lemma run_agent_outcome (i : nat) (config : agent_config) w :
  let o := self w in
  let o' := self (run_agent load_agent i config w).2 in
  (run_agent load_agent i config w).1 = Returned tt
  /\ match agent_outcome load_agent config (pipeline_output o)
             (agent_call_world i config w) with
     | Returned r =>
         results o' = <[name config := r]> (results o)
         /\ pipeline_output o' = r ∪ pipeline_output o
         /\ errors o' = errors o
     | Raised e =>
         results o' = results o
         /\ pipeline_output o' = pipeline_output o
         /\ errors o' = errors o ++ [failure_message config e]
     end.
Proof.
  cbv zeta.
  pose proof (execute_agent_outcome config (pipeline_output (self w))
                (agent_call_world i config w)) as Hout.
  destruct (run_agent_effect i config w) as (w' & Hw & _ & _ & Hcases).
  rewrite Hw. split; [reflexivity |]. cbn [snd].
  rewrite run_agent_cases in Hw.
  rewrite execute_agent_run in Hw, Hout. cbv zeta in Hw, Hout.
  unfold agent_outcome in *.
  destruct (load_agent config) as [a | e].
  - pose proof (wait_for_agent_core a (pipeline_output (self w))
                  (default 120%Z (timeout config))
                  (agent_call_world i config w)) as Hcore.
    destruct (wait_for _ _ (agent_call_world i config w))
      as [[result | e] w1]; cbn [fst snd] in *;
      injection Hw as <-;
      rewrite core_agent_call_world in Hcore;
      apply core_fields in Hcore as (_ & _ & Hres & Herr & Hpo);
      cbn; rewrite ?Hres, ?Herr, ?Hpo; done.
  - injection Hw as <-. cbn. done.
Qed.

Lemma run_agents_nil (i : nat) w :
  run_agents load_agent i [] w = (Returned tt, w).
Proof. reflexivity. Qed.

Lemma run_agents_cons (i : nat) agent_config rest w :
  run_agents load_agent i (agent_config :: rest) w
  = run_agents load_agent (S i) rest
      (run_agent load_agent i agent_config w).2.
Proof.
  destruct (run_agent_effect i agent_config w) as (w' & Hw & _).
  cbn [run_agents]. rewrite bind_run, Hw. reflexivity.
Qed.

(** The loop never raises. *)
Lemma run_agents_returns (i : nat) configs w :
  (run_agents load_agent i configs w).1 = Returned tt.
Proof.
  revert i w. induction configs as [| c rest IH]; intros i w;
    [reflexivity |].
  rewrite run_agents_cons. apply IH.
Qed.

Lemma run_agents_app (i : nat) pre post w :
  run_agents load_agent i (pre ++ post) w
  = run_agents load_agent (i + length pre) post
      (run_agents load_agent i pre w).2.
Proof.
  revert i w. induction pre as [| c pre IH]; intros i w; simpl app.
  - simpl. now rewrite Nat.add_0_r.
  - rewrite !run_agents_cons, IH. simpl length.
    now replace (S i + length pre)%nat with (i + S (length pre))%nat by lia.
Qed.

Lemma returned_results_cons (c : agent_config) (out : outcome dict) turns :
  returned_results ((c, out) :: turns)
  = match out with
    | Returned r => (name c, r) :: returned_results turns
    | Raised _ => returned_results turns
    end.
Proof. now destruct out. Qed.

Lemma failure_messages_cons (c : agent_config) (out : outcome dict) turns :
  failure_messages ((c, out) :: turns)
  = match out with
    | Returned _ => failure_messages turns
    | Raised e => failure_message c e :: failure_messages turns
    end.
Proof. now destruct out. Qed.

Lemma returned_results_app turns1 turns2 :
  returned_results (turns1 ++ turns2)
  = returned_results turns1 ++ returned_results turns2.
Proof. apply omap_app. Qed.

Lemma agent_outcomes_app (i : nat) pre post w :
  agent_outcomes load_agent i (pre ++ post) w
  = agent_outcomes load_agent i pre w
    ++ agent_outcomes load_agent (i + length pre) post
         (run_agents load_agent i pre w).2.
Proof.
  revert i w. induction pre as [| c pre IH]; intros i w.
  - simpl. now rewrite Nat.add_0_r.
  - rewrite <- app_comm_cons. cbn [agent_outcomes].
    rewrite run_agents_cons, IH. cbn [length].
    now replace (S i + length pre)%nat with (i + S (length pre))%nat by lia.
Qed.

(** The loop, by what its agents gave: the results returned are recorded
    and merged in order, the failures leave their messages, and every
    agent has its turn. *)
Lemma run_agents_outcomes (i : nat) configs w :
  let turns := agent_outcomes load_agent i configs w in
  let o := self w in
  let o' := self (run_agents load_agent i configs w).2 in
  results o' = record_results (returned_results turns) (results o)
  /\ pipeline_output o'
     = merge_results (returned_results turns) (pipeline_output o)
  /\ errors o' = errors o ++ failure_messages turns
  /\ turns.*1 = configs
  /\ (length (returned_results turns) + length (failure_messages turns)
      = length configs)%nat.
Proof.
  revert i w. induction configs as [| c rest IH]; intros i w.
  - cbv zeta. simpl. rewrite app_nil_r. done.
  - cbv zeta. rewrite run_agents_cons. cbn [agent_outcomes].
    rewrite returned_results_cons, failure_messages_cons.
    destruct (run_agent_outcome i c w) as [_ Hturn]. cbv zeta in Hturn.
    destruct (IH (S i) (run_agent load_agent i c w).2)
      as (Hres & Hpo & Herr & Hnames & Hlen).
    cbv zeta in Hres, Hpo, Herr, Hnames, Hlen.
    rewrite Hres, Hpo, Herr, fmap_cons, Hnames.
    destruct (agent_outcome load_agent c (pipeline_output (self w))
                (agent_call_world i c w)) as [r | e].
    + destruct Hturn as (-> & -> & ->). simpl length.
      repeat split; try reflexivity. lia.
    + destruct Hturn as (-> & -> & ->). simpl length.
      rewrite <- app_assoc. repeat split; try reflexivity. lia.
Qed.

Lemma merge_results_dom_state (returned : list (string * dict)) state :
  dom state ⊆ dom (merge_results returned state).
Proof.
  revert state. induction returned as [| r rest IH]; intros state; [done |].
  cbn [merge_results foldl]. etransitivity; [| apply IH].
  rewrite dom_union_L. apply union_subseteq_r.
Qed.

Lemma merge_results_dom_result (returned : list (string * dict)) state r :
  r ∈ returned -> dom r.2 ⊆ dom (merge_results returned state).
Proof.
  revert state. induction returned as [| r' rest IH]; intros state Hr.
  - now apply elem_of_nil in Hr.
  - cbn [merge_results foldl]. apply elem_of_cons in Hr as [-> | Hr].
    + etransitivity; [| apply merge_results_dom_state].
      rewrite dom_union_L. apply union_subseteq_l.
    + now apply IH.
Qed.

(** What the loop keeps: [status] and [agents_config] stay; [errors] and
    the keys of [results] and of the pipeline state only grow. *)
Lemma run_agents_grows (i : nat) configs w :
  let o := self w in
  let o' := self (run_agents load_agent i configs w).2 in
  status o' = status o
  /\ agents_config o' = agents_config o
  /\ (exists new, errors o' = errors o ++ new)
  /\ dom (results o) ⊆ dom (results o')
  /\ dom (pipeline_output o) ⊆ dom (pipeline_output o').
Proof.
  revert i w. induction configs as [| c rest IH]; intros i w.
  - simpl. repeat split; try done. exists []. now rewrite app_nil_r.
  - rewrite run_agents_cons.
    destruct (run_agent_effect i c w) as (w1 & Hw & Hst & Hac & Hcases).
    rewrite Hw. cbn [snd].
    destruct (IH (S i) w1) as (Hst' & Hac' & (new & Herr') & Hres' & Hpo').
    cbv zeta. rewrite Hst', Hac', Herr', Hst, Hac.
    split; [done |]. split; [done |].
    destruct Hcases as [(r & _ & Hres & Hpo & Herr)
                       | (e & msg & _ & Hres & Hpo & Herr)].
    + rewrite Herr. split; [eauto |].
      rewrite Hres, Hpo in *. split.
      * etransitivity; [apply dom_insert_subseteq | exact Hres'].
      * etransitivity; [| exact Hpo'].
        rewrite dom_union_L. apply union_subseteq_r.
    + rewrite Herr, <- app_assoc. split; [eauto |].
      rewrite Hres, Hpo in *. done.
Qed.

(** With a non-empty agent list [run_pipeline] returns: it runs the loop,
    sets the final status, attaches the summary and returns the pipeline
    state. *)
Lemma run_pipeline_run (pipeline_id : string) (input_data : dict) w :
  agents_config (self w) <> [] ->
  let w1 := (run_agents load_agent 0 (agents_config (self w))
               (loop_world isoformat pipeline_id input_data w)).2 in
  run_pipeline load_agent isoformat pipeline_id input_data w
  = (Returned (pipeline_output (finished (clock w) w1)),
     update_self (fun _ => finished (clock w) w1) w1).
Proof.
  intros Hne. cbv zeta.
  pose proof (run_agents_returns 0 (agents_config (self w))
                (loop_world isoformat pipeline_id input_data w)) as Hret.
  pose proof (run_agents_grows 0 (agents_config (self w))
                (loop_world isoformat pipeline_id input_data w)) as (_ & Hac & _).
  unfold run_pipeline.
  cbv [mbind M_bind now modify_self publish get_self try_finally try_except
       finish_pipeline mret M_ret raise].
  change (run_agents load_agent 0 _ _) with
    (run_agents load_agent 0 (agents_config (self w))
       (loop_world isoformat pipeline_id input_data w)).
  destruct (run_agents load_agent 0 _ _) as [r w1] eqn:E.
  simpl in Hret, Hac. subst r.
  assert (Hlen : (length (agents_config (self w1)) =? 0)%nat = false).
  { rewrite Hac. simpl. destruct (agents_config (self w)); done. }
  cbn [self set_end_time set_status set_pipeline_output agents_config].
  rewrite Hlen. reflexivity.
Qed.

(** With an empty agent list the success rate of the closing event
    divides by zero and [run_pipeline] raises from its [finally] block. *)
Lemma run_pipeline_no_agents (pipeline_id : string) (input_data : dict) w :
  agents_config (self w) = [] ->
  (run_pipeline load_agent isoformat pipeline_id input_data w).1
  = Raised (Exception "division by zero").
Proof.
  intros Hnil. unfold run_pipeline.
  cbv [mbind M_bind now modify_self publish get_self try_finally try_except
       finish_pipeline mret M_ret raise].
  cbn [self set_end_time set_status set_pipeline_output set_start_time
       publish_in set_published agents_config].
  rewrite Hnil.
  cbn [run_agents mret M_ret self set_end_time set_status
       set_pipeline_output set_start_time publish_in set_published
       agents_config].
  rewrite ?Hnil. reflexivity.
Qed.

Lemma run_agent_succeeds (i : nat) (agent_config : agent_config) w :
  agent_succeeds load_agent agent_config ->
  let o := self w in
  let o' := self (run_agent load_agent i agent_config w).2 in
  exists r,
    (execute_agent load_agent agent_config (pipeline_output o)
       (agent_call_world i agent_config w)).1 = Returned r
    /\ results o' = <[name agent_config := r]> (results o)
    /\ pipeline_output o' = r ∪ pipeline_output o
    /\ errors o' = errors o.
Proof.
  intros Hs. cbv zeta.
  destruct (run_agent_effect i agent_config w) as (w' & -> & _ & _ & Hc).
  destruct Hc as [(r & Hr & H) | (e & msg & He & _)]; [eauto |].
  destruct (Hs (pipeline_output (self w)) (agent_call_world i agent_config w))
    as [r Hr].
  congruence.
Qed.

Lemma run_agent_fails (i : nat) (agent_config : agent_config) w :
  agent_fails load_agent agent_config ->
  let o := self w in
  let o' := self (run_agent load_agent i agent_config w).2 in
  results o' = results o
  /\ pipeline_output o' = pipeline_output o
  /\ exists msg, errors o' = errors o ++ [msg].
Proof.
  intros Hf. cbv zeta.
  destruct (run_agent_effect i agent_config w) as (w' & -> & _ & _ & Hc).
  destruct Hc as [(r & Hr & _) | (e & msg & _ & Hres & Hpo & Herr)]; [| eauto].
  destruct (Hf (pipeline_output (self w)) (agent_call_world i agent_config w))
    as [e He].
  congruence.
Qed.

(** Agents with distinct names none of which has a result yet: each of
    them ends up with a result or with an error, none is skipped. *)
Lemma run_agents_accounting (i : nat) configs w :
  NoDup (name <$> configs) ->
  (forall c, c ∈ configs -> results (self w) !! name c = None) ->
  let o := self w in
  let o' := self (run_agents load_agent i configs w).2 in
  (size (results o') + length (errors o')
   = size (results o) + length (errors o) + length configs)%nat.
Proof.
  revert i w. induction configs as [| c rest IH]; intros i w Hnd Hfresh.
  - simpl. lia.
  - rewrite run_agents_cons. cbv zeta.
    rewrite fmap_cons in Hnd. apply NoDup_cons in Hnd as [Hc Hnd].
    destruct (run_agent_effect i c w) as (w1 & Hw & _ & _ & Hcases).
    rewrite Hw. cbn [snd].
    rewrite (IH (S i) w1 Hnd).
    + destruct Hcases as [(r & _ & -> & _ & ->) | (e & msg & _ & -> & _ & ->)].
      * rewrite map_size_insert_None
          by (apply Hfresh; apply list_elem_of_here).
        simpl length. lia.
      * rewrite length_app. simpl length. lia.
    + intros c' Hc'.
      assert (Hn : name c' <> name c).
      { intros Heq. apply Hc. rewrite <- Heq.
        now apply list_elem_of_fmap_2. }
      destruct Hcases as [(r & _ & -> & _) | (e & msg & _ & -> & _)].
      * rewrite lookup_insert_ne by done.
        apply Hfresh. now apply list_elem_of_further.
      * apply Hfresh. now apply list_elem_of_further.
Qed.

Lemma run_agents_merged (i : nat) configs w :
  merged (self w) -> merged (self (run_agents load_agent i configs w).2).
Proof.
  revert i w. induction configs as [| c rest IH]; intros i w Hm;
    [exact Hm |].
  rewrite run_agents_cons. apply IH.
  destruct (run_agent_effect i c w) as (w1 & -> & _ & _ & Hcases).
  cbn [snd]. intros n r.
  destruct Hcases as [(r' & _ & -> & -> & _) | (e & msg & _ & -> & -> & _)].
  - rewrite dom_union_L.
    destruct (decide (name c = n)) as [<- | Hn].
    + rewrite lookup_insert_eq. intros [= ->]. apply union_subseteq_l.
    + rewrite lookup_insert_ne by done.
      intros Hr. etransitivity; [exact (Hm n r Hr) |].
      apply union_subseteq_r.
  - apply Hm.
Qed.

(** When every agent fails the loop changes [errors] only. *)
Lemma run_agents_all_fail (i : nat) configs w :
  Forall (agent_fails load_agent) configs ->
  let o := self w in
  let o' := self (run_agents load_agent i configs w).2 in
  results o' = results o
  /\ pipeline_output o' = pipeline_output o
  /\ exists new,
       errors o' = errors o ++ new /\ length new = length configs.
Proof.
  intros Hall. revert i w.
  induction Hall as [| c rest Hc _ IH]; intros i w.
  - simpl. repeat split. exists []. now rewrite app_nil_r.
  - rewrite run_agents_cons. cbv zeta.
    destruct (run_agent_fails i c w Hc) as (Hres & Hpo & msg & Herr).
    destruct (IH (S i) (run_agent load_agent i c w).2)
      as (Hres' & Hpo' & new & Herr' & Hlen).
    rewrite Hres', Hpo', Herr', Hres, Hpo, Herr.
    repeat split. exists (msg :: new).
    rewrite <- app_assoc. simpl. split; [done | lia].
Qed.

Lemma final_status_cases (o : Orchestrator) :
  (final_status o = COMPLETED /\ (errors o = [] \/ results o <> ∅))
  \/ (final_status o = FAILED /\ errors o <> [] /\ results o = ∅).
Proof.
  unfold final_status.
  destruct (errors o) as [| e es]; simpl; [left; auto |].
  destruct (Nat.ltb_spec 0 (size (results o))) as [Hlt | Hge].
  - left. split; [done |]. right. intros Heq. rewrite Heq in Hlt.
    rewrite map_size_empty in Hlt. lia.
  - right. split; [done |]. split; [done |].
    apply map_size_empty_inv. lia.
Qed.

(** C5: the pipeline state only grows, and each agent is run on the state
    its predecessors left.  For the loop over [pre ++ config :: post]
    entered in [w], with [w1] the world the agents of [pre] leave: the
    turn of [config] follows theirs; the pipeline state of [w1] is the
    state the loop started with, updated in order with the result of
    every agent of [pre] that returned one; an agent that is loaded for
    [config] is run on that state, and its run decides the turn: a result
    is recorded and merged as [pipeline_output.update(r)], a failure
    leaves the state as it is and its message in [errors]; the state has
    every key the loop started with and every key of every result
    returned before; and a turn of the loop for any agent keeps every
    key. *)
Theorem pipeline_state_grows (i : nat) (pre : list agent_config)
    (config : agent_config) (post : list agent_config)
    (w : World Orchestrator) :
  let w1 := (run_agents load_agent i pre w).2 in
  let n := (i + length pre)%nat in
  let before := returned_results (agent_outcomes load_agent i pre w) in
  let state := merge_results before (pipeline_output (self w)) in
  let o' := self (run_agent load_agent n config w1).2 in
  run_agents load_agent i (pre ++ config :: post) w
  = run_agents load_agent (S n) post
      (run_agent load_agent n config w1).2
  /\ pipeline_output (self w1) = state
  /\ (forall a,
        load_agent config = Returned a ->
        (0 < default 120 (timeout config))%Z ->
        agent_outcome load_agent config state
          (agent_call_world n config w1)
        = match run_duration (a state (clock w1)) with
          | Some d =>
              if (Z.of_N d <? seconds (default 120 (timeout config)))%Z
              then run_result (a state (clock w1))
              else Raised TimeoutError
          | None => Raised TimeoutError
          end)
  /\ match agent_outcome load_agent config state
             (agent_call_world n config w1) with
     | Returned r =>
         results o' = <[name config := r]> (results (self w1))
         /\ pipeline_output o' = r ∪ state
         /\ errors o' = errors (self w1)
     | Raised e =>
         results o' = results (self w1)
         /\ pipeline_output o' = state
         /\ errors o' = errors (self w1) ++ [failure_message config e]
     end
  /\ dom (pipeline_output (self w)) ⊆ dom state
  /\ (forall r, r ∈ before -> dom r.2 ⊆ dom state)
  /\ (forall j c w0,
        dom (pipeline_output (self w0))
        ⊆ dom (pipeline_output (self (run_agent load_agent j c w0).2))).
Proof.
  cbv zeta.
  destruct (run_agents_outcomes i pre w) as (_ & Hstate & _).
  cbv zeta in Hstate.
  split; [now rewrite run_agents_app, run_agents_cons |].
  split; [exact Hstate |].
  split.
  { intros a Ha Ht.
    rewrite (agent_outcome_loaded config a _ _ Ha Ht). reflexivity. }
  split.
  { destruct (run_agent_outcome (i + length pre) config
                (run_agents load_agent i pre w).2) as [_ Hturn].
    cbv zeta in Hturn. rewrite Hstate in Hturn. exact Hturn. }
  split; [apply merge_results_dom_state |].
  split; [intros r Hr; now apply merge_results_dom_result |].
  intros j c w0.
  destruct (run_agent_effect j c w0) as (w2 & Hw & _ & _ & Hcases).
  rewrite Hw. cbn [snd].
  destruct Hcases as [(r & _ & _ & -> & _) | (e & msg & _ & _ & -> & _)];
    [| done].
  rewrite dom_union_L. apply union_subseteq_r.
Qed.

Lemma status_finished start w1 :
  status (finished start w1) = final_status (self w1).
Proof. reflexivity. Qed.

(** C2: a run over a non-empty agent list returns, whatever the agents
    do.  Every agent has its turn, a failure does not stop the run: what
    an agent returned is recorded under its name and merged into the
    output, in order, and what it raised, or the loader for it, leaves
    the one message in [errors].  The run ends COMPLETED when some agent
    has a result and FAILED only when none has (then an error is
    recorded); the output is the initial state updated with the returned
    results, with the processing summary of the three counts and the
    error messages.  From a fresh orchestrator whose agents have distinct
    names every agent is accounted for, by a result or by an error.  In
    particular, with three agents of which the second always fails and
    the others always succeed, the run ends COMPLETED with the 2 results
    of the first and the third, the 1 message of the second, and an
    output that holds both results. *)
Theorem partial_failure_policy (pipeline_id : string) (input_data : dict)
    (w : World Orchestrator) :
  agents_config (self w) <> [] ->
  exists output w',
    run_pipeline load_agent isoformat pipeline_id input_data w
    = (Returned output, w')
    /\ (results (self w') <> ∅ -> status (self w') = COMPLETED)
    /\ (status (self w') = FAILED ->
        results (self w') = ∅ /\ errors (self w') <> [])
    /\ (status (self w') = COMPLETED \/ status (self w') = FAILED)
    /\ (exists elapsed,
          output !! "processing_summary"
          = Some (PyDict
              {[ "total_agents" :=
                   PyInt (Z.of_nat (length (agents_config (self w'))));
                 "successful_agents" :=
                   PyInt (Z.of_nat (size (results (self w'))));
                 "failed_agents" :=
                   PyInt (Z.of_nat (length (errors (self w'))));
                 "processing_time" := PyFloat elapsed;
                 "errors" := PyList (PyStr <$> errors (self w')) ]}))
    /\ (let turns :=
          agent_outcomes load_agent 0 (agents_config (self w))
            (loop_world isoformat pipeline_id input_data w) in
        turns.*1 = agents_config (self w)
        /\ results (self w')
           = record_results (returned_results turns) (results (self w))
        /\ errors (self w') = errors (self w) ++ failure_messages turns
        /\ output
           = <["processing_summary" :=
                 processing_summary (self w')
                   (total_seconds (clock w' - clock w))]>
               (merge_results (returned_results turns)
                  (initial_output isoformat pipeline_id input_data
                     (clock w))))
    /\ (results (self w) = ∅ ->
        forall n r, results (self w') !! n = Some r -> dom r ⊆ dom output)
    /\ (results (self w) = ∅ -> errors (self w) = [] ->
        NoDup (name <$> agents_config (self w)) ->
        (size (results (self w')) + length (errors (self w'))
         = length (agents_config (self w)))%nat
        /\ (status (self w') = COMPLETED <-> results (self w') <> ∅))
    /\ (forall a b c,
          agents_config (self w) = [a; b; c] ->
          results (self w) = ∅ -> errors (self w) = [] ->
          name a <> name c ->
          agent_succeeds load_agent a -> agent_fails load_agent b ->
          agent_succeeds load_agent c ->
          exists ra eb rc,
            agent_outcomes load_agent 0 [a; b; c]
              (loop_world isoformat pipeline_id input_data w)
            = [(a, Returned ra); (b, Raised eb); (c, Returned rc)]
            /\ status (self w') = COMPLETED
            /\ results (self w')
               = <[name c := rc]> (<[name a := ra]> ∅)
            /\ size (results (self w')) = 2%nat
            /\ errors (self w') = [failure_message b eb]
            /\ output
               = <["processing_summary" :=
                     processing_summary (self w')
                       (total_seconds (clock w' - clock w))]>
                   (rc ∪ (ra ∪ initial_output isoformat pipeline_id
                                 input_data (clock w)))
            /\ dom ra ∪ dom rc ⊆ dom output).
Proof.
  intros Hne.
  rewrite (run_pipeline_run pipeline_id input_data w Hne). cbv zeta.
  set (w0 := loop_world isoformat pipeline_id input_data w).
  set (w1 := (run_agents load_agent 0 (agents_config (self w)) w0).2).
  eexists _, _. split; [reflexivity |].
  cbn [self update_self].
  change (results (finished (clock w) w1)) with (results (self w1)).
  change (errors (finished (clock w) w1)) with (errors (self w1)).
  change (agents_config (finished (clock w) w1))
    with (agents_config (self w1)).
  rewrite status_finished.
  change (pipeline_output (finished (clock w) w1)) with
    (<["processing_summary" :=
         processing_summary (self w1) (total_seconds (clock w1 - clock w))]>
       (pipeline_output (self w1))).
  pose proof (final_status_cases (self w1)) as Hfs.
  assert (Hr0 : results (self w0) = results (self w)) by reflexivity.
  assert (He0 : errors (self w0) = errors (self w)) by reflexivity.
  assert (Ha0 : agents_config (self w0) = agents_config (self w))
    by reflexivity.
  destruct (run_agents_outcomes 0 (agents_config (self w)) w0)
    as (Hxres & Hxpo & Hxerr & Hxnames & _).
  cbv zeta in Hxres, Hxpo, Hxerr, Hxnames. fold w1 in Hxres, Hxpo, Hxerr.
  rewrite Hr0 in Hxres. rewrite He0 in Hxerr.
  change (pipeline_output (self w0))
    with (initial_output isoformat pipeline_id input_data (clock w))
    in Hxpo.
  split; [| split; [| split; [| split; [| split; [| split; [| split]]]]]].
  - intros Hres. destruct Hfs as [[-> _] | [_ [_ Hres']]]; done.
  - intros Hst. destruct Hfs as [[Hc _] | [_ [He Hres]]]; [congruence | done].
  - destruct Hfs as [[-> _] | [-> _]]; auto.
  - eexists. rewrite lookup_insert_eq. reflexivity.
  - cbv zeta. split; [exact Hxnames |]. split; [exact Hxres |].
    split; [exact Hxerr |]. now rewrite <- Hxpo.
  - intros Hfresh n r Hr.
    assert (Hm : merged (self w0)).
    { intros n' r'. rewrite Hr0, Hfresh, lookup_empty. done. }
    apply (run_agents_merged 0 (agents_config (self w)) w0) in Hm.
    etransitivity; [exact (Hm n r Hr) |].
    apply dom_insert_subseteq.
  - intros Hfresh Herr Hnd.
    pose proof (run_agents_accounting 0 (agents_config (self w)) w0 Hnd)
      as Hacc.
    cbv zeta in Hacc. fold w1 in Hacc.
    rewrite Hr0, Hfresh, He0, Herr, map_size_empty in Hacc.
    specialize (Hacc ltac:(intros; apply lookup_empty)).
    simpl in Hacc.
    split; [exact Hacc |].
    destruct Hfs as [[-> [He | Hres]] | [-> [_ Hres]]].
    + split; [| done]. intros _ Hres.
      rewrite He, Hres, map_size_empty in Hacc. simpl in Hacc.
      destruct (agents_config (self w)); [done | discriminate].
    + done.
    + split; [done | congruence].
  - intros a b c Hcfg Hfresh Herr Hac Hsa Hfb Hsc.
    rewrite Hcfg in Hxres, Hxpo, Hxerr.
    set (wa := (run_agent load_agent 0 a w0).2) in *.
    set (wb := (run_agent load_agent 1 b wa).2) in *.
    pose proof (execute_agent_outcome a (pipeline_output (self w0))
                  (agent_call_world 0 a w0)) as Houta.
    pose proof (execute_agent_outcome b (pipeline_output (self wa))
                  (agent_call_world 1 b wa)) as Houtb.
    pose proof (execute_agent_outcome c (pipeline_output (self wb))
                  (agent_call_world 2 c wb)) as Houtc.
    destruct (Hsa (pipeline_output (self w0)) (agent_call_world 0 a w0))
      as [ra' Hra'].
    destruct (Hfb (pipeline_output (self wa)) (agent_call_world 1 b wa))
      as [eb' Heb'].
    destruct (Hsc (pipeline_output (self wb)) (agent_call_world 2 c wb))
      as [rc' Hrc'].
    rewrite Hra' in Houta. rewrite Heb' in Houtb. rewrite Hrc' in Houtc.
    cbn [agent_outcomes] in Hxres, Hxpo, Hxerr. fold wa wb in Hxres, Hxpo, Hxerr.
    destruct (agent_outcome load_agent a _ _) as [ra | ea] eqn:Ea;
      [| discriminate Houta].
    destruct (agent_outcome load_agent b _ _) as [rb | eb] eqn:Eb;
      [discriminate Houtb |].
    destruct (agent_outcome load_agent c _ _) as [rc | ec] eqn:Ec;
      [| discriminate Houtc].
    exists ra, eb, rc.
    cbn [agent_outcomes]. fold wa wb. rewrite Ea, Eb, Ec.
    split; [reflexivity |].
    rewrite !returned_results_cons in Hxres, Hxpo.
    rewrite !failure_messages_cons in Hxerr.
    change (returned_results []) with (@nil (string * dict)) in Hxres, Hxpo.
    change (failure_messages []) with (@nil string) in Hxerr.
    cbn [record_results merge_results foldl fst snd] in Hxres, Hxpo.
    rewrite Hfresh in Hxres. rewrite Herr in Hxerr. simpl app in Hxerr.
    assert (Hsize : size (results (self w1)) = 2%nat).
    { rewrite Hxres, map_size_insert_None, map_size_insert_None,
        map_size_empty; [done | apply lookup_empty |].
      rewrite lookup_insert_ne by done. apply lookup_empty. }
    split.
    { destruct Hfs as [[-> _] | [_ [_ Hres]]]; [done |].
      rewrite Hres, map_size_empty in Hsize. discriminate. }
    split; [exact Hxres |]. split; [exact Hsize |].
    split; [exact Hxerr |].
    split; [now rewrite <- Hxpo |].
    rewrite dom_insert_L, Hxpo, !dom_union_L. apply union_least.
    + do 2 (etransitivity; [| apply union_subseteq_r]).
      apply union_subseteq_l.
    + etransitivity; [| apply union_subseteq_r]. apply union_subseteq_l.
Qed.

(** C10: [run_pipeline] starts from the [results] and [errors] the
    orchestrator already holds and never empties them: after a run every
    earlier result name is still in [results] and [errors] has only grown.
    So a run in which every agent fails, on an orchestrator that holds a
    result of an earlier run, ends COMPLETED; its summary counts the
    earlier results as successful agents and the earlier errors among the
    failed ones, and the success rate of its closing event is computed
    from the earlier results. *)
Theorem state_accumulates_across_runs (pipeline_id : string)
    (input_data : dict) (w : World Orchestrator) :
  agents_config (self w) <> [] ->
  exists output w',
    run_pipeline load_agent isoformat pipeline_id input_data w
    = (Returned output, w')
    /\ dom (results (self w)) ⊆ dom (results (self w'))
    /\ (exists new, errors (self w') = errors (self w) ++ new)
    /\ (results (self w) <> ∅ ->
        Forall (agent_fails load_agent) (agents_config (self w)) ->
        status (self w') = COMPLETED
        /\ results (self w') = results (self w)
        /\ length (errors (self w'))
           = (length (errors (self w)) + length (agents_config (self w)))%nat
        /\ exists elapsed,
             output !! "processing_summary"
             = Some (PyDict
                 {[ "total_agents" :=
                      PyInt (Z.of_nat (length (agents_config (self w))));
                    "successful_agents" :=
                      PyInt (Z.of_nat (size (results (self w))));
                    "failed_agents" :=
                      PyInt (Z.of_nat (length (errors (self w))
                                       + length (agents_config (self w))));
                    "processing_time" := PyFloat elapsed;
                    "errors" := PyList (PyStr <$> errors (self w')) ]})
             /\ last (published (self w'))
                = Some (pipeline_completed "completed" elapsed
                          ((inject_Z (Z.of_nat (size (results (self w))))
                            / inject_Z (Z.of_nat
                                (length (agents_config (self w))))) * 100)
                          (length (agents_config (self w)))
                          (size (results (self w)))
                          (length (errors (self w))
                           + length (agents_config (self w))))).
Proof.
  intros Hne.
  rewrite (run_pipeline_run pipeline_id input_data w Hne). cbv zeta.
  set (w0 := loop_world isoformat pipeline_id input_data w).
  set (w1 := (run_agents load_agent 0 (agents_config (self w)) w0).2).
  eexists _, _. split; [reflexivity |].
  cbn [self update_self].
  change (results (finished (clock w) w1)) with (results (self w1)).
  change (errors (finished (clock w) w1)) with (errors (self w1)).
  rewrite status_finished.
  destruct (run_agents_grows 0 (agents_config (self w)) w0)
    as (_ & Hac & Herr & Hres & _).
  fold w1 in Hac, Herr, Hres.
  change (agents_config (self w0)) with (agents_config (self w)) in Hac.
  split; [exact Hres |]. split; [exact Herr |].
  intros Hsome Hall.
  destruct (run_agents_all_fail 0 (agents_config (self w)) w0 Hall)
    as (Hres' & _ & new & Herr' & Hlen).
  fold w1 in Hres', Herr'.
  change (results (self w0)) with (results (self w)) in Hres'.
  change (errors (self w0)) with (errors (self w)) in Herr'.
  assert (Hfinal : final_status (self w1) = COMPLETED).
  { destruct (final_status_cases (self w1)) as [[-> _] | [_ [_ Hempty]]];
      [done | congruence]. }
  split; [exact Hfinal |]. split; [exact Hres' |].
  split; [rewrite Herr', length_app; lia |].
  exists (total_seconds (clock w1 - clock w)). split.
  - unfold finished. cbn [pipeline_output set_pipeline_output publish_in
      set_published].
    rewrite lookup_insert_eq. unfold processing_summary.
    cbn [agents_config results errors set_end_time set_status].
    rewrite Hac, Hres', Herr', length_app, Hlen. reflexivity.
  - unfold finished. cbn [published publish_in set_published].
    rewrite last_snoc. unfold success_rate.
    cbn [status agents_config results errors set_end_time set_status
         set_pipeline_output].
    rewrite Hfinal, Hac, Hres', Herr', length_app, Hlen. reflexivity.
Qed.

End Orchestration.

(** *** The class's own loader *)

Lemma mock_agent_succeeds (c : agent_config) :
  name c ∈ mock_agents ->
  (0 < default 120 (timeout c))%Z ->
  agent_succeeds _load_agent c.
Proof.
  intros Hin Ht input_data w. unfold execute_agent, _load_agent.
  rewrite bool_decide_eq_true_2 by done.
  cbv [mbind M_bind now try_except wait_for].
  destruct (Z.leb_spec (default 120%Z (timeout c)) 0) as [| _]; [lia |].
  cbn [agent_task MockAgent duration run_duration].
  destruct (Z.ltb_spec (Z.of_N 100000) (seconds (default 120%Z (timeout c))))
    as [_ | Hge]; [| unfold seconds in Hge; lia].
  eexists. reflexivity.
Qed.

Lemma unknown_agent_fails (c : agent_config) :
  name c ∉ mock_agents -> agent_fails _load_agent c.
Proof.
  intros Hin input_data w. unfold execute_agent, _load_agent.
  rewrite bool_decide_eq_false_2 by done.
  eexists. reflexivity.
Qed.

Lemma mock_agent_outcome (c : agent_config) (input_data : dict) w :
  name c ∈ mock_agents ->
  (0 < default 120 (timeout c))%Z ->
  agent_outcome _load_agent c input_data w
  = Returned (mock_result (name c)).
Proof.
  intros Hin Ht.
  rewrite (agent_outcome_loaded _load_agent c (MockAgent (name c)));
    [| unfold _load_agent; now rewrite bool_decide_eq_true_2 | exact Ht].
  cbn [MockAgent run_duration run_result]. cbv zeta.
  destruct (Z.ltb_spec (Z.of_N 100000) (seconds (default 120%Z (timeout c))))
    as [_ | Hge]; [reflexivity | unfold seconds in Hge; lia].
Qed.

Lemma unknown_agent_outcome (c : agent_config) (input_data : dict) w :
  name c ∉ mock_agents ->
  agent_outcome _load_agent c input_data w
  = Raised (Exception ("Could not load agent " +:+ class c)).
Proof.
  intros Hin. unfold agent_outcome, _load_agent.
  now rewrite bool_decide_eq_false_2.
Qed.

(** *** The scenarios *)

(** The theorem at work on the class's own loader: the first and the
    third agent are mocks, the second cannot be loaded. *)
Lemma partial_failure_policy_witness :
  exists output w',
    run_pipeline _load_agent micros "run-1" test_input
      (world_at 0 (set_agents_config three_agents new_orchestrator))
    = (Returned output, w')
    /\ status (self w') = COMPLETED
    /\ results (self w')
       = <["keyword_analyzer" := mock_result "keyword_analyzer"]>
           (<["market_research" := mock_result "market_research"]> ∅)
    /\ errors (self w')
       = ["Agent publisher failed: Could not load agent PublisherAgent"]
    /\ output !! "market_research_result"
       = Some (PyStr "Mock result from market_research").
Proof.
  destruct (partial_failure_policy _load_agent micros "run-1" test_input
              (world_at 0 (set_agents_config three_agents new_orchestrator)))
    as (output & w' & Hrun & _ & _ & _ & _ & _ & _ & _ & Hthree);
    [simpl; discriminate |].
  destruct (Hthree market_research publisher keyword_analyzer)
    as (ra & eb & rc & Hturns & Hst & Hres & _ & Herr & Hout & _).
  - reflexivity.
  - reflexivity.
  - reflexivity.
  - simpl. discriminate.
  - apply mock_agent_succeeds; [compute_done | simpl; lia].
  - apply unknown_agent_fails. compute_done.
  - apply mock_agent_succeeds; [compute_done | simpl; lia].
  - cbn [agent_outcomes] in Hturns.
    rewrite (mock_agent_outcome market_research) in Hturns
      by (compute_done || (simpl; lia)).
    rewrite (unknown_agent_outcome publisher) in Hturns by compute_done.
    rewrite (mock_agent_outcome keyword_analyzer) in Hturns
      by (compute_done || (simpl; lia)).
    injection Hturns as <- <- <-.
    exists output, w'. split; [exact Hrun |]. split; [exact Hst |].
    split; [exact Hres |]. split; [exact Herr |].
    rewrite Hout. rewrite lookup_insert_ne by discriminate.
    rewrite lookup_union_r by reflexivity.
    apply lookup_union_Some_l. reflexivity.
Defined.

(** The three-agent run computed: the one error is the literal message,
    the summary gives the counts 3, 2 and 1, and the output has the result
    keys of the first and of the third agent. *)
Lemma three_agents_run :
  exists output w',
    run_pipeline _load_agent micros "run-1" test_input
      (world_at 0 (set_agents_config three_agents new_orchestrator))
    = (Returned output, w')
    /\ status (self w') = COMPLETED
    /\ size (results (self w')) = 2%nat
    /\ errors (self w')
       = ["Agent publisher failed: Could not load agent PublisherAgent"]
    /\ output !! "market_research_result"
       = Some (PyStr "Mock result from market_research")
    /\ output !! "keyword_analyzer_result"
       = Some (PyStr "Mock result from keyword_analyzer")
    /\ output !! "processing_summary"
       = Some (PyDict
           {[ "total_agents" := PyInt 3;
              "successful_agents" := PyInt 2;
              "failed_agents" := PyInt 1;
              "processing_time" := PyFloat (total_seconds 200000);
              "errors" :=
                PyList [PyStr "Agent publisher failed: Could not load agent PublisherAgent"] ]}).
Proof.
  eexists _, _. split.
  - apply (computed_return ∅). vm_compute. reflexivity.
  - repeat split; vm_compute; reflexivity.
Qed.

Lemma probe_loader_mock (input_data : dict) w :
  agent_outcome probe_loader market_research input_data w
  = Returned (mock_result "market_research").
Proof.
  rewrite (agent_outcome_loaded probe_loader market_research
             (MockAgent "market_research")); reflexivity.
Qed.

(** The theorem at work: the mock of the market research has its turn,
    then the probe, an agent that returns what it finds in its input under
    the key of the market research.  It finds the mock's result: the
    probe was run on the merged state. *)
Lemma pipeline_state_grows_witness :
  results
    (self (run_agents probe_loader 0 [market_research; probe]
             (world_at 0 new_orchestrator)).2) !! "probe"
  = Some ({[ "probe_found" := PyStr "Mock result from market_research" ]}
          : dict)
  /\ pipeline_output
       (self (run_agents probe_loader 0 [market_research]
                (world_at 0 new_orchestrator)).2)
     = mock_result "market_research" ∪ ∅.
Proof.
  pose proof (pipeline_state_grows probe_loader 0 [market_research] probe []
                (world_at 0 new_orchestrator))
    as (Hloop & Hstate & Hrun & Hturn & _).
  cbv zeta in Hloop, Hstate, Hrun, Hturn.
  cbn [agent_outcomes] in Hstate, Hrun, Hturn.
  rewrite probe_loader_mock in Hstate, Hrun, Hturn.
  change (returned_results [(market_research,
                             Returned (mock_result "market_research"))])
    with [("market_research", mock_result "market_research")]
    in Hstate, Hrun, Hturn.
  cbn [merge_results foldl snd] in Hstate, Hrun, Hturn.
  change (pipeline_output (self (world_at 0 new_orchestrator)))
    with (∅ : dict) in Hstate, Hrun, Hturn.
  split; [| exact Hstate].
  change ([market_research; probe]) with ([market_research] ++ probe :: []).
  rewrite Hloop, run_agents_nil. cbn [snd].
  rewrite (Hrun ProbeAgent eq_refl eq_refl) in Hturn.
  cbn [ProbeAgent run_duration run_result] in Hturn.
  change (Z.of_N 0 <? seconds (default 120%Z (timeout probe)))%Z
    with true in Hturn.
  cbv iota in Hturn. destruct Hturn as (-> & _).
  rewrite lookup_insert_eq. do 2 f_equal.
Defined.

(** A first run in which all seven agents succeed, then a run of two
    agents that both fail: it ends COMPLETED all the same. *)
Lemma state_accumulates_across_runs_witness :
  exists output w',
    run_pipeline _load_agent micros "run-2" test_input before_second_run
    = (Returned output, w')
    /\ status (self w') = COMPLETED
    /\ results (self w') = results (self before_second_run)
    /\ length (errors (self w'))
       = (length (errors (self before_second_run)) + 2)%nat.
Proof.
  destruct (state_accumulates_across_runs _load_agent micros "run-2"
              test_input before_second_run)
    as (output & w' & Hrun & _ & _ & H); [vm_compute; discriminate |].
  destruct H as (Hst & Hres & Hlen & _).
  - intros Hempty. apply (f_equal size) in Hempty.
    vm_compute in Hempty. discriminate Hempty.
  - change (agents_config (self before_second_run))
      with [publisher; quality_check].
    repeat constructor; apply unknown_agent_fails; compute_done.
  - exists output, w'. repeat split; assumption.
Defined.

(** The second run computed: two agents ran and none succeeded, yet the
    summary reports 7 successful agents, and the closing event a success
    rate of 350 percent. *)
Lemma second_run :
  exists output w',
    run_pipeline _load_agent micros "run-2" test_input before_second_run
    = (Returned output, w')
    /\ status (self w') = COMPLETED
    /\ size (results (self w')) = 7%nat
    /\ errors (self w')
       = ["Agent publisher failed: Could not load agent PublisherAgent";
          "Agent quality_check failed: Could not load agent QualityCheckAgent"]
    /\ output !! "processing_summary"
       = Some (PyDict
           {[ "total_agents" := PyInt 2;
              "successful_agents" := PyInt 7;
              "failed_agents" := PyInt 2;
              "processing_time" := PyFloat (total_seconds 0);
              "errors" :=
                PyList [PyStr "Agent publisher failed: Could not load agent PublisherAgent";
                        PyStr "Agent quality_check failed: Could not load agent QualityCheckAgent"] ]})
    /\ last (published (self w'))
       = Some (pipeline_completed "completed" (total_seconds 0)
                 ((7 / 2) * 100) 2 7 2).
Proof.
  eexists _, _. split.
  - apply (computed_return ∅). vm_compute. reflexivity.
  - repeat split; vm_compute; reflexivity.
Qed.

End PipelineFacts.
(* ================================================================== *)
(** ** More properties of the orchestrator *)
(* ================================================================== *)

Module PipelineMore.
Import Async Pipeline AsyncFacts PipelineFacts PyStringMore.

Section Orchestration.

Variable load_agent : agent_config -> outcome agent.
Variable isoformat : Z -> string.

Lemma published_progress_reports (reports : list ProgressReport) o :
  published (foldl (fun o r => progress_callback r o) o reports)
  = published o ++ (progress_event <$> reports).
Proof.
  revert o. induction reports as [| r reports IH]; intros o; simpl.
  - now rewrite app_nil_r.
  - rewrite IH. simpl. now rewrite <- app_assoc.
Qed.

Lemma forallb_progress_events (reports : list ProgressReport) :
  forallb is_progress (progress_event <$> reports) = true.
Proof. induction reports as [| r reports IH]; [reflexivity | exact IH]. Qed.

(** Awaiting an agent publishes progress events only. *)
Lemma wait_for_agent_published (a : agent) (input_data : dict) (timeout : Z)
    w :
  exists progress,
    published (self (wait_for (agent_task a input_data) timeout w).2)
    = published (self w) ++ progress
    /\ forallb is_progress progress = true.
Proof.
  unfold wait_for.
  destruct (timeout <=? 0)%Z.
  { exists []. simpl. now rewrite app_nil_r. }
  cbn [agent_task duration on_start on_finish result].
  set (r := a input_data (clock w)).
  destruct (run_duration r) as [d |]; simpl.
  - destruct (Z.of_N d <? seconds timeout)%Z; simpl.
    + exists ((progress_event <$> reports_on_start r)
              ++ (progress_event <$> reports_on_finish r)).
      rewrite !published_progress_reports, <- app_assoc.
      split; [reflexivity |].
      rewrite forallb_app, !forallb_progress_events. reflexivity.
    + exists (progress_event <$> reports_on_start r).
      rewrite published_progress_reports.
      split; [reflexivity | apply forallb_progress_events].
  - exists (progress_event <$> reports_on_start r).
    rewrite published_progress_reports.
    split; [reflexivity | apply forallb_progress_events].
Qed.

Lemma ends_turn_of_refl_completed n d : ends_turn_of n (agent_completed n d) = true.
Proof. simpl. apply String.eqb_refl. Qed.

(** One turn of the loop: its events and what it costs. *)
Lemma run_agent_turn (i : nat) (config : agent_config) w :
  let w' := (run_agent load_agent i config w).2 in
  (exists progress ending,
     published (self w')
     = published (self w)
       ++ agent_started (name config) (i + 1)
            (length (agents_config (self w)))
          :: progress ++ [ending]
     /\ forallb is_progress progress = true
     /\ ends_turn_of (name config) ending = true)
  /\ slept w' = slept w
  /\ (clock w <= clock w'
      <= clock w + Z.max 0 (seconds (default 120 (timeout config))))%Z
  /\ (awaited w <= awaited w' <= S (awaited w))%nat.
Proof.
  cbv zeta. rewrite run_agent_cases, execute_agent_run. cbv zeta.
  set (w0 := agent_call_world i config w).
  assert (Hp0 : published (self w0)
                = published (self w)
                  ++ [agent_started (name config) (i + 1)
                        (length (agents_config (self w)))]) by reflexivity.
  assert (Hf : clock w0 = clock w /\ slept w0 = slept w
               /\ awaited w0 = awaited w) by done.
  destruct Hf as (Hc0 & Hs0 & Ha0).
  assert (Hmax : (0 <= Z.max 0 (seconds (default 120 (timeout config))))%Z)
    by lia.
  destruct (load_agent config) as [a | e].
  - destruct (wait_for_agent_published a (pipeline_output (self w))
                (default 120%Z (timeout config)) w0)
      as (progress & Hp & Hprog).
    pose proof (wait_for_world (agent_task a (pipeline_output (self w)))
                  (default 120%Z (timeout config)) w0) as (Hs & Ha & Hc).
    destruct (wait_for _ _ w0) as [[result | e] w1];
      cbn [fst snd] in Hp, Hs, Ha, Hc |- *;
      cbn [update_self self clock slept awaited publish_in set_published
           set_errors set_results set_pipeline_output published].
    + split; [| split; [congruence | split; lia]].
      exists progress, (agent_completed (name config)
        (<["processing_time" := PyFloat (total_seconds (clock w1 - clock w0))]>
           result)).
      rewrite Hp, Hp0, <- !app_assoc.
      split; [reflexivity |]. split; [exact Hprog |].
      apply ends_turn_of_refl_completed.
    + split; [| split; [congruence | split; lia]].
      eexists progress, _.
      rewrite Hp, Hp0, <- !app_assoc.
      split; [reflexivity |]. split; [exact Hprog |].
      destruct e; simpl; apply String.eqb_refl.
  - cbn [fst snd update_self self clock slept awaited publish_in
         set_published set_errors published].
    split; [| split; [congruence | split; lia]].
    eexists [], _. rewrite Hp0, <- app_assoc.
    split; [reflexivity |]. split; [reflexivity |].
    destruct e; simpl; apply String.eqb_refl.
Qed.

Lemma total_timeout_nonneg (configs : list agent_config) :
  (0 <= total_timeout configs)%Z.
Proof.
  induction configs as [| c rest IH]; [done |].
  cbn [total_timeout foldr]. fold (total_timeout rest). lia.
Qed.

(** The loop: its events and what it costs. *)
Lemma run_agents_turns (i : nat) (configs : list agent_config) w :
  let w' := (run_agents load_agent i configs w).2 in
  (exists events,
     published (self w') = published (self w) ++ events
     /\ agent_turns (length (agents_config (self w))) i configs events)
  /\ slept w' = slept w
  /\ (clock w <= clock w' <= clock w + total_timeout configs)%Z
  /\ (awaited w <= awaited w' <= awaited w + length configs)%nat.
Proof.
  revert i w. induction configs as [| c rest IH]; intros i w.
  - cbv zeta. simpl. split; [| split; [done | split; lia]].
    exists []. now rewrite app_nil_r.
  - cbv zeta. rewrite run_agents_cons.
    destruct (run_agent_turn i c w)
      as ((progress & ending & Hp & Hprog & Hend) & Hs & Hc & Ha).
    destruct (run_agent_effect load_agent i c w) as (w1 & Hw & _ & Hac & _).
    rewrite Hw in Hp, Hs, Hc, Ha |- *. cbn [snd] in Hp, Hs, Hc, Ha |- *.
    destruct (IH (S i) w1) as ((events & Hp' & Hturns) & Hs' & Hc' & Ha').
    cbv zeta in Hp', Hs', Hc', Ha'.
    cbn [total_timeout foldr]. fold (total_timeout rest).
    split; [| split; [congruence | split; simpl length; lia]].
    exists (agent_started (name c) (i + 1) (length (agents_config (self w)))
            :: progress ++ ending :: events).
    split.
    + rewrite Hp', Hp, <- !app_assoc. simpl. now rewrite <- app_assoc.
    + cbn [agent_turns]. exists progress, ending, events.
      rewrite Hac in Hturns. done.
Qed.

Lemma core_times (o o' : Orchestrator) :
  core o' = core o ->
  start_time o' = start_time o /\ end_time o' = end_time o.
Proof. unfold core. intros [= _ _ _ _ -> -> _]. done. Qed.

Lemma run_agent_times (i : nat) (config : agent_config) w :
  start_time (self (run_agent load_agent i config w).2) = start_time (self w)
  /\ end_time (self (run_agent load_agent i config w).2) = end_time (self w).
Proof.
  rewrite run_agent_cases.
  destruct (execute_agent_effect load_agent config
              (pipeline_output (self w)) (agent_call_world i config w))
    as (r & w1 & -> & Hr).
  destruct r as [r | e]; cbn [snd].
  - apply core_times in Hr. exact Hr.
  - destruct Hr as (e0 & _ & Hr). apply core_times in Hr. exact Hr.
Qed.

Lemma run_agents_times (i : nat) (configs : list agent_config) w :
  start_time (self (run_agents load_agent i configs w).2)
  = start_time (self w)
  /\ end_time (self (run_agents load_agent i configs w).2)
     = end_time (self w).
Proof.
  revert i w. induction configs as [| c rest IH]; intros i w; [done |].
  rewrite run_agents_cons.
  destruct (IH (S i) (run_agent load_agent i c w).2) as [-> ->].
  apply run_agent_times.
Qed.

(** X23: the events of a run over a non-empty agent list, in order:
    [pipeline_started] with the keys of the input; then for each agent in
    turn its [agent_started], numbered from 1, progress events only, and
    the one event that ends its turn; last [pipeline_completed], which
    carries the final status, the measured duration and the counts. *)
Theorem run_pipeline_events (pipeline_id : string) (input_data : dict)
    (w : World Orchestrator) :
  agents_config (self w) <> [] ->
  let run := run_pipeline load_agent isoformat pipeline_id input_data w in
  let o' := self run.2 in
  exists turns,
    published o'
    = published (self w)
      ++ pipeline_started (map_to_list input_data).*1
         :: turns
      ++ [pipeline_completed (status_value (status o'))
            (total_seconds (clock run.2 - clock w)) (success_rate o')
            (length (agents_config o')) (size (results o'))
            (length (errors o'))]
    /\ agent_turns (length (agents_config (self w))) 0
         (agents_config (self w)) turns.
Proof.
  intros Hne. cbv zeta. rewrite (run_pipeline_run _ _ _ _ _ Hne). cbv zeta.
  set (w0 := loop_world isoformat pipeline_id input_data w).
  destruct (run_agents_turns 0 (agents_config (self w)) w0)
    as ((turns & Hp & Hturns) & _).
  cbv zeta in Hp. exists turns. split; [| exact Hturns].
  cbn [snd update_self self clock]. unfold finished.
  cbn [publish_in set_published set_pipeline_output set_end_time set_status
       published status agents_config results errors].
  rewrite Hp. unfold w0, loop_world.
  cbn [update_self self publish_in set_published set_pipeline_output
       set_status set_start_time published].
  rewrite <- !app_assoc. reflexivity.
Qed.

(** X24: a run over a non-empty agent list awaits each agent at most
    once and ends within the sum of the agents' timeouts, the default of
    120 seconds standing in for a missing one; it records when it started
    and when it ended, and the summary reports the time between the
    two. *)
Theorem run_pipeline_duration (pipeline_id : string) (input_data : dict)
    (w : World Orchestrator) :
  agents_config (self w) <> [] ->
  let run := run_pipeline load_agent isoformat pipeline_id input_data w in
  let o' := self run.2 in
  (awaited w <= awaited run.2
   <= awaited w + length (agents_config (self w)))%nat
  /\ (clock w <= clock run.2
      <= clock w + total_timeout (agents_config (self w)))%Z
  /\ start_time o' = Some (clock w)
  /\ end_time o' = Some (clock run.2)
  /\ exists output summary,
       run.1 = Returned output
       /\ output !! "processing_summary" = Some (PyDict summary)
       /\ summary !! "processing_time"
          = Some (PyFloat (total_seconds (clock run.2 - clock w))).
Proof.
  intros Hne. cbv zeta. rewrite (run_pipeline_run _ _ _ _ _ Hne). cbv zeta.
  set (w0 := loop_world isoformat pipeline_id input_data w).
  destruct (run_agents_turns 0 (agents_config (self w)) w0)
    as (_ & Hs & Hc & Ha).
  destruct (run_agents_times 0 (agents_config (self w)) w0) as [Hst Het].
  cbv zeta in Hs, Hc, Ha.
  cbn [fst snd update_self self clock slept awaited].
  split; [exact Ha |]. split; [exact Hc |].
  unfold finished.
  cbn [publish_in set_published set_pipeline_output set_end_time set_status
       start_time end_time pipeline_output].
  split; [rewrite Hst; reflexivity |]. split; [reflexivity |].
  eexists _, _. split; [reflexivity |].
  split; [apply lookup_insert_eq | reflexivity].
Qed.

(** The loop leaves alone the keys no agent returns. *)
Lemma run_agents_keeps_key (k : string) (i : nat)
    (configs : list agent_config) w :
  (forall c input_data w0 r,
     c ∈ configs ->
     (execute_agent load_agent c input_data w0).1 = Returned r ->
     r !! k = None) ->
  pipeline_output (self (run_agents load_agent i configs w).2) !! k
  = pipeline_output (self w) !! k.
Proof.
  revert i w. induction configs as [| c rest IH]; intros i w Hk; [done |].
  rewrite run_agents_cons.
  rewrite IH by (intros c' ? ? ? Hin; apply Hk; now right).
  destruct (run_agent_effect load_agent i c w) as (w1 & -> & _ & _ & Hcases).
  cbn [snd].
  destruct Hcases as [(r & Hr & _ & -> & _) | (e & msg & _ & _ & -> & _)];
    [| reflexivity].
  apply lookup_union_r. eapply Hk; [now left | exact Hr].
Qed.

(** X25: what the caller put in survives: a key that no agent returns,
    other than "processing_summary", has in the output the value the run
    started with, which is the input's when the input has the key (a
    "pipeline_id" or "language" of the input replaces the generated
    one). *)
Theorem run_pipeline_keeps_unwritten_keys (pipeline_id : string)
    (input_data : dict) (w : World Orchestrator) (k : string) :
  agents_config (self w) <> [] ->
  k <> "processing_summary" ->
  (forall c input_data w0 r,
     c ∈ agents_config (self w) ->
     (execute_agent load_agent c input_data w0).1 = Returned r ->
     r !! k = None) ->
  exists output,
    (run_pipeline load_agent isoformat pipeline_id input_data w).1
    = Returned output
    /\ output !! k
       = (input_data ∪
          ({[ "pipeline_id" := PyStr pipeline_id;
              "generated_at" := PyStr (isoformat (clock w));
              "language" := PyStr "english" ]} : dict)) !! k
    /\ (forall v, input_data !! k = Some v -> output !! k = Some v).
Proof.
  intros Hne Hk Hagents. rewrite (run_pipeline_run _ _ _ _ _ Hne). cbv zeta.
  eexists. split; [reflexivity |].
  assert (Hout : pipeline_output
            (finished (clock w)
               (run_agents load_agent 0 (agents_config (self w))
                  (loop_world isoformat pipeline_id input_data w)).2) !! k
          = (input_data ∪
             ({[ "pipeline_id" := PyStr pipeline_id;
                 "generated_at" := PyStr (isoformat (clock w));
                 "language" := PyStr "english" ]} : dict)) !! k).
  { unfold finished.
    cbn [publish_in set_published set_pipeline_output set_end_time
         set_status pipeline_output].
    rewrite lookup_insert_ne by done.
    now rewrite (run_agents_keeps_key k 0 _ _ Hagents). }
  split; [exact Hout |].
  intros v Hv. rewrite Hout. now apply lookup_union_Some_l.
Qed.

Lemma list_to_set_remove_dups (l : list string) :
  list_to_set (C := gset string) l = list_to_set (remove_dups l).
Proof.
  apply set_eq. intros x.
  now rewrite !elem_of_list_to_set, elem_of_remove_dups.
Qed.

(** Agents that all succeed: every name gets a result and no error is
    added. *)
Lemma run_agents_all_succeed (i : nat) (configs : list agent_config) w :
  Forall (agent_succeeds load_agent) configs ->
  let o := self w in
  let o' := self (run_agents load_agent i configs w).2 in
  dom (results o') = dom (results o) ∪ list_to_set (name <$> configs)
  /\ errors o' = errors o.
Proof.
  revert i w. induction configs as [| c rest IH]; intros i w Hall.
  - cbv zeta. simpl. split; [| done].
    now rewrite (right_id_L ∅ (∪)).
  - apply Forall_cons in Hall as [Hc Hrest]. cbv zeta.
    rewrite run_agents_cons.
    destruct (IH (S i) (run_agent load_agent i c w).2 Hrest) as [Hd He].
    cbv zeta in Hd, He. rewrite Hd, He.
    destruct (run_agent_succeeds load_agent i c w Hc)
      as (r & _ & Hres & _ & Herr).
    cbv zeta in Hres, Herr. rewrite Hres, Herr, dom_insert_L.
    split; [| done]. rewrite fmap_cons, list_to_set_cons.
    rewrite (comm_L (∪) {[name c]} (dom (results (self w)))).
    now rewrite <- (assoc_L (∪)).
Qed.

(** X26: results are kept by name.  When every agent of a non-empty list
    succeeds, the run ends COMPLETED without a new error and the names
    with a result are the earlier ones and those of the list: agents that
    share a name share one result, so the count of successful agents is a
    count of names. *)
Theorem results_are_kept_by_name (pipeline_id : string) (input_data : dict)
    (w : World Orchestrator) :
  agents_config (self w) <> [] ->
  Forall (agent_succeeds load_agent) (agents_config (self w)) ->
  let o' :=
    self (run_pipeline load_agent isoformat pipeline_id input_data w).2 in
  status o' = COMPLETED
  /\ errors o' = errors (self w)
  /\ dom (results o')
     = dom (results (self w))
       ∪ list_to_set (name <$> agents_config (self w))
  /\ (results (self w) = ∅ ->
      size (results o')
      = length (remove_dups (name <$> agents_config (self w)))).
Proof.
  intros Hne Hall. cbv zeta. rewrite (run_pipeline_run _ _ _ _ _ Hne).
  cbv zeta. cbn [snd update_self self].
  set (w0 := loop_world isoformat pipeline_id input_data w).
  destruct (run_agents_all_succeed 0 (agents_config (self w)) w0 Hall)
    as [Hd He].
  cbv zeta in Hd, He.
  set (w1 := (run_agents load_agent 0 (agents_config (self w)) w0).2) in *.
  rewrite status_finished.
  assert (Hres : results (finished (clock w) w1) = results (self w1))
    by reflexivity.
  assert (Herr : errors (finished (clock w) w1) = errors (self w1))
    by reflexivity.
  rewrite Hres, Herr, Hd, He.
  assert (Hsome : results (self w1) <> ∅).
  { intros Hempty. apply (f_equal dom) in Hempty.
    rewrite Hd, dom_empty_L in Hempty.
    destruct (agents_config (self w)) as [| c rest]; [done |].
    rewrite fmap_cons, list_to_set_cons in Hempty.
    apply empty_union_L in Hempty as [_ Hempty].
    apply empty_union_L in Hempty as [Hempty _].
    now apply non_empty_singleton_L in Hempty. }
  split.
  { destruct (final_status_cases (self w1)) as [[-> _] | (_ & _ & H)];
      done. }
  split; [reflexivity |]. split; [reflexivity |].
  intros Hempty. change (results (self w0)) with (results (self w)) in Hd.
  rewrite Hempty, dom_empty_L, (left_id_L ∅ (∪)) in Hd.
  rewrite <- size_dom, Hd.
  rewrite (list_to_set_remove_dups (name <$> agents_config (self w))).
  apply size_list_to_set, NoDup_remove_dups.
Qed.

(** X27: when an agent cannot be awaited to its end, [execute_agent]
    raises, records the one message and publishes [agent_timeout]; the
    message names the configured timeout, 120 when none is configured.
    With a timeout that is not positive this is so for every agent, which
    then is not even started. *)
Theorem execute_agent_times_out (config : agent_config) (input_data : dict)
    (w : World Orchestrator) (a : agent) :
  load_agent config = Returned a ->
  let limit := default 120%Z (timeout config) in
  (limit <= 0)%Z
  \/ match run_duration (a input_data (clock w)) with
     | Some d => (seconds limit <= Z.of_N d)%Z
     | None => True
     end ->
  let run := execute_agent load_agent config input_data w in
  let msg :=
    "Agent " +:+ name config +:+ " timed out after " +:+ pretty limit
    +:+ "s" in
  run.1 = Raised (Exception msg)
  /\ errors (self run.2) = errors (self w) ++ [msg]
  /\ last (published (self run.2)) = Some (agent_timeout (name config) limit)
  /\ results (self run.2) = results (self w)
  /\ clock run.2 = (clock w + Z.max 0 (seconds limit))%Z
  /\ ((limit <= 0)%Z -> published (self run.2)
                        = published (self w)
                          ++ [agent_timeout (name config) limit]).
Proof.
  intros Hload limit Hlate. cbv zeta.
  rewrite execute_agent_run, Hload. cbv zeta. fold limit.
  unfold wait_for.
  destruct (Z.leb_spec limit 0) as [Hle | Hgt].
  - cbn [fst snd update_self self clock publish_in set_published set_errors
         errors published results].
    repeat split; try reflexivity.
    + apply last_snoc.
    + unfold seconds. lia.
  - destruct Hlate as [Hle | Hlate]; [lia |].
    cbn [agent_task duration].
    assert (Hpos : (0 < seconds limit)%Z) by (unfold seconds; lia).
    assert (Hcore : forall w1,
              core (self w1) = core (self w) ->
              clock w1 = (clock w + Z.max 0 (seconds limit))%Z ->
              let run :=
                (Raised (Exception (failure_message config TimeoutError)),
                 update_self (fun o =>
                   publish_in (agent_timeout (name config) limit)
                     (set_errors
                        (errors o ++ [failure_message config TimeoutError]) o))
                   w1) : outcome dict * World Orchestrator in
              run.1 = Raised (Exception ("Agent " +:+ name config
                                         +:+ " timed out after "
                                         +:+ pretty limit +:+ "s"))
              /\ errors (self run.2)
                 = errors (self w)
                   ++ ["Agent " +:+ name config +:+ " timed out after "
                       +:+ pretty limit +:+ "s"]
              /\ last (published (self run.2))
                 = Some (agent_timeout (name config) limit)
              /\ results (self run.2) = results (self w)
              /\ clock run.2 = (clock w + Z.max 0 (seconds limit))%Z
              /\ ((limit <= 0)%Z ->
                  published (self run.2)
                  = published (self w)
                    ++ [agent_timeout (name config) limit])).
    { intros w1 Hc Hclock. cbv zeta.
      apply core_fields in Hc as (_ & _ & Hres & Herr & _).
      cbn [fst snd update_self self clock publish_in set_published
           set_errors errors published results].
      rewrite Herr, Hres.
      repeat split; try reflexivity; try assumption.
      - apply last_snoc.
      - lia. }
    destruct (run_duration (a input_data (clock w))) as [d |].
    + apply Z.ltb_ge in Hlate. rewrite Hlate.
      apply Hcore; [| reflexivity].
      cbn [self advance update_self on_start agent_task].
      apply core_progress_reports.
    + apply Hcore; [| reflexivity].
      cbn [self advance update_self on_start agent_task].
      apply core_progress_reports.
Qed.

(** X28: with an empty agent list [run_pipeline] does not return: the
    success rate of the closing event divides by zero in the [finally]
    block.  The orchestrator is left with its final status and both times
    set, and with [pipeline_started] as the only new event. *)
Theorem run_pipeline_without_agents (pipeline_id : string)
    (input_data : dict) (w : World Orchestrator) :
  agents_config (self w) = [] ->
  let run := run_pipeline load_agent isoformat pipeline_id input_data w in
  run.1 = Raised (Exception "division by zero")
  /\ status (self run.2) = final_status (self w)
  /\ start_time (self run.2) = Some (clock w)
  /\ end_time (self run.2) = Some (clock w)
  /\ results (self run.2) = results (self w)
  /\ errors (self run.2) = errors (self w)
  /\ published (self run.2)
     = published (self w) ++ [pipeline_started (map_to_list input_data).*1].
Proof.
  intros Hnil. cbv zeta.
  destruct w as [t sl aw [pub st ac res err stt ent po]].
  cbn [self agents_config] in Hnil. subst ac.
  repeat split.
Qed.

End Orchestration.

(** *** The class's own loader *)

Lemma append_inj_l (m n s : string) : m +:+ s = n +:+ s -> m = n.
Proof.
  revert n. induction m as [| a m IH]; intros [| b n] H.
  - reflexivity.
  - apply (f_equal String.length) in H.
    rewrite append_nil_l, append_cons in H. simpl in H.
    rewrite length_append in H. lia.
  - apply (f_equal String.length) in H.
    rewrite append_nil_l, append_cons in H. simpl in H.
    rewrite length_append in H. lia.
  - rewrite !append_cons in H. injection H as -> H. now rewrite (IH n H).
Qed.

Lemma result_key_contains (n : string) :
  PyString.contains "_result" (n +:+ "_result") = true.
Proof.
  apply PyStringFacts.contains_occurs. exists n, "".
  now rewrite append_nil_r.
Qed.

(** A key without "_result" in it is no agent's result key. *)
Lemma result_key_other (n k : string) :
  PyString.contains "_result" k = false -> n +:+ "_result" <> k.
Proof.
  intros Hk H. rewrite <- H, result_key_contains in Hk. discriminate.
Qed.

Lemma result_key_not_status (n : string) : n +:+ "_result" <> "status".
Proof. now apply result_key_other. Qed.

Lemma result_key_not_processing_time (n : string) :
  n +:+ "_result" <> "processing_time".
Proof. now apply result_key_other. Qed.

Lemma mock_result_lookup (m n : string) :
  mock_result m !! (n +:+ "_result")
  = if decide (m = n) then Some (PyStr ("Mock result from " +:+ m)) else None.
Proof.
  unfold mock_result. destruct (decide (m = n)) as [-> | Hne].
  - apply lookup_insert_eq.
  - rewrite lookup_insert_ne by (intros H; now apply append_inj_l in H).
    rewrite lookup_insert_ne by (apply not_eq_sym, result_key_not_status).
    apply lookup_singleton_ne, not_eq_sym, result_key_not_processing_time.
Qed.

Lemma mock_result_status (m : string) :
  mock_result m !! "status" = Some (PyStr "completed")
  /\ mock_result m !! "processing_time" = Some (PyFloat (1 # 10)).
Proof.
  unfold mock_result. split.
  - rewrite lookup_insert_ne by apply result_key_not_status.
    apply lookup_insert_eq.
  - rewrite lookup_insert_ne by apply result_key_not_processing_time.
    rewrite lookup_insert_ne by done. apply lookup_singleton_eq.
Qed.

(** One turn of the loop for a mock agent with a positive timeout. *)
Lemma run_agent_mock (i : nat) (c : agent_config) w :
  name c ∈ mock_agents ->
  (0 < default 120 (timeout c))%Z ->
  let w' := (run_agent _load_agent i c w).2 in
  results (self w') = <[name c := mock_result (name c)]> (results (self w))
  /\ pipeline_output (self w')
     = mock_result (name c) ∪ pipeline_output (self w)
  /\ errors (self w') = errors (self w)
  /\ clock w' = (clock w + 100000)%Z.
Proof.
  intros Hname Hpos. cbv zeta.
  rewrite run_agent_cases, execute_agent_run. cbv zeta.
  unfold _load_agent. rewrite bool_decide_eq_true_2 by exact Hname.
  unfold wait_for.
  destruct (Z.leb_spec (default 120%Z (timeout c)) 0) as [Hle | _]; [lia |].
  cbn [agent_task MockAgent duration run_duration].
  assert (Hlt : (Z.of_N 100000 <? seconds (default 120 (timeout c)))%Z = true).
  { apply Z.ltb_lt. unfold seconds. lia. }
  rewrite Hlt.
  cbn [result run_result snd update_self self clock advance on_start
       on_finish reports_on_start reports_on_finish foldl
       agent_call_world].
  repeat split.
Qed.

Lemma run_agents_mock (i : nat) (configs : list agent_config) w :
  Forall (fun c => name c ∈ mock_agents
                   /\ (0 < default 120 (timeout c))%Z) configs ->
  let w' := (run_agents _load_agent i configs w).2 in
  errors (self w') = errors (self w)
  /\ clock w' = (clock w + 100000 * Z.of_nat (length configs))%Z
  /\ (forall c, c ∈ configs ->
        results (self w') !! name c = Some (mock_result (name c))
        /\ pipeline_output (self w') !! (name c +:+ "_result")
           = Some (PyStr ("Mock result from " +:+ name c)))
  /\ (forall n,
        results (self w) !! n = Some (mock_result n) ->
        results (self w') !! n = Some (mock_result n))
  /\ (forall n,
        pipeline_output (self w) !! (n +:+ "_result")
        = Some (PyStr ("Mock result from " +:+ n)) ->
        pipeline_output (self w') !! (n +:+ "_result")
        = Some (PyStr ("Mock result from " +:+ n)))
  /\ (configs <> [] \/
      (pipeline_output (self w) !! "status" = Some (PyStr "completed")
       /\ pipeline_output (self w) !! "processing_time"
          = Some (PyFloat (1 # 10))) ->
      pipeline_output (self w') !! "status" = Some (PyStr "completed")
      /\ pipeline_output (self w') !! "processing_time"
         = Some (PyFloat (1 # 10))).
Proof.
  revert i w. induction configs as [| c rest IH]; intros i w Hall.
  - cbv zeta. simpl. split; [done |]. split; [lia |].
    split; [intros c Hc; now apply elem_of_nil in Hc |].
    split; [done |]. split; [done |]. intros [H | H]; done.
  - apply Forall_cons in Hall as [[Hname Hpos] Hrest]. cbv zeta.
    rewrite run_agents_cons.
    destruct (run_agent_mock i c w Hname Hpos) as (Hres & Hpo & Herr & Hc).
    cbv zeta in Hres, Hpo, Herr, Hc.
    set (w1 := (run_agent _load_agent i c w).2) in *.
    destruct (IH (S i) w1 Hrest)
      as (Herr' & Hc' & Hin & Hkeep & Hkeepo & Hstatus).
    cbv zeta in Herr', Hc', Hin, Hkeep, Hkeepo, Hstatus.
    assert (Hhead : results (self w1) !! name c = Some (mock_result (name c))
                    /\ pipeline_output (self w1) !! (name c +:+ "_result")
                       = Some (PyStr ("Mock result from " +:+ name c))).
    { rewrite Hres, Hpo. split; [apply lookup_insert_eq |].
      apply lookup_union_Some_l. rewrite mock_result_lookup.
      now rewrite decide_True. }
    split; [congruence |]. split; [simpl length; lia |].
    split.
    { intros c' [-> | Hcin]%elem_of_cons; [| now apply Hin].
      destruct Hhead as [H1 H2]. split; [now apply Hkeep | now apply Hkeepo]. }
    split.
    { intros n Hn. apply Hkeep. rewrite Hres.
      destruct (decide (name c = n)) as [<- | Hne];
        [apply lookup_insert_eq | now rewrite lookup_insert_ne]. }
    split.
    { intros n Hn. apply Hkeepo. rewrite Hpo.
      destruct (decide (name c = n)) as [<- | Hne].
      - apply lookup_union_Some_l. rewrite mock_result_lookup.
        now rewrite decide_True.
      - rewrite lookup_union_r; [exact Hn |].
        rewrite mock_result_lookup. now rewrite decide_False. }
    intros _. apply Hstatus. right. rewrite Hpo.
    destruct (mock_result_status (name c)) as [H1 H2].
    split; now apply lookup_union_Some_l.
Qed.

(** X29: with the class's loader, a list of known agents with positive
    timeouts always runs to the end: the run ends COMPLETED without a new
    error after a tenth of a second for each agent, every agent has its
    mock result, and the output has every "<name>_result"; its "status"
    is "completed" and its "processing_time" 0.1, those of the mock
    results, whatever the input had under these keys. *)
Theorem mock_pipeline_completes (isoformat : Z -> string)
    (pipeline_id : string) (input_data : dict) (w : World Orchestrator) :
  agents_config (self w) <> [] ->
  Forall (fun c => name c ∈ mock_agents /\ (0 < default 120 (timeout c))%Z)
         (agents_config (self w)) ->
  let run := run_pipeline _load_agent isoformat pipeline_id input_data w in
  exists output,
    run.1 = Returned output
    /\ status (self run.2) = COMPLETED
    /\ errors (self run.2) = errors (self w)
    /\ clock run.2
       = (clock w + 100000 * Z.of_nat (length (agents_config (self w))))%Z
    /\ (forall c, c ∈ agents_config (self w) ->
          results (self run.2) !! name c = Some (mock_result (name c))
          /\ output !! (name c +:+ "_result")
             = Some (PyStr ("Mock result from " +:+ name c)))
    /\ output !! "status" = Some (PyStr "completed")
    /\ output !! "processing_time" = Some (PyFloat (1 # 10)).
Proof.
  intros Hne Hall. cbv zeta. rewrite (run_pipeline_run _ _ _ _ _ Hne).
  cbv zeta. cbn [fst snd update_self self clock].
  set (w0 := loop_world isoformat pipeline_id input_data w).
  destruct (run_agents_mock 0 (agents_config (self w)) w0 Hall)
    as (Herr & Hc & Hin & _ & _ & Hstatus).
  cbv zeta in Herr, Hc, Hin, Hstatus.
  set (w1 := (run_agents _load_agent 0 (agents_config (self w)) w0).2) in *.
  eexists. split; [reflexivity |].
  assert (Hres : results (finished (clock w) w1) = results (self w1))
    by reflexivity.
  assert (Herrs : errors (finished (clock w) w1) = errors (self w1))
    by reflexivity.
  assert (Hpo : pipeline_output (finished (clock w) w1)
                = <["processing_summary" :=
                      processing_summary
                        (set_end_time (Some (clock w1))
                           (set_status (final_status (self w1)) (self w1)))
                        (total_seconds (clock w1 - clock w))]>
                    (pipeline_output (self w1))) by reflexivity.
  rewrite status_finished, Hres, Herrs, Hpo.
  assert (Hsome : results (self w1) <> ∅).
  { destruct (agents_config (self w)) as [| c rest]; [done |].
    destruct (Hin c) as [H _]; [now left |].
    intros Hempty. rewrite Hempty, lookup_empty in H. discriminate. }
  split.
  { destruct (final_status_cases (self w1)) as [[-> _] | (_ & _ & H)];
      done. }
  split; [exact Herr |]. split; [exact Hc |].
  split.
  { intros c Hcin. destruct (Hin c Hcin) as [H1 H2]. split; [exact H1 |].
    rewrite lookup_insert_ne; [exact H2 |].
    now apply not_eq_sym, result_key_other. }
  destruct (Hstatus (or_introl Hne)) as [H1 H2].
  split; rewrite lookup_insert_ne by done; assumption.
Qed.

(** *** Instances *)

Lemma run_pipeline_events_witness :
  let w := world_at 0 (set_agents_config three_agents new_orchestrator) in
  let run := run_pipeline _load_agent micros "run-1" test_input w in
  exists turns,
    published (self run.2)
    = pipeline_started (map_to_list test_input).*1
      :: turns
      ++ [pipeline_completed (status_value (status (self run.2)))
            (total_seconds (clock run.2 - 0)) (success_rate (self run.2))
            (length (agents_config (self run.2))) (size (results (self run.2)))
            (length (errors (self run.2)))]
    /\ agent_turns 3 0 three_agents turns.
Proof.
  exact (run_pipeline_events _load_agent micros "run-1" test_input
           (world_at 0 (set_agents_config three_agents new_orchestrator))
           ltac:(discriminate)).
Defined.

Lemma run_pipeline_duration_witness :
  let run :=
    run_pipeline _load_agent micros "run-1" test_input
      (world_at 0 new_orchestrator) in
  (awaited run.2 <= 7)%nat
  /\ (0 <= clock run.2 <= 0 + total_timeout fixed_agents)%Z
  /\ total_timeout fixed_agents = seconds 780.
Proof.
  destruct (run_pipeline_duration _load_agent micros "run-1" test_input
              (world_at 0 new_orchestrator) ltac:(discriminate))
    as (Ha & Hc & _).
  split; [exact (proj2 Ha) |]. split; [exact Hc | reflexivity].
Defined.

Lemma run_pipeline_keeps_unwritten_keys_witness :
  exists output,
    (run_pipeline _load_agent micros "run-1" test_input
       (world_at 0 (set_agents_config [market_research] new_orchestrator))).1
    = Returned output
    /\ output !! "niche" = Some (PyStr "gaming peripherals").
Proof.
  destruct (run_pipeline_keeps_unwritten_keys _load_agent micros "run-1"
              test_input
              (world_at 0
                 (set_agents_config [market_research] new_orchestrator))
              "niche")
    as (output & He & _ & Hv).
  - discriminate.
  - discriminate.
  - intros c input_data w0 r Hc Hr.
    apply list_elem_of_singleton in Hc. subst c.
    rewrite execute_agent_outcome, mock_agent_outcome in Hr
      by (compute_done || (simpl; lia)).
    injection Hr as <-. reflexivity.
  - exists output. split; [exact He |]. apply Hv. reflexivity.
Defined.

Lemma results_are_kept_by_name_witness :
  let w :=
    world_at 0
      (set_agents_config [market_research; market_research]
         new_orchestrator) in
  let o' := self (run_pipeline _load_agent micros "run-1" test_input w).2 in
  status o' = COMPLETED /\ size (results o') = 1%nat.
Proof.
  destruct (results_are_kept_by_name _load_agent micros "run-1" test_input
              (world_at 0
                 (set_agents_config [market_research; market_research]
                    new_orchestrator)))
    as (Hst & _ & _ & Hsize).
  - discriminate.
  - repeat constructor; apply mock_agent_succeeds;
      (compute_done || (simpl; lia)).
  - split; [exact Hst | exact (Hsize eq_refl)].
Defined.

Lemma execute_agent_times_out_witness :
  let config :=
    {| name := "market_research"; class := "MarketResearchAgent";
       timeout := Some 0%Z |} in
  let run :=
    execute_agent _load_agent config ∅ (world_at 0 new_orchestrator) in
  run.1 = Raised (Exception "Agent market_research timed out after 0s")
  /\ errors (self run.2) = ["Agent market_research timed out after 0s"]
  /\ clock run.2 = 0%Z.
Proof.
  destruct (execute_agent_times_out _load_agent
              {| name := "market_research"; class := "MarketResearchAgent";
                 timeout := Some 0%Z |} ∅ (world_at 0 new_orchestrator)
              (MockAgent "market_research"))
    as (H1 & H2 & _ & _ & H5 & _).
  - reflexivity.
  - left. simpl. lia.
  - split; [exact H1 |]. split; [exact H2 | exact H5].
Defined.

Lemma run_pipeline_without_agents_witness :
  let run :=
    run_pipeline _load_agent micros "run-1" test_input
      (world_at 0 (set_agents_config [] new_orchestrator)) in
  run.1 = Raised (Exception "division by zero")
  /\ status (self run.2) = COMPLETED.
Proof.
  destruct (run_pipeline_without_agents _load_agent micros "run-1" test_input
              (world_at 0 (set_agents_config [] new_orchestrator)) eq_refl)
    as (H1 & H2 & _).
  split; [exact H1 | exact H2].
Defined.

Lemma mock_pipeline_completes_witness :
  let run :=
    run_pipeline _load_agent micros "run-1" test_input
      (world_at 0 new_orchestrator) in
  exists output,
    run.1 = Returned output
    /\ status (self run.2) = COMPLETED
    /\ errors (self run.2) = []
    /\ clock run.2 = 700000%Z
    /\ output !! "content_writer_result"
       = Some (PyStr "Mock result from content_writer").
Proof.
  destruct (mock_pipeline_completes micros "run-1" test_input
              (world_at 0 new_orchestrator))
    as (output & He & Hst & Herr & Hc & Hin & _).
  - discriminate.
  - repeat constructor; (compute_done || (simpl; lia)).
  - exists output. split; [exact He |]. split; [exact Hst |].
    split; [exact Herr |]. split; [exact Hc |].
    destruct (Hin {| name := "content_writer"; class := "ContentWriterAgent";
                     timeout := Some 300%Z |}) as [_ H].
    + simpl. unfold fixed_agents. do 3 right. left.
    + exact H.
Defined.


(** *** The event bus *)

Lemma call_listeners_app {St} (l1 l2 : list (listener St)) e st :
  call_listeners (l1 ++ l2) e st
  = call_listeners l2 e (call_listeners l1 e st).
Proof. unfold call_listeners. apply foldl_app. Qed.

(** Publishing after one more subscription: the new listener is called
    last, on what the earlier ones left, and only for its event type. *)
Lemma publish_after_subscribe {St} (t : string) (callback : listener St)
    (bus : EventBus St) (e : PipelineEvent) (st : St) :
  bus_publish e (subscribe t callback bus) st
  = if decide (t = event_type e)
    then (callback e (bus_publish e bus st)).2
    else bus_publish e bus st.
Proof.
  unfold bus_publish, subscribe, EventBus in *.
  destruct (decide (t = event_type e)) as [-> | Hne].
  - rewrite lookup_insert_eq, call_listeners_app.
    destruct (bus !! event_type e); reflexivity.
  - now rewrite lookup_insert_ne.
Qed.

Lemma subscribe_all_snoc {St} (subs : list (string * listener St)) s bus :
  subscribe_all (subs ++ [s]) bus = subscribe s.1 s.2 (subscribe_all subs bus).
Proof. unfold subscribe_all. now rewrite foldl_app. Qed.

(** X30: the event bus calls, for an event, the listeners subscribed to
    its type, each once and in the order of their subscription, and no
    other listener; a listener that raises does not keep the later ones
    from being called. *)
Theorem publish_calls_subscribers {St}
    (subscriptions : list (string * listener St)) (e : PipelineEvent)
    (st : St) :
  bus_publish e (subscribe_all subscriptions new_bus) st
  = call_listeners
      (snd <$> filter (fun s => s.1 = event_type e) subscriptions) e st.
Proof.
  induction subscriptions as [| s subs IH] using rev_ind; [reflexivity |].
  rewrite subscribe_all_snoc, publish_after_subscribe, IH.
  rewrite filter_app, fmap_app, call_listeners_app, filter_cons, filter_nil.
  destruct (decide (s.1 = event_type e)); reflexivity.
Qed.

End PipelineMore.
